(** * PICMI simulation resolution for PIConGPU

    A shallow embedding of [lib/python/picongpu/picmi/simulation.py]:
    the reconciliation of time step and CFL number for the Yee solver,
    the selection (or creation) of the electron species used by ionization,
    the propagation of that choice to the ionizing species, the back-fill
    of the translated electron species into the ionization models, the
    grouping of species into [SimpleDensity] operations and the typical
    number of particles per cell.

    Python [float]s are IEEE binary64 numbers and are embedded as the
    primitive floats of the kernel; Python [int]s are [Z].  The power
    function of the C library, which Python calls for [**], is a parameter.
    Objects that the program mutates or compares by identity (species) live
    in a heap and are named by their address; a layout, which is a
    dictionary key by identity, carries the identity of its object. *)

From Stdlib Require Import ZArith QArith String List.
From Stdlib Require Import Floats.PrimFloat Floats.SpecFloat Floats.FloatOps.
From stdpp Require Import base option list strings gmap.

Local Open Scope Z_scope.
Local Open Scope string_scope.

Set Default Proof Using "Type".
Set Warnings "-inexact-float".

(** ** Exceptions and results *)

(** The text carried by an exception.  The message of the time-step check is
    built by formatting two floats; it is kept as the two numbers. *)
Inductive Message :=
| Text (s : string)
| DeltaTMismatch (delta_t expected_from_cfl : float).

Inductive PyError :=
| AssertionError (msg : option string)
| AttributeError (msg : string)
| KeyError
| OverflowError
| TypeError
| ValueError (msg : Message)
| ZeroDivisionError.

(** A computation without side effects: it returns or it raises. *)
Inductive result (A : Type) :=
| Ok (a : A)
| Raise (e : PyError).
Arguments Ok {A} a.
Arguments Raise {A} e.

#[global] Instance result_ret : MRet result := fun A a => Ok a.
#[global] Instance result_bind : MBind result := fun A B f r =>
  match r with
  | Ok a => f a
  | Raise e => Raise e
  end.

(** A call that may change objects: it returns a value and the state after
    the call, or raises and leaves the state as it was when the exception
    left the method.  [OutOfFuel] is the answer of a loop of the embedding
    whose bound was too small; it is no behaviour of the program. *)
Inductive outcome (St A : Type) :=
| Return (a : A) (st : St)
| Raised (e : PyError) (st : St)
| OutOfFuel.
Arguments Return {St A} a st.
Arguments Raised {St A} e st.
Arguments OutOfFuel {St A}.

Definition py_assert (b : bool) (msg : option string) : result unit :=
  if b then Ok tt else Raise (AssertionError msg).

(** ** Python floats *)

(** The C library is not part of the program, and the value of its [pow]
    is not fixed by the float format: it is a parameter of the development.
    [pow M x y] is what [pow(x, y)] returns, with whether it reports a
    range error ([errno] set to [ERANGE]). *)
Module libm.
Record t := { pow : float -> float -> float * bool }.
End libm.

Module pyfloat.

(** [float(n)] for an [int]: nearest double, ties to even; an [int] beyond
    the range of doubles raises. *)
Definition of_int (n : Z) : result float :=
  let f := SF2Prim (binary_normalize prec emax n 0 false) in
  if is_infinity f then Raise OverflowError else Ok f.

(** [a / b] *)
Definition truediv (a b : float) : result float :=
  if (b =? 0)%float then Raise ZeroDivisionError else Ok (a / b)%float.

(** [a ** 2] for a [float]: [float_pow] of the interpreter with the
    exponent 2.0.  It answers by itself for a base that is not a number,
    infinite, zero or of absolute value 1.0; every other base goes, without
    its sign, to [pow] of the C library, and the result is an
    [OverflowError] when the library reports a range error with a result
    other than zero, or returns an infinity without reporting.  For a
    positive finite base and the exponent 2.0 the library has no other
    error to report. *)
Definition pow2 (M : libm.t) (a : float) : result float :=
  if is_nan a then Ok a
  else if is_infinity a then Ok infinity
  else if (a =? 0)%float then Ok 0%float
  else
    let iv := abs a in
    if (iv =? 1)%float then Ok 1%float
    else
      let '(ix, range_error) := libm.pow M iv 2 in
      let range_error :=
        if range_error then negb (ix =? 0)%float else is_infinity ix in
      if range_error then Raise OverflowError else Ok ix.

End pyfloat.

Module math.

(** [math.sqrt] *)
Definition sqrt (x : float) : result float :=
  if (x <? 0)%float then Raise (ValueError (Text "math domain error"))
  else Ok (PrimFloat.sqrt x).

Definition rel_tol : float := 1e-09%float.
Definition abs_tol : float := 0%float.

(** [math.isclose(a, b)] with its default tolerances. *)
Definition isclose (a b : float) : bool :=
  if (a =? b)%float then true
  else if is_infinity a || is_infinity b then false
  else
    let diff := abs (b - a)%float in
    (diff <=? abs (rel_tol * b))%float
    || (diff <=? abs (rel_tol * a))%float
    || (diff <=? abs_tol)%float.

End math.

(** The module [constants] is not part of the translated file; its values
    are parameters of the development. *)
Module constants.
Record t := { c : float; m_e : float; q_e : float }.
End constants.

(** ** The input objects *)

(** Addresses of PICMI species and of translated (PyPIConGPU) species. *)
Definition ref := nat.
Definition pyref := nat.

(** The layout classes are those of the PICMI standard library, which the
    method names at line 229.  They define no equality and no hash of their
    own, so Python takes a layout as a dictionary key by the identity of the
    object.  A layout is embedded as its attributes together with the
    identity of the object that holds them: the same object is the same
    key, and two objects are two keys also when their attributes are
    equal. *)
Inductive Layout :=
| PICMI_PseudoRandomLayout (object : nat) (n_macroparticles_per_cell : Z) (seed : option Z)
| PICMI_GriddedLayout (object : nat) (n_macroparticle_per_cell : Z * Z * Z).

(** [id(layout)] *)
Definition layout_object (layout : Layout) : nat :=
  match layout with
  | PICMI_PseudoRandomLayout object _ _ => object
  | PICMI_GriddedLayout object _ => object
  end.

(** Modelled from the spec: the distribution classes are not part of the
    translated file.  A profile is a value, compared by value. *)
Inductive Profile :=
| UniformDistribution (density : Z)
| AnalyticDistribution (density_expression : string).

(** Modelled from the spec: the translated profile, the normalized form
    that [profile.get_as_pypicongpu()] returns. *)
Inductive PyProfile :=
| Uniform (density_si : Z)
| Analytic (expression : string).

#[global] Instance Layout_eq_dec : EqDecision Layout.
Proof. solve_decision. Defined.
#[global] Instance Profile_eq_dec : EqDecision Profile.
Proof. solve_decision. Defined.
#[global] Instance PyProfile_eq_dec : EqDecision PyProfile.
Proof. solve_decision. Defined.

Definition profile_get_as_pypicongpu (p : Profile) : PyProfile :=
  match p with
  | UniformDistribution d => Uniform d
  | AnalyticDistribution e => Analytic e
  end.

(** A PICMI species.  Modelled from the spec: the species class is not part
    of the translated file; [has_ionizers] holds when the species has at
    least one ionization model. *)
Record Species := {
  name : string;
  particle_type : option string;
  mass : option float;
  charge : option float;
  initial_distribution : option Profile;
  density_scale : option Z;
  picongpu_ionization_models : list string;
  picongpu_ionization_electrons : option ref;
}.

Definition has_ionizers (sp : Species) : bool :=
  negb (Nat.eqb (length (picongpu_ionization_models sp)) 0).

Definition with_ionization_electrons (e : ref) (sp : Species) : Species :=
  {| name := name sp;
     particle_type := particle_type sp;
     mass := mass sp;
     charge := charge sp;
     initial_distribution := initial_distribution sp;
     density_scale := density_scale sp;
     picongpu_ionization_models := picongpu_ionization_models sp;
     picongpu_ionization_electrons := Some e |}.

#[global] Instance Species_inhabited : Inhabited Species :=
  populate {| name := ""; particle_type := None; mass := None; charge := None;
              initial_distribution := None; density_scale := None;
              picongpu_ionization_models := [];
              picongpu_ionization_electrons := None |}.

Record Cartesian3DGrid := {
  lower_bound : float * float * float;
  upper_bound : float * float * float;
  number_of_cells : Z * Z * Z;
}.

Inductive Grid :=
| Cartesian3D (g : Cartesian3DGrid)
| OtherGrid.

Record Solver := {
  method : string;
  grid : Grid;
  cfl : option float;
}.

(** The simulation object, with the heap of the species it refers to and the
    records written by [logging.info]. *)
Record Simulation := {
  heap : list Species;
  solver : option Solver;
  time_step_size : option float;
  max_steps : option Z;
  max_time : option float;
  species : list ref;
  layouts : list (option Layout);
  picongpu_typical_ppc : option Z;
  picongpu_moving_window_move_point : option float;
  picongpu_moving_window_stop_iteration : option Z;
  electron_species : option ref;
  logged : list string;
}.

Definition set_solver_cfl (v : float) (self : Simulation) : Simulation :=
  {| heap := heap self;
     solver := (fun sv => {| method := method sv; grid := grid sv; cfl := Some v |})
                 <$> solver self;
     time_step_size := time_step_size self;
     max_steps := max_steps self;
     max_time := max_time self;
     species := species self;
     layouts := layouts self;
     picongpu_typical_ppc := picongpu_typical_ppc self;
     picongpu_moving_window_move_point := picongpu_moving_window_move_point self;
     picongpu_moving_window_stop_iteration := picongpu_moving_window_stop_iteration self;
     electron_species := electron_species self;
     logged := logged self |}.

Definition set_time_step_size (v : float) (self : Simulation) : Simulation :=
  {| heap := heap self;
     solver := solver self;
     time_step_size := Some v;
     max_steps := max_steps self;
     max_time := max_time self;
     species := species self;
     layouts := layouts self;
     picongpu_typical_ppc := picongpu_typical_ppc self;
     picongpu_moving_window_move_point := picongpu_moving_window_move_point self;
     picongpu_moving_window_stop_iteration := picongpu_moving_window_stop_iteration self;
     electron_species := electron_species self;
     logged := logged self |}.

(** ** Time step and CFL number of the Yee solver *)

Section Yee.

Variable K : constants.t.
Variable M : libm.t.

(** [(upper - lower) / count], lines 154 to 162. *)
Definition cell_size (upper lower : float) (count : Z) : result float :=
  n ← pyfloat.of_int count;
  pyfloat.truediv (upper - lower)%float n.

(** [constants.c * math.sqrt(1 / delta_x**2 + 1 / delta_y**2 + 1 / delta_z**2)],
    the expression of lines 167, 180 and 185. *)
Definition c_sqrt_inverse_squares (delta_x delta_y delta_z : float) : result float :=
  x2 ← pyfloat.pow2 M delta_x;
  ix ← pyfloat.truediv 1 x2;
  y2 ← pyfloat.pow2 M delta_y;
  iy ← pyfloat.truediv 1 y2;
  z2 ← pyfloat.pow2 M delta_z;
  iz ← pyfloat.truediv 1 z2;
  r ← math.sqrt (ix + iy + iz)%float;
  mret (constants.c K * r)%float.

Definition yee_compute_cfl_or_delta_t (self : Simulation) : result Simulation :=
  match solver self with
  | None => Raise (AssertionError None)
  | Some sv =>
    _ ← py_assert (bool_decide ("Yee" = method sv)) None;
    match grid sv with
    | OtherGrid => Raise (AssertionError None)
    | Cartesian3D g =>
      let '(lower_x, lower_y, lower_z) := lower_bound g in
      let '(upper_x, upper_y, upper_z) := upper_bound g in
      let '(cells_x, cells_y, cells_z) := number_of_cells g in
      delta_x ← cell_size upper_x lower_x cells_x;
      delta_y ← cell_size upper_y lower_y cells_y;
      delta_z ← cell_size upper_z lower_z cells_z;
      match time_step_size self, cfl sv with
      | Some delta_t, Some cfl_ =>
        s ← c_sqrt_inverse_squares delta_x delta_y delta_z;
        delta_t_from_cfl ← pyfloat.truediv cfl_ s;
        if negb (delta_t_from_cfl =? delta_t)%float
        then Raise (ValueError (DeltaTMismatch delta_t delta_t_from_cfl))
        else Ok self
      | Some delta_t, None =>
        s ← c_sqrt_inverse_squares delta_x delta_y delta_z;
        Ok (set_solver_cfl (delta_t * s)%float self)
      | None, Some cfl_ =>
        s ← c_sqrt_inverse_squares delta_x delta_y delta_z;
        delta_t ← pyfloat.truediv cfl_ s;
        Ok (set_time_step_size delta_t self)
      | None, None => Ok self
      end
    end
  end.

(** The call in the constructor, lines 113 and 114. *)
Definition init_reconcile (self : Simulation) : result Simulation :=
  match solver self with
  | Some sv =>
    if bool_decide ("Yee" = method sv)
    then match grid sv with
         | Cartesian3D _ => yee_compute_cfl_or_delta_t self
         | OtherGrid => Ok self
         end
    else Ok self
  | None => Ok self
  end.

(** The per-axis spacings of a grid and the factor
    [S = c * sqrt(1/dx^2 + 1/dy^2 + 1/dz^2)] that couples the time step
    and the CFL number. *)
Definition spacings (g : Cartesian3DGrid) : result (float * float * float) :=
  let '(lower_x, lower_y, lower_z) := lower_bound g in
  let '(upper_x, upper_y, upper_z) := upper_bound g in
  let '(cells_x, cells_y, cells_z) := number_of_cells g in
  delta_x ← cell_size upper_x lower_x cells_x;
  delta_y ← cell_size upper_y lower_y cells_y;
  delta_z ← cell_size upper_z lower_z cells_z;
  mret (delta_x, delta_y, delta_z).

Definition courant_factor (g : Cartesian3DGrid) : result float :=
  d ← spacings g;
  c_sqrt_inverse_squares d.1.1 d.1.2 d.2.

End Yee.

(** ** The electron species used by ionization *)

Definition set_electron_species (e : ref) (self : Simulation) : Simulation :=
  {| heap := heap self;
     solver := solver self;
     time_step_size := time_step_size self;
     max_steps := max_steps self;
     max_time := max_time self;
     species := species self;
     layouts := layouts self;
     picongpu_typical_ppc := picongpu_typical_ppc self;
     picongpu_moving_window_move_point := picongpu_moving_window_move_point self;
     picongpu_moving_window_stop_iteration := picongpu_moving_window_stop_iteration self;
     electron_species := Some e;
     logged := logged self |}.

(** [logging.info(msg)] *)
Definition logging_info (msg : string) (self : Simulation) : Simulation :=
  {| heap := heap self;
     solver := solver self;
     time_step_size := time_step_size self;
     max_steps := max_steps self;
     max_time := max_time self;
     species := species self;
     layouts := layouts self;
     picongpu_typical_ppc := picongpu_typical_ppc self;
     picongpu_moving_window_move_point := picongpu_moving_window_move_point self;
     picongpu_moving_window_stop_iteration := picongpu_moving_window_stop_iteration self;
     electron_species := electron_species self;
     logged := logged self ++ [msg] |}.

Definition set_heap (h : list Species) (self : Simulation) : Simulation :=
  {| heap := h;
     solver := solver self;
     time_step_size := time_step_size self;
     max_steps := max_steps self;
     max_time := max_time self;
     species := species self;
     layouts := layouts self;
     picongpu_typical_ppc := picongpu_typical_ppc self;
     picongpu_moving_window_move_point := picongpu_moving_window_move_point self;
     picongpu_moving_window_stop_iteration := picongpu_moving_window_stop_iteration self;
     electron_species := electron_species self;
     logged := logged self |}.

(** Modelled from the spec: [add_species] is inherited from the PICMI
    standard class, which is not part of the translated file; it appends the
    species and its layout to the two sequences of the simulation. *)
Definition add_species (sp : ref) (layout : option Layout) (self : Simulation) : Simulation :=
  {| heap := heap self;
     solver := solver self;
     time_step_size := time_step_size self;
     max_steps := max_steps self;
     max_time := max_time self;
     species := species self ++ [sp];
     layouts := layouts self ++ [layout];
     picongpu_typical_ppc := picongpu_typical_ppc self;
     picongpu_moving_window_move_point := picongpu_moving_window_move_point self;
     picongpu_moving_window_stop_iteration := picongpu_moving_window_stop_iteration self;
     electron_species := electron_species self;
     logged := logged self |}.

(** The object behind a reference. *)
Definition deref (self : Simulation) (r : ref) : Species := heap self !!! r.

(** [picmi_species.picongpu_ionization_electrons = e] *)
Definition set_ionization_electrons (r : ref) (e : ref) (self : Simulation) : Simulation :=
  set_heap (<[r := with_ionization_electrons e (deref self r)]> (heap self)) self.

(** Modelled from the spec: the constructor of the species class is not part
    of the translated file; [PicongpuPicmiSpecies(name=n, particle_type=
    "electron")] is a species with that name and type and nothing else set. *)
Definition new_electrons (electrons_name : string) : Species :=
  {| name := electrons_name;
     particle_type := Some "electron";
     mass := None;
     charge := None;
     initial_distribution := None;
     density_scale := None;
     picongpu_ionization_models := [];
     picongpu_ionization_electrons := None |}.

(** The loop of lines 439 and 440: [while electrons_name in
    all_species_names: electrons_name += "_"]. *)
Fixpoint escape_name (fuel : nat) (all_species_names : list string)
    (electrons_name : string) : option string :=
  if bool_decide (electrons_name ∈ all_species_names) then
    match fuel with
    | O => None
    | S fuel => escape_name fuel all_species_names (electrons_name ++ "_")
    end
  else Some electrons_name.

Definition ambiguous_message (names : list string) : string :=
  "choice of electron species for ionization is ambiguous, please " ++
  "set picongpu_ionization_electrons explicitly for ionizable " ++
  "species; found electron species: " ++ String.concat ", " names.

Definition creating_message (electrons_name : string) : string :=
  "no electron species for ionization available, creating electrons with name: "
  ++ electrons_name.

Section Electrons.

Variable K : constants.t.

(** The test of lines 419 to 426. *)
Definition is_electron (sp : Species) : bool :=
  if bool_decide (Some "electron" = particle_type sp) then true
  else
    match mass sp with
    | Some m =>
      math.isclose m (constants.m_e K)
      && match charge sp with
         | Some q => math.isclose q (- constants.q_e K)%float
         | None => false
         end
    | None => false
    end.

(** The species collected by the loop of lines 417 to 427. *)
Definition all_electrons (self : Simulation) : list ref :=
  List.filter (fun r => is_electron (deref self r)) (species self).

Definition get_electron_species (self : Simulation) : outcome Simulation ref :=
  match electron_species self with
  | Some e => Return e self
  | None =>
    match all_electrons self with
    | [e] => Return e (set_electron_species e self)
    | [] =>
      let all_species_names := map (fun r => name (deref self r)) (species self) in
      match escape_name (length all_species_names) all_species_names "e" with
      | None => OutOfFuel
      | Some electrons_name =>
        let self := logging_info (creating_message electrons_name) self in
        let electrons := length (heap self) in
        let self := set_heap (heap self ++ [new_electrons electrons_name]) self in
        let self := add_species electrons None self in
        Return electrons (set_electron_species electrons self)
      end
    | found =>
      Raised (ValueError (Text (ambiguous_message
                                  (map (fun r => name (deref self r)) found)))) self
    end
  end.

(** The loop of lines 477 to 486.  A Python [for] over a list reads the
    list by position, so a species appended during the loop is visited
    too. *)
Fixpoint resolve_electrons_from (fuel : nat) (i : nat) (self : Simulation) : outcome Simulation unit :=
  match fuel with
  | O => OutOfFuel
  | S fuel =>
    match species self !! i with
    | None => Return tt self
    | Some picmi_species =>
      if negb (has_ionizers (deref self picmi_species))
      then resolve_electrons_from fuel (S i) self
      else
        match picongpu_ionization_electrons (deref self picmi_species) with
        | Some _ => resolve_electrons_from fuel (S i) self
        | None =>
          match get_electron_species self with
          | Return e self =>
            resolve_electrons_from fuel (S i)
              (set_ionization_electrons picmi_species e self)
          | Raised err self => Raised err self
          | OutOfFuel => OutOfFuel
          end
        end
    end
  end.

Definition resolve_electrons (self : Simulation) : outcome Simulation unit :=
  resolve_electrons_from (length (species self) + 2) 0 self.

End Electrons.

(** ** Python dictionaries

    A [dict] keeps its keys in the order of their first insertion; a key is
    found by equality. *)
Module dict.
Section dict.
Context {Key V : Type} `{EqDecision Key}.

Fixpoint get (d : list (Key * V)) (k : Key) : option V :=
  match d with
  | [] => None
  | (k', v) :: d => if decide (k = k') then Some v else get d k
  end.

(** [k in d] *)
Definition contains (d : list (Key * V)) (k : Key) : bool :=
  bool_decide (is_Some (get d k)).

(** [d[k] = v] *)
Fixpoint set (d : list (Key * V)) (k : Key) (v : V) : list (Key * V) :=
  match d with
  | [] => [(k, v)]
  | (k', v') :: d =>
    if decide (k = k') then (k', v) :: d else (k', v') :: set d k v
  end.
End dict.
End dict.

(** ** The translated objects *)

(** Modelled from the spec: the PyPIConGPU classes are not part of the
    translated file.  An ionization model carries the link to the species
    that receives its electrons; a translated species carries its name and,
    when it ionizes, the list of the models of its [GroundStateIonization]
    constant. *)
Record IonizationModel := {
  model_name : string;
  ionization_electron_species : option pyref;
}.

Record PySpecies := {
  py_name : string;
  ground_state_ionization : option (list IonizationModel);
}.

#[global] Instance PySpecies_inhabited : Inhabited PySpecies :=
  populate {| py_name := ""; ground_state_ionization := None |}.

Definition with_electron_species (e : pyref) (model : IonizationModel) : IonizationModel :=
  {| model_name := model_name model; ionization_electron_species := Some e |}.

(** Modelled from the spec: [picmi_species.get_as_pypicongpu()] is not part
    of the translated file.  The translation keeps the name and creates the
    ionization models without their electron species. *)
Definition species_get_as_pypicongpu (sp : Species) : PySpecies :=
  {| py_name := name sp;
     ground_state_ionization :=
       if has_ionizers sp
       then Some (map (fun m => {| model_name := m; ionization_electron_species := None |})
                      (picongpu_ionization_models sp))
       else None |}.

Record SimpleDensity := {
  ppc : Z;
  profile : PyProfile;
  simple_density_species : gset pyref;
}.

Inductive Operation :=
| OpSimpleDensity (op : SimpleDensity)
| OpNotPlaced (not_placed_species : pyref)
| OpIndependent (description : string) (independent_species : pyref).

Record InitManager := {
  all_species : list pyref;
  all_operations : list Operation;
}.

Definition explicitly_added_message (electrons_name species_name : string) : string :=
  "species " ++ electrons_name ++ " (set as electrons " ++
  "for species " ++ species_name ++ " via picongpu_ionization_species) must be " ++
  "explicitly added with add_species()".

(** ** Ionization electrons of the translated species *)

(** The loop of lines 315 to 333 over [pypicongpu_by_picmi_species.items()];
    the state is the heap of the translated species. *)
Fixpoint fill_ionization_electrons_items (self : Simulation)
    (pypicongpu_by_picmi_species : list (ref * pyref))
    (items : list (ref * pyref)) (pyheap : list PySpecies)
    : outcome (list PySpecies) unit :=
  match items with
  | [] => Return tt pyheap
  | (picmi_species, pypic_species) :: items =>
    match ground_state_ionization (pyheap !!! pypic_species) with
    | None =>
      fill_ionization_electrons_items self pypicongpu_by_picmi_species items pyheap
    | Some ionizer_model_list =>
      match picongpu_ionization_electrons (deref self picmi_species) with
      | None =>
        (* [None] is no key, and the message of the assertion reads [None.name] *)
        Raised (AttributeError "'NoneType' object has no attribute 'name'") pyheap
      | Some electrons =>
        match dict.get pypicongpu_by_picmi_species electrons with
        | None =>
          Raised (AssertionError
                    (Some (explicitly_added_message
                             (name (deref self electrons))
                             (py_name (pyheap !!! pypic_species))))) pyheap
        | Some py_electrons =>
          fill_ionization_electrons_items self pypicongpu_by_picmi_species items
            (<[pypic_species :=
                 {| py_name := py_name (pyheap !!! pypic_species);
                    ground_state_ionization :=
                      Some (map (with_electron_species py_electrons) ionizer_model_list) |}]>
               pyheap)
        end
      end
    end
  end.

Definition fill_ionization_electrons (self : Simulation)
    (pypicongpu_by_picmi_species : list (ref * pyref)) (pyheap : list PySpecies)
    : outcome (list PySpecies) unit :=
  fill_ionization_electrons_items self pypicongpu_by_picmi_species
    pypicongpu_by_picmi_species pyheap.

(** ** Operations *)

(** Lines 213 to 220: the species joins the list of its layout and
    profile, which are entered into the dictionaries when they are new. *)
Definition group_insert
    (picmi_species_by_profile_by_layout : list (Layout * list (Profile * list ref)))
    (picmi_species : ref) (layout : Layout) (profile_ : Profile)
    : list (Layout * list (Profile * list ref)) :=
  let by_layout :=
    if dict.contains picmi_species_by_profile_by_layout layout
    then picmi_species_by_profile_by_layout
    else dict.set picmi_species_by_profile_by_layout layout [] in
  let by_profile := default [] (dict.get by_layout layout) in
  let by_profile :=
    if dict.contains by_profile profile_
    then by_profile
    else dict.set by_profile profile_ [] in
  let picmi_species_list := default [] (dict.get by_profile profile_) in
  dict.set by_layout layout
    (dict.set by_profile profile_ (picmi_species_list ++ [picmi_species])%list).

(** One step of the loop of lines 208 to 220. *)
Definition group_step (self : Simulation)
    (picmi_species_by_profile_by_layout : list (Layout * list (Profile * list ref)))
    (item : ref * option Layout) : list (Layout * list (Profile * list ref)) :=
  match item.2, initial_distribution (deref self item.1) with
  | Some layout, Some profile_ =>
    group_insert picmi_species_by_profile_by_layout item.1 layout profile_
  | _, _ => picmi_species_by_profile_by_layout
  end.

Definition group_by_layout_and_profile (self : Simulation)
    : list (Layout * list (Profile * list ref)) :=
  foldl (group_step self) [] (zip (species self) (layouts self)).

(** [pypicongpu_by_picmi_species[picmi_species]] for every species of a list. *)
Fixpoint translated (pypicongpu_by_picmi_species : list (ref * pyref))
    (picmi_species_list : list ref) : result (list pyref) :=
  match picmi_species_list with
  | [] => Ok []
  | picmi_species :: rest =>
    match dict.get pypicongpu_by_picmi_species picmi_species with
    | None => Raise KeyError
    | Some pypicongpu_species =>
      l ← translated pypicongpu_by_picmi_species rest; mret (pypicongpu_species :: l)
    end
  end.

(** The body of the inner loop, lines 229 to 242. *)
Definition simple_density_of (pypicongpu_by_picmi_species : list (ref * pyref))
    (layout : Layout) (profile_ : Profile) (picmi_species_list : list ref)
    : result SimpleDensity :=
  match layout with
  | PICMI_PseudoRandomLayout _ n_macroparticles_per_cell _ =>
    l ← translated pypicongpu_by_picmi_species picmi_species_list;
    mret {| ppc := n_macroparticles_per_cell;
            profile := profile_get_as_pypicongpu profile_;
            simple_density_species := list_to_set l |}
  | PICMI_GriddedLayout _ _ => Raise (AssertionError None)
  end.

Fixpoint simple_density_by_profile (pypicongpu_by_picmi_species : list (ref * pyref))
    (layout : Layout) (picmi_species_by_profile : list (Profile * list ref))
    : result (list SimpleDensity) :=
  match picmi_species_by_profile with
  | [] => Ok []
  | (profile_, picmi_species_list) :: rest =>
    op ← simple_density_of pypicongpu_by_picmi_species layout profile_ picmi_species_list;
    ops ← simple_density_by_profile pypicongpu_by_picmi_species layout rest;
    mret (op :: ops)
  end.

Fixpoint simple_density_by_layout (pypicongpu_by_picmi_species : list (ref * pyref))
    (picmi_species_by_profile_by_layout : list (Layout * list (Profile * list ref)))
    : result (list SimpleDensity) :=
  match picmi_species_by_profile_by_layout with
  | [] => Ok []
  | (layout, picmi_species_by_profile) :: rest =>
    ops ← simple_density_by_profile pypicongpu_by_picmi_species layout
            picmi_species_by_profile;
    more ← simple_density_by_layout pypicongpu_by_picmi_species rest;
    mret (ops ++ more)%list
  end.

Definition get_operations_simple_density (self : Simulation)
    (pypicongpu_by_picmi_species : list (ref * pyref)) : result (list SimpleDensity) :=
  simple_density_by_layout pypicongpu_by_picmi_species (group_by_layout_and_profile self).

(** Lines 263 to 274. *)
Fixpoint not_placed_of (self : Simulation)
    (pypicongpu_by_picmi_species : list (ref * pyref))
    (items : list (ref * option Layout)) : result (list Operation) :=
  match items with
  | [] => Ok []
  | (picmi_species, layout) :: items =>
    match layout, initial_distribution (deref self picmi_species) with
    | None, None =>
      match dict.get pypicongpu_by_picmi_species picmi_species with
      | None => Raise KeyError
      | Some pypicongpu_species =>
        ops ← not_placed_of self pypicongpu_by_picmi_species items;
        mret (OpNotPlaced pypicongpu_species :: ops)
      end
    | _, _ => not_placed_of self pypicongpu_by_picmi_species items
    end
  end.

Definition get_operations_not_placed (self : Simulation)
    (pypicongpu_by_picmi_species : list (ref * pyref)) : result (list Operation) :=
  not_placed_of self pypicongpu_by_picmi_species (zip (species self) (layouts self)).

(** ** The initialization plan *)

(** The checks of lines 354 to 367 over [zip(self.layouts, self.species)]. *)
Fixpoint check_layouts (self : Simulation) (items : list (option Layout * ref))
    : result unit :=
  match items with
  | [] => Ok tt
  | (layout, picmi_species) :: items =>
    let profile_ := initial_distribution (deref self picmi_species) in
    let ratio := density_scale (deref self picmi_species) in
    let count_none :=
      (match layout with Some _ => 0 | None => 1 end
       + match profile_ with Some _ => 0 | None => 1 end)%nat in
    _ ← py_assert (negb (Nat.eqb 1 count_none))
          (Some "species need BOTH layout AND initial distribution set (or neither)");
    _ ← match ratio with
        | Some _ =>
          py_assert (bool_decide (is_Some layout) && bool_decide (is_Some profile_))
            (Some "layout and initial distribution must be set to use density scale")
        | None => Ok tt
        end;
    check_layouts self items
  end.

(** The loop of lines 373 to 377: every species is translated into a new
    object. *)
Fixpoint translate_all (self : Simulation) (todo : list ref)
    (pypicongpu_by_picmi_species : list (ref * pyref)) (all_species_ : list pyref)
    (pyheap : list PySpecies) : list (ref * pyref) * list pyref * list PySpecies :=
  match todo with
  | [] => (pypicongpu_by_picmi_species, all_species_, pyheap)
  | picmi_species :: todo =>
    let pypicongpu_species := length pyheap in
    translate_all self todo
      (dict.set pypicongpu_by_picmi_species picmi_species pypicongpu_species)
      (all_species_ ++ [pypicongpu_species])
      (pyheap ++ [species_get_as_pypicongpu (deref self picmi_species)])
  end.

(** The median of a list of counts: the middle one in increasing order, the
    mean of the two middle ones when their number is even; no count gives no
    median. *)
Fixpoint insert_sorted (x : Z) (l : list Z) : list Z :=
  match l with
  | [] => [x]
  | y :: l' => if (x <=? y)%Z then x :: l else y :: insert_sorted x l'
  end.

Definition median (data : list Z) : option Q :=
  let sorted := foldr insert_sorted [] data in
  let n := length sorted in
  if Nat.eqb n 0 then None
  else if Nat.odd n then inject_Z <$> sorted !! (n / 2)%nat
  else
    a ← sorted !! (n / 2 - 1)%nat;
    b ← sorted !! (n / 2)%nat;
    Some ((a + b) # 2)%Q.

Definition species_sampling_counts (init_manager_ : InitManager) : list Z :=
  flat_map (fun op =>
              match op with
              | OpSimpleDensity sd => replicate (size (simple_density_species sd)) (ppc sd)
              | _ => []
              end) (all_operations init_manager_).

Record MovingWindow := {
  move_point : float;
  stop_iteration : option Z;
}.

(** ** The translation of the simulation *)

Section Translation.

Variable K : constants.t.

(** The collaborators of the translation that are not part of the
    translated file: the translation of solver, grid and laser with the
    checks for unsupported features, and the operations a species defines
    for itself. *)
Variables PySolver PyGrid PyLaser : Type.
Variable solver_get_as_pypicongpu : Solver -> result PySolver.
Variable grid_and_laser_get_as_pypicongpu : Simulation -> result (PyGrid * option PyLaser).
Variable get_independent_operations : Species -> pyref -> result (list Operation).

(** Modelled from the spec: [get_typical_particle_per_cell] belongs to the
    init manager, which is not part of the translated file.  It is the
    median of the sampling counts of the placed species.  The spec does not
    say what it gives for a plan without sampling counts; that is a
    parameter. *)
Variable typical_ppc_without_counts : result Q.

Definition get_typical_particle_per_cell (init_manager_ : InitManager) : result Q :=
  match median (species_sampling_counts init_manager_) with
  | Some m => Ok m
  | None => typical_ppc_without_counts
  end.

(** Lines 287 to 292. *)
Fixpoint get_operations_from_individual_species (self : Simulation)
    (items : list (ref * pyref)) : result (list Operation) :=
  match items with
  | [] => Ok []
  | (picmi_species, pypicongpu_species) :: items =>
    ops ← get_independent_operations (deref self picmi_species) pypicongpu_species;
    more ← get_operations_from_individual_species self items;
    mret (ops ++ more)%list
  end.

Definition get_init_manager (self : Simulation) : outcome (list PySpecies) InitManager :=
  let checked :=
    _ ← py_assert (Nat.eqb (length (species self)) (length (layouts self))) None;
    check_layouts self (zip (layouts self) (species self)) in
  match checked with
  | Raise e => Raised e []
  | Ok _ =>
    let '(pypicongpu_by_picmi_species, all_species_, pyheap) :=
      translate_all self (species self) [] [] [] in
    match fill_ionization_electrons self pypicongpu_by_picmi_species pyheap with
    | OutOfFuel => OutOfFuel
    | Raised e pyheap => Raised e pyheap
    | Return _ pyheap =>
      let operations :=
        simple ← get_operations_simple_density self pypicongpu_by_picmi_species;
        not_placed ← get_operations_not_placed self pypicongpu_by_picmi_species;
        individual ← get_operations_from_individual_species self pypicongpu_by_picmi_species;
        mret (map OpSimpleDensity simple ++ not_placed ++ individual)%list in
      match operations with
      | Raise e => Raised e pyheap
      | Ok all_operations_ =>
        Return {| all_species := all_species_; all_operations := all_operations_ |} pyheap
      end
    end
  end.

Record PySimulation := {
  delta_t_si : option float;
  py_solver : PySolver;
  time_steps : Z + float;
  py_grid : PyGrid;
  laser : option PyLaser;
  init_manager : InitManager;
  translated_species : list PySpecies;
  typical_ppc : Q;
  moving_window : option MovingWindow;
}.

(** Lines 538 to 543. *)
Definition get_time_steps (self : Simulation) : result (Z + float) :=
  match max_steps self with
  | Some n => Ok (inl n)
  | None =>
    match max_time self with
    | Some t =>
      match time_step_size self with
      | Some delta_t => q ← pyfloat.truediv t delta_t; mret (inr q)
      | None => Raise TypeError
      end
    | None =>
      Raise (ValueError (Text "runtime not specified (neither as step count nor max time)"))
    end
  end.

(** Lines 574 to 581. *)
Definition get_typical_ppc (self : Simulation) (init_manager_ : InitManager) : result Q :=
  typical_ppc_ ← match picongpu_typical_ppc self with
                 | None => get_typical_particle_per_cell init_manager_
                 | Some n => Ok (inject_Z n)
                 end;
  if negb (Qle_bool 1 typical_ppc_)
  then Raise (ValueError (Text "typical_ppc must be >= 1"))
  else Ok typical_ppc_.

(** Lines 584 to 590. *)
Definition get_moving_window (self : Simulation) : option MovingWindow :=
  match picongpu_moving_window_move_point self with
  | None => None
  | Some p =>
    Some {| move_point := p;
            stop_iteration := picongpu_moving_window_stop_iteration self |}
  end.

(** Lines 527 to 592.  The translation of the solver (line 532) and the
    checks and translations of lines 545 to 567 are the collaborators
    above; the custom user input is passed on unchanged and is left out. *)
Definition get_as_pypicongpu (self : Simulation) : outcome Simulation PySimulation :=
  let before :=
    sv ← match solver self with
         | Some sv => solver_get_as_pypicongpu sv
         | None => Raise (AttributeError "'NoneType' object has no attribute 'get_as_pypicongpu'")
         end;
    steps ← get_time_steps self;
    gl ← grid_and_laser_get_as_pypicongpu self;
    mret (sv, steps, gl) in
  match before with
  | Raise e => Raised e self
  | Ok (sv, steps, (grid_, laser_)) =>
    match resolve_electrons K self with
    | OutOfFuel => OutOfFuel
    | Raised e self' => Raised e self'
    | Return _ self' =>
      match get_init_manager self' with
      | OutOfFuel => OutOfFuel
      | Raised e _ => Raised e self'
      | Return init_manager_ pyheap =>
        match get_typical_ppc self' init_manager_ with
        | Raise e => Raised e self'
        | Ok typical_ppc_ =>
          Return {| delta_t_si := time_step_size self;
                    py_solver := sv;
                    time_steps := steps;
                    py_grid := grid_;
                    laser := laser_;
                    init_manager := init_manager_;
                    translated_species := pyheap;
                    typical_ppc := typical_ppc_;
                    moving_window := get_moving_window self' |} self'
        end
      end
    end
  end.

End Translation.

(** ** Vocabulary of the properties *)

(** A species that the propagation pass has to complete: it has ionization
    models and no ionization electrons yet. *)
Definition needs_electrons (sp : Species) : bool :=
  has_ionizers sp && bool_decide (picongpu_ionization_electrons sp = None).

(** What the pass does to one species once the electron species is known. *)
Definition assign_electrons (e : ref) (self : Simulation) (r : ref) : Simulation :=
  if needs_electrons (deref self r) then set_ionization_electrons r e self else self.

(** [x2] is [d ** 2] as Python computes it for a spacing [d] that is finite
    and not zero, when no range error occurs: 1.0 for a spacing of absolute
    value 1.0, and else what [pow] of the C library returns for the
    absolute value of the spacing and the exponent 2.0. *)
Definition is_square_of (M : libm.t) (d x2 : float) : Prop :=
  is_nan d = false /\ is_infinity d = false /\ (d =? 0)%float = false
  /\ (((abs d =? 1)%float = true /\ x2 = 1%float)
      \/ ((abs d =? 1)%float = false
          /\ libm.pow M (abs d) 2 = (x2, false)
          /\ is_infinity x2 = false)).

(** An electron-like species, in the words of the specification. *)
Definition electron_like (K : constants.t) (sp : Species) : Prop :=
  particle_type sp = Some "electron"
  \/ exists m q, mass sp = Some m /\ charge sp = Some q
                /\ math.isclose m (constants.m_e K) = true
                /\ math.isclose q (- constants.q_e K)%float = true.

(** The base name ["e"] followed by [k] escape characters. *)
Fixpoint escaped (k : nat) : string :=
  match k with
  | O => "e"
  | S k => escaped k ++ "_"
  end.

(** Every species of the simulation is an object of the heap. *)
Definition valid_species (self : Simulation) : Prop :=
  Forall (fun r => (r < length (heap self))%nat) (species self).

(** The species that are placed: those with a layout and a profile, with
    the pair that keys their group. *)
Definition placement (self : Simulation) (item : ref * option Layout)
    : option (ref * (Layout * Profile)) :=
  match item.2, initial_distribution (deref self item.1) with
  | Some layout, Some profile_ => Some (item.1, (layout, profile_))
  | _, _ => None
  end.

Definition placements (self : Simulation) : list (ref * (Layout * Profile)) :=
  omap (placement self) (zip (species self) (layouts self)).

(** The species placed with a given layout and profile, in their order. *)
Definition group_of (pl : list (ref * (Layout * Profile))) (k : Layout * Profile)
    : list ref :=
  (filter (fun x => x.2 = k) pl).*1.

(** The entries of the nested dictionaries, in the order of the two loops
    of lines 224 to 228. *)
Definition flat_groups (d : list (Layout * list (Profile * list ref)))
    : list ((Layout * Profile) * list ref) :=
  flat_map (fun e => map (fun f => ((e.1, f.1), f.2)) e.2) d.

(** The nested dictionaries hold the groups of the placed species [pl]. *)
Definition grouped (pl : list (ref * (Layout * Profile)))
    (d : list (Layout * list (Profile * list ref))) : Prop :=
  NoDup d.*1
  /\ (forall l bp, (l, bp) ∈ d -> NoDup bp.*1)
  /\ forall l p,
       (dict.get d l ≫= fun bp => dict.get bp p) =
       (if decide (group_of pl (l, p) = []) then None else Some (group_of pl (l, p))).

(** [op] is the operation for the species placed with layout and profile
    [k]: the layout is pseudo-random and gives the number of particles per
    cell, the profile is the translated one, and the species are the
    translations of exactly the species of the group. *)
Definition operation_of_group (self : Simulation) (m : list (ref * pyref))
    (k : Layout * Profile) (op : SimpleDensity) : Prop :=
  (exists object n seed, k.1 = PICMI_PseudoRandomLayout object n seed /\ ppc op = n)
  /\ profile op = profile_get_as_pypicongpu k.2
  /\ (forall r, (r, k) ∈ placements self -> is_Some (dict.get m r))
  /\ (forall t, t ∈ simple_density_species op <->
                exists r, (r, k) ∈ placements self /\ dict.get m r = Some t).

(** The operations for a list of groups, as the two loops of lines 224 to
    242 build them. *)
Fixpoint operations_of_groups (m : list (ref * pyref))
    (groups : list ((Layout * Profile) * list ref)) : result (list SimpleDensity) :=
  match groups with
  | [] => Ok []
  | g :: groups =>
    op ← simple_density_of m g.1.1 g.1.2 g.2;
    ops ← operations_of_groups m groups;
    mret (op :: ops)
  end.

(** ** Concrete values *)

Definition SI : constants.t :=
  {| constants.c := 299792458;
     constants.m_e := 9.1093837015e-31;
     constants.q_e := 1.602176634e-19 |}.

(** A C library for the examples: its [pow] squares by one rounded
    multiplication and reports a range error when the square of a finite
    number is infinite.  The examples ask it for the exponent 2 only, and
    for bases whose square is a double. *)
Definition example_libm : libm.t :=
  {| libm.pow x y := let r := (x * x)%float in (r, is_infinity r) |}.

Definition unit_cube : Cartesian3DGrid :=
  {| lower_bound := (0, 0, 0)%float;
     upper_bound := (1, 1, 1)%float;
     number_of_cells := (1, 1, 1) |}.

(** The unit cube with 1, 2 and 4 cells along its axes: the spacings are
    1.0, 0.5 and 0.25, their squares 1.0, 0.25 and 0.0625. *)
Definition uneven_grid : Cartesian3DGrid :=
  {| lower_bound := (0, 0, 0)%float;
     upper_bound := (1, 1, 1)%float;
     number_of_cells := (1, 2, 4) |}.

(** A simulation with a Yee solver on that grid and no species. *)
Definition uneven_simulation (delta_t cfl_ : option float) : Simulation :=
  {| heap := [];
     solver := Some {| method := "Yee"; grid := Cartesian3D uneven_grid; cfl := cfl_ |};
     time_step_size := delta_t;
     max_steps := None;
     max_time := None;
     species := [];
     layouts := [];
     picongpu_typical_ppc := None;
     picongpu_moving_window_move_point := None;
     picongpu_moving_window_stop_iteration := None;
     electron_species := None;
     logged := [] |}.

(** [S] for the unit cube: the speed of light times the square root of 3. *)
Definition unit_cube_factor : float :=
  Eval vm_compute in (299792458 * PrimFloat.sqrt 3)%float.

(** A simulation with a Yee solver on the unit cube and no species. *)
Definition yee_simulation (delta_t cfl_ : option float) : Simulation :=
  {| heap := [];
     solver := Some {| method := "Yee"; grid := Cartesian3D unit_cube; cfl := cfl_ |};
     time_step_size := delta_t;
     max_steps := None;
     max_time := None;
     species := [];
     layouts := [];
     picongpu_typical_ppc := None;
     picongpu_moving_window_move_point := None;
     picongpu_moving_window_stop_iteration := None;
     electron_species := None;
     logged := [] |}.

(** A simulation over the given species, each without layout. *)
Definition simulation_of (objects : list Species) (cache : option ref) : Simulation :=
  {| heap := objects;
     solver := None;
     time_step_size := None;
     max_steps := Some 1;
     max_time := None;
     species := seq 0 (length objects);
     layouts := replicate (length objects) None;
     picongpu_typical_ppc := None;
     picongpu_moving_window_move_point := None;
     picongpu_moving_window_stop_iteration := None;
     electron_species := cache;
     logged := [] |}.

Definition plain (n : string) (ty : option string) : Species :=
  {| name := n; particle_type := ty; mass := None; charge := None;
     initial_distribution := None; density_scale := None;
     picongpu_ionization_models := [];
     picongpu_ionization_electrons := None |}.

Definition ionizable (n : string) (donor : option ref) : Species :=
  {| name := n; particle_type := Some "N"; mass := None; charge := None;
     initial_distribution := None; density_scale := None;
     picongpu_ionization_models := ["ADK"];
     picongpu_ionization_electrons := donor |}.


Definition placed_species (n : string) (p : Profile) : Species :=
  {| name := n; particle_type := None; mass := None; charge := None;
     initial_distribution := Some p; density_scale := None;
     picongpu_ionization_models := [];
     picongpu_ionization_electrons := None |}.

(** A simulation whose species all have a layout and a profile. *)
Definition placed_simulation (objects : list Species) (layouts_ : list (option Layout))
    (ppc_ : option Z) : Simulation :=
  {| heap := objects;
     solver := Some {| method := "Yee"; grid := Cartesian3D unit_cube; cfl := None |};
     time_step_size := None;
     max_steps := Some 1;
     max_time := None;
     species := seq 0 (length objects);
     layouts := layouts_;
     picongpu_typical_ppc := ppc_;
     picongpu_moving_window_move_point := None;
     picongpu_moving_window_stop_iteration := None;
     electron_species := None;
     logged := [] |}.

(** Three placed species: two share layout and profile, one has its own. *)
Definition three_placed (ppc_ : option Z) : Simulation :=
  placed_simulation
    [placed_species "a" (UniformDistribution 1);
     placed_species "b" (UniformDistribution 1);
     placed_species "c" (UniformDistribution 2)]
    [Some (PICMI_PseudoRandomLayout 0 8 None);
     Some (PICMI_PseudoRandomLayout 0 8 None);
     Some (PICMI_PseudoRandomLayout 1 16 None)] ppc_.

(** ** The rest of the constructor and of the interface *)

Section Constructor.

Variable K : constants.t.
Variable M : libm.t.

(** Whether a path names an existing directory, [pathlib.Path(p).is_dir()]:
    the state of the file system. *)
Variable is_dir : string -> bool.


End Constructor.

(** Lines 509 to 513, on the attribute [picongpu_custom_user_input]. *)
Definition picongpu_add_custom_user_input {A : Type}
    (picongpu_custom_user_input : option (list A)) (custom_user_input : A)
    : option (list A) :=
  match picongpu_custom_user_input with
  | None => Some [custom_user_input]
  | Some l => Some (l ++ [custom_user_input])%list
  end.

(** ** Vocabulary of the further properties *)

(** The species and the layouts are aligned. *)
Definition aligned (self : Simulation) : Prop :=
  length (species self) = length (layouts self).

(** The species without layout and without profile, in their order. *)
Definition unplaced_item (self : Simulation) (item : ref * option Layout) : option ref :=
  match item.2, initial_distribution (deref self item.1) with
  | None, None => Some item.1
  | _, _ => None
  end.

Definition unplaced (self : Simulation) : list ref :=
  omap (unplaced_item self) (zip (species self) (layouts self)).

(** What the checks of the init manager ask of a species and its layout. *)
Definition layout_matches_profile (self : Simulation) (item : option Layout * ref) : Prop :=
  (is_Some item.1 <-> is_Some (initial_distribution (deref self item.2)))
  /\ (is_Some (density_scale (deref self item.2)) -> is_Some item.1).

(** Two simulations agree on everything but species, layouts, heap, the
    memoized electron species and the log. *)
Definition same_settings (self self' : Simulation) : Prop :=
  solver self' = solver self
  /\ time_step_size self' = time_step_size self
  /\ max_steps self' = max_steps self
  /\ max_time self' = max_time self
  /\ picongpu_typical_ppc self' = picongpu_typical_ppc self
  /\ picongpu_moving_window_move_point self' = picongpu_moving_window_move_point self
  /\ picongpu_moving_window_stop_iteration self'
     = picongpu_moving_window_stop_iteration self.

(** The exceptions of the arithmetic of the reconciliation. *)
Definition arithmetic_error (e : PyError) : Prop :=
  e = ZeroDivisionError \/ e = OverflowError \/ exists msg, e = ValueError msg.

(** A simulation with the given solver and time step and no species. *)
Definition solver_simulation (sv : option Solver) (delta_t : option float) : Simulation :=
  {| heap := [];
     solver := sv;
     time_step_size := delta_t;
     max_steps := None;
     max_time := None;
     species := [];
     layouts := [];
     picongpu_typical_ppc := None;
     picongpu_moving_window_move_point := None;
     picongpu_moving_window_stop_iteration := None;
     electron_species := None;
     logged := [] |}.

(** A grid that has no cell along its first axis. *)
Definition flat_grid : Cartesian3DGrid :=
  {| lower_bound := (0, 0, 0)%float;
     upper_bound := (1, 1, 1)%float;
     number_of_cells := (0, 1, 1) |}.

(** The simulation after the getter has created the electrons [nm]; [e]
    is their address. *)
Definition with_new_electrons (nm : string) (self : Simulation) : Simulation :=
  set_electron_species (length (heap self))
    (add_species (length (heap self)) None
       (set_heap (heap self ++ [new_electrons nm])
          (logging_info (creating_message nm) self))).

(** A species that has ionization models and no ionization electrons. *)
Definition lacks_electrons (self : Simulation) (r : ref) : Prop :=
  has_ionizers (deref self r) = true
  /\ picongpu_ionization_electrons (deref self r) = None.

(** The state in which the propagation pass raises. *)
Definition ambiguous (K : constants.t) (self : Simulation) : Prop :=
  (exists r, r ∈ species self /\ lacks_electrons self r)
  /\ electron_species self = None
  /\ (2 <= length (all_electrons K self))%nat.

(** The names of the ionization models of a translated species. *)
Definition ionization_model_names (sp : PySpecies) : option (list string) :=
  map model_name <$> ground_state_ionization sp.

(** The message of the [AttributeError] for an attribute of [None]. *)
Definition none_has_no_name : PyError :=
  AttributeError "'NoneType' object has no attribute 'name'".

(** The message of the check that a species and its layout fail. *)
Definition check_message (self : Simulation) (item : option Layout * ref) : string :=
  match item.1, initial_distribution (deref self item.2) with
  | None, None => "layout and initial distribution must be set to use density scale"
  | _, _ => "species need BOTH layout AND initial distribution set (or neither)"
  end.

(** The mapping from the species to their translations that the init
    manager builds in its loop of lines 373 to 377. *)
Definition species_mapping (self : Simulation) : list (ref * pyref) :=
  (translate_all self (species self) [] [] []).1.1.

(** The translations of the species of the list, one for every position. *)
Definition translations (self : Simulation) : list PySpecies :=
  map (fun r => species_get_as_pypicongpu (deref self r)) (species self).

(** The ionization models of a species, linked to the translated electrons. *)
Definition linked_models (sp : Species) (py_electrons : pyref) : list IonizationModel :=
  map (fun m => {| model_name := m; ionization_electron_species := Some py_electrons |})
      (picongpu_ionization_models sp).

(** A simulation whose only listed species names electrons that are not
    in the species list. *)
Definition unlisted_electrons : Simulation :=
  {| heap := [ionizable "N" (Some 1%nat); plain "e" (Some "electron")];
     solver := None; time_step_size := None; max_steps := Some 1; max_time := None;
     species := [0%nat]; layouts := [None];
     picongpu_typical_ppc := None;
     picongpu_moving_window_move_point := None;
     picongpu_moving_window_stop_iteration := None;
     electron_species := None; logged := [] |}.

(** A simulation with an ionizing species and its electrons, both listed. *)
Definition ionizing_simulation : Simulation :=
  simulation_of [ionizable "N" (Some 1%nat); plain "e" (Some "electron")] None.

(** * Properties *)

(** ** Dictionaries *)

Section DictFacts.
Context {Key V : Type} `{EqDecision Key}.
Implicit Types (d : list (Key * V)) (k : Key) (v : V).

Lemma dict_get_set_eq d k v : dict.get (dict.set d k v) k = Some v.
Proof.
  induction d as [|[k' v'] d IH]; simpl.
  - now rewrite decide_True.
  - destruct (decide (k = k')) as [->|Hne]; simpl.
    + now rewrite decide_True.
    + now rewrite decide_False.
Qed.

Lemma dict_get_set_ne d k k' v :
  k <> k' -> dict.get (dict.set d k v) k' = dict.get d k'.
Proof.
  intros Hne. induction d as [|[k0 v0] d IH]; simpl.
  - now rewrite decide_False by congruence.
  - destruct (decide (k = k0)) as [->|Hne0]; simpl.
    + now rewrite !decide_False by congruence.
    + destruct (decide (k' = k0)); [reflexivity | exact IH].
Qed.

Lemma dict_set_set d k v v' : dict.set (dict.set d k v) k v' = dict.set d k v'.
Proof.
  induction d as [|[k0 v0] d IH]; simpl.
  - now rewrite decide_True.
  - destruct (decide (k = k0)) as [->|Hne]; simpl.
    + now rewrite decide_True.
    + now rewrite decide_False, IH.
Qed.

Lemma dict_contains_false d k : dict.contains d k = false <-> dict.get d k = None.
Proof.
  unfold dict.contains. rewrite bool_decide_eq_false.
  destruct (dict.get d k) as [v|].
  - split; [intros H; destruct H; eauto | discriminate].
  - split; [done | intros _ [? ?]; discriminate].
Qed.

Lemma dict_get_elem_of d k v : dict.get d k = Some v -> (k, v) ∈ d.
Proof.
  induction d as [|[k0 v0] d IH]; simpl; [discriminate|].
  destruct (decide (k = k0)) as [->|Hne].
  - intros [= ->]. apply list_elem_of_here.
  - intros H. apply list_elem_of_further. auto.
Qed.

Lemma dict_get_None d k : dict.get d k = None <-> k ∉ d.*1.
Proof.
  induction d as [|[k0 v0] d IH]; simpl.
  - split; [intros _; apply not_elem_of_nil | done].
  - rewrite not_elem_of_cons. destruct (decide (k = k0)) as [->|Hne].
    + split; [discriminate | intros [? _]; congruence].
    + rewrite IH. tauto.
Qed.

Lemma dict_elem_of_get d k v : NoDup d.*1 -> (k, v) ∈ d -> dict.get d k = Some v.
Proof.
  induction d as [|[k0 v0] d IH]; simpl; intros Hnd Hin.
  - now apply not_elem_of_nil in Hin.
  - apply NoDup_cons in Hnd as [Hfresh Hnd].
    apply elem_of_cons in Hin as [[= -> ->] | Hin].
    + now rewrite decide_True.
    + rewrite decide_False; [auto|].
      intros ->. apply Hfresh. apply list_elem_of_fmap. now exists (k0, v).
Qed.

Lemma dict_elem_of_set d k v k' v' :
  (k', v') ∈ dict.set d k v -> (k' = k /\ v' = v) \/ (k', v') ∈ d.
Proof.
  induction d as [|[k0 v0] d IH]; simpl.
  - intros [= -> ->]%list_elem_of_singleton. auto.
  - destruct (decide (k = k0)) as [->|Hne].
    + intros [[= -> ->] | Hin]%elem_of_cons; [auto|].
      right. now apply list_elem_of_further.
    + intros [[= -> ->] | Hin]%elem_of_cons.
      * right. apply list_elem_of_here.
      * destruct (IH Hin); [auto|]. right. now apply list_elem_of_further.
Qed.

Lemma dict_keys_set d k v :
  (dict.set d k v).*1 =
    match dict.get d k with Some _ => d.*1 | None => (d.*1 ++ [k])%list end.
Proof.
  induction d as [|[k0 v0] d IH]; [reflexivity|].
  simpl dict.set. simpl dict.get.
  destruct (decide (k = k0)) as [->|Hne]; [reflexivity|].
  rewrite !fmap_cons, IH. now destruct (dict.get d k).
Qed.

Lemma dict_NoDup_set d k v : NoDup d.*1 -> NoDup (dict.set d k v).*1.
Proof.
  intros Hnd. rewrite dict_keys_set.
  destruct (dict.get d k) eqn:Hget; [exact Hnd|].
  apply NoDup_app. split; [exact Hnd|]. split.
  - intros x Hx ->%list_elem_of_singleton. now apply dict_get_None in Hget.
  - apply NoDup_singleton.
Qed.

End DictFacts.

(** ** Time step and CFL number *)

Lemma bind_Ok {A B} (f : A -> result B) (a : A) : (Ok a ≫= f) = f a.
Proof. reflexivity. Qed.

Lemma bind_Raise {A B} (f : A -> result B) (e : PyError) : (Raise e ≫= f) = Raise e.
Proof. reflexivity. Qed.

Lemma bind_Ok_inv {A B} (f : A -> result B) (r : result A) (b : B) :
  (r ≫= f) = Ok b -> exists a, r = Ok a /\ f a = Ok b.
Proof. destruct r as [a|e]; [eauto | discriminate]. Qed.

Lemma truediv_Ok (a b : float) :
  (b =? 0)%float = false -> pyfloat.truediv a b = Ok (a / b)%float.
Proof. intros Hb. unfold pyfloat.truediv. now rewrite Hb. Qed.

(** When the spacings of the grid are computed, the method reaches its case
    distinction with them. *)
Lemma yee_after_spacings (K : constants.t) (M : libm.t) (self : Simulation) (sv : Solver)
    (g : Cartesian3DGrid) (dx dy dz : float) :
  solver self = Some sv -> method sv = "Yee" -> grid sv = Cartesian3D g ->
  spacings g = Ok (dx, dy, dz) ->
  yee_compute_cfl_or_delta_t K M self =
    match time_step_size self, cfl sv with
    | Some delta_t, Some cfl_ =>
      s ← c_sqrt_inverse_squares K M dx dy dz;
      delta_t_from_cfl ← pyfloat.truediv cfl_ s;
      if negb (delta_t_from_cfl =? delta_t)%float
      then Raise (ValueError (DeltaTMismatch delta_t delta_t_from_cfl))
      else Ok self
    | Some delta_t, None =>
      s ← c_sqrt_inverse_squares K M dx dy dz;
      Ok (set_solver_cfl (delta_t * s)%float self)
    | None, Some cfl_ =>
      s ← c_sqrt_inverse_squares K M dx dy dz;
      delta_t ← pyfloat.truediv cfl_ s;
      Ok (set_time_step_size delta_t self)
    | None, None => Ok self
    end.
Proof.
  intros Hsolver Hmethod Hgrid Hsp.
  unfold yee_compute_cfl_or_delta_t. rewrite Hsolver, Hmethod, Hgrid.
  unfold spacings in Hsp.
  destruct (lower_bound g) as [[lx ly] lz], (upper_bound g) as [[ux uy] uz],
    (number_of_cells g) as [[nx ny] nz].
  apply bind_Ok_inv in Hsp as (dx' & Hx & Hsp).
  apply bind_Ok_inv in Hsp as (dy' & Hy & Hsp).
  apply bind_Ok_inv in Hsp as (dz' & Hz & Hsp).
  injection Hsp as -> -> ->.
  rewrite bool_decide_true by reflexivity. simpl.
  rewrite Hx, Hy, Hz. reflexivity.
Qed.

Lemma courant_factor_Ok (K : constants.t) (M : libm.t) (g : Cartesian3DGrid) (S : float) :
  courant_factor K M g = Ok S ->
  exists dx dy dz, spacings g = Ok (dx, dy, dz)
                   /\ c_sqrt_inverse_squares K M dx dy dz = Ok S.
Proof.
  unfold courant_factor. intros ([[dx dy] dz] & Hsp & HS)%bind_Ok_inv. eauto.
Qed.

(** C1 (as amended): with both values set, the method derives the time step
    from the CFL number, [cfl / S], and compares it with the given time step
    by exact equality of floats; when they differ it raises a [ValueError]
    that carries the given time step and the derived one, and when they are
    equal it changes nothing. *)
Theorem yee_checks_delta_t_from_cfl (K : constants.t) (M : libm.t) (self : Simulation)
    (sv : Solver) (g : Cartesian3DGrid) (S delta_t cfl_ : float) :
  solver self = Some sv -> method sv = "Yee" -> grid sv = Cartesian3D g ->
  courant_factor K M g = Ok S -> (S =? 0)%float = false ->
  time_step_size self = Some delta_t -> cfl sv = Some cfl_ ->
  yee_compute_cfl_or_delta_t K M self =
    if (cfl_ / S =? delta_t)%float then Ok self
    else Raise (ValueError (DeltaTMismatch delta_t (cfl_ / S)%float)).
Proof.
  intros Hsolver Hmethod Hgrid HS HS0 Hdt Hcfl.
  apply courant_factor_Ok in HS as (dx & dy & dz & Hsp & Hc).
  rewrite (yee_after_spacings K M self sv g dx dy dz Hsolver Hmethod Hgrid Hsp).
  rewrite Hdt, Hcfl, Hc, bind_Ok, (truediv_Ok _ _ HS0), bind_Ok.
  now destruct (cfl_ / S =? delta_t)%float.
Qed.

Lemma yee_checks_delta_t_from_cfl_witness :
  yee_compute_cfl_or_delta_t SI example_libm
    (yee_simulation (Some 1%float) (Some unit_cube_factor)) =
  Ok (yee_simulation (Some 1%float) (Some unit_cube_factor)).
Proof.
  exact (yee_checks_delta_t_from_cfl SI example_libm
           (yee_simulation (Some 1%float) (Some unit_cube_factor))
           _ unit_cube unit_cube_factor 1%float unit_cube_factor
           eq_refl eq_refl eq_refl eq_refl eq_refl eq_refl eq_refl).
Defined.

(** C1 (as stated) fails: on the unit cube, with [S] the speed of light
    times the square root of 3, the time step 51 and the CFL number
    26482044218.07989 satisfy [cfl == time_step_size * S] exactly, and the
    method raises: [cfl / S] is 50.99999999999999 in binary64, not 51.  The
    spacings of the unit cube are 1.0, whose square Python gives without
    the C library, so this holds with every C library. *)
Lemma yee_rejects_exact_product :
  let S := unit_cube_factor in
  let delta_t := 51%float in
  let cfl_ := 26482044218.07989%float in
  (cfl_ =? delta_t * S)%float = true
  /\ (cfl_ / S =? delta_t)%float = false
  /\ (cfl_ / S =? 50.99999999999999)%float = true
  /\ (S =? 299792458 * PrimFloat.sqrt (1 / 1 + 1 / 1 + 1 / 1))%float = true
  /\ forall M : libm.t,
       courant_factor SI M unit_cube = Ok S
       /\ yee_compute_cfl_or_delta_t SI M (yee_simulation (Some delta_t) (Some cfl_)) =
            Raise (ValueError (DeltaTMismatch delta_t (cfl_ / S)%float)).
Proof.
  repeat split; try (vm_compute; reflexivity).
Qed.

Lemma pow2_is_square (M : libm.t) (d x2 : float) :
  is_square_of M d x2 -> pyfloat.pow2 M d = Ok x2.
Proof.
  intros (Hnan & Hinf & Hzero & [[Hone ->] | (Hone & Hpow & Hfin)]);
    unfold pyfloat.pow2; rewrite Hnan, Hinf, Hzero, Hone; [reflexivity|].
  now rewrite Hpow, Hfin.
Qed.

(** The factor [S] for spacings whose squares are computed. *)
Lemma c_sqrt_inverse_squares_Ok (K : constants.t) (M : libm.t)
    (dx dy dz x2 y2 z2 : float) :
  is_square_of M dx x2 -> is_square_of M dy y2 -> is_square_of M dz z2 ->
  (x2 =? 0)%float = false -> (y2 =? 0)%float = false -> (z2 =? 0)%float = false ->
  (1 / x2 + 1 / y2 + 1 / z2 <? 0)%float = false ->
  c_sqrt_inverse_squares K M dx dy dz
  = Ok (constants.c K * PrimFloat.sqrt (1 / x2 + 1 / y2 + 1 / z2))%float.
Proof.
  intros Hx Hy Hz Hx0 Hy0 Hz0 Hsum. unfold c_sqrt_inverse_squares.
  rewrite (pow2_is_square M dx x2 Hx), bind_Ok, (truediv_Ok _ _ Hx0), bind_Ok.
  rewrite (pow2_is_square M dy y2 Hy), bind_Ok, (truediv_Ok _ _ Hy0), bind_Ok.
  rewrite (pow2_is_square M dz z2 Hz), bind_Ok, (truediv_Ok _ _ Hz0), bind_Ok.
  unfold math.sqrt. now rewrite Hsum.
Qed.

(** C2 (as amended): on a grid whose cell counts convert to floats other
    than zero, the spacings are [(upper - lower) / count].  With neither
    value given nothing changes and nothing is raised.  When the squares of
    the spacings are computed and are not zero, and
    [S = c * sqrt(1/dx**2 + 1/dy**2 + 1/dz**2)] with them, a time step given
    alone sets the CFL number to [time_step_size * S], and a CFL number
    given alone sets the time step to [cfl / S], for [S] other than
    zero. *)
Theorem yee_derives_the_missing_value (K : constants.t) (M : libm.t) (self : Simulation)
    (sv : Solver) (g : Cartesian3DGrid)
    (lx ly lz ux uy uz : float) (nx ny nz : Z) (fx fy fz : float) :
  solver self = Some sv -> method sv = "Yee" -> grid sv = Cartesian3D g ->
  lower_bound g = (lx, ly, lz) -> upper_bound g = (ux, uy, uz) ->
  number_of_cells g = (nx, ny, nz) ->
  pyfloat.of_int nx = Ok fx -> pyfloat.of_int ny = Ok fy -> pyfloat.of_int nz = Ok fz ->
  (fx =? 0)%float = false -> (fy =? 0)%float = false -> (fz =? 0)%float = false ->
  let dx := ((ux - lx) / fx)%float in
  let dy := ((uy - ly) / fy)%float in
  let dz := ((uz - lz) / fz)%float in
  (forall delta_t x2 y2 z2,
     time_step_size self = Some delta_t -> cfl sv = None ->
     is_square_of M dx x2 -> is_square_of M dy y2 -> is_square_of M dz z2 ->
     (x2 =? 0)%float = false -> (y2 =? 0)%float = false -> (z2 =? 0)%float = false ->
     (1 / x2 + 1 / y2 + 1 / z2 <? 0)%float = false ->
     let S := (constants.c K * PrimFloat.sqrt (1 / x2 + 1 / y2 + 1 / z2))%float in
     yee_compute_cfl_or_delta_t K M self = Ok (set_solver_cfl (delta_t * S)%float self))
  /\ (forall cfl_ x2 y2 z2,
       time_step_size self = None -> cfl sv = Some cfl_ ->
       is_square_of M dx x2 -> is_square_of M dy y2 -> is_square_of M dz z2 ->
       (x2 =? 0)%float = false -> (y2 =? 0)%float = false -> (z2 =? 0)%float = false ->
       (1 / x2 + 1 / y2 + 1 / z2 <? 0)%float = false ->
       let S := (constants.c K * PrimFloat.sqrt (1 / x2 + 1 / y2 + 1 / z2))%float in
       (S =? 0)%float = false ->
       yee_compute_cfl_or_delta_t K M self = Ok (set_time_step_size (cfl_ / S)%float self))
  /\ (time_step_size self = None -> cfl sv = None ->
       yee_compute_cfl_or_delta_t K M self = Ok self).
Proof.
  intros Hsolver Hmethod Hgrid Hlower Hupper Hcells Hfx Hfy Hfz Hx0 Hy0 Hz0 dx dy dz.
  assert (Hsp : spacings g = Ok (dx, dy, dz)).
  { unfold spacings, cell_size. rewrite Hlower, Hupper, Hcells, Hfx, Hfy, Hfz.
    rewrite !bind_Ok, (truediv_Ok _ _ Hx0), bind_Ok, (truediv_Ok _ _ Hy0), bind_Ok.
    now rewrite (truediv_Ok _ _ Hz0). }
  rewrite (yee_after_spacings K M self sv g dx dy dz Hsolver Hmethod Hgrid Hsp).
  split; [|split].
  - intros delta_t x2 y2 z2 -> -> Hx Hy Hz Hx2 Hy2 Hz2 Hsum S.
    now rewrite (c_sqrt_inverse_squares_Ok K M dx dy dz x2 y2 z2).
  - intros cfl_ x2 y2 z2 -> -> Hx Hy Hz Hx2 Hy2 Hz2 Hsum S HS.
    rewrite (c_sqrt_inverse_squares_Ok K M dx dy dz x2 y2 z2) by assumption.
    now rewrite bind_Ok, (truediv_Ok _ _ HS).
  - now intros -> ->.
Qed.

Lemma yee_derives_the_missing_value_witness :
  let S := (299792458 * PrimFloat.sqrt (1 / 1 + 1 / 0.25 + 1 / 0.0625))%float in
  yee_compute_cfl_or_delta_t SI example_libm (uneven_simulation (Some 2%float) None) =
    Ok (uneven_simulation (Some 2%float) (Some (2 * S)%float))
  /\ yee_compute_cfl_or_delta_t SI example_libm (uneven_simulation None (Some 3%float)) =
    Ok (uneven_simulation (Some (3 / S)%float) (Some 3%float))
  /\ yee_compute_cfl_or_delta_t SI example_libm (uneven_simulation None None) =
    Ok (uneven_simulation None None).
Proof.
  assert (H1 : is_square_of example_libm ((1 - 0) / 1) 1).
  { repeat split. now left. }
  assert (H2 : is_square_of example_libm ((1 - 0) / 2) 0.25).
  { repeat split. right. repeat split. }
  assert (H4 : is_square_of example_libm ((1 - 0) / 4) 0.0625).
  { repeat split. right. repeat split. }
  split; [|split].
  - exact (proj1 (yee_derives_the_missing_value SI example_libm
                    (uneven_simulation (Some 2%float) None) _ uneven_grid
                    0 0 0 1 1 1 1 2 4 1 2 4
                    eq_refl eq_refl eq_refl eq_refl eq_refl eq_refl eq_refl eq_refl eq_refl
                    eq_refl eq_refl eq_refl)
             2%float 1%float 0.25%float 0.0625%float eq_refl eq_refl H1 H2 H4
             eq_refl eq_refl eq_refl eq_refl).
  - exact (proj1 (proj2 (yee_derives_the_missing_value SI example_libm
                           (uneven_simulation None (Some 3%float)) _ uneven_grid
                           0 0 0 1 1 1 1 2 4 1 2 4
                           eq_refl eq_refl eq_refl eq_refl eq_refl eq_refl eq_refl eq_refl
                           eq_refl eq_refl eq_refl eq_refl))
             3%float 1%float 0.25%float 0.0625%float eq_refl eq_refl H1 H2 H4
             eq_refl eq_refl eq_refl eq_refl eq_refl).
  - exact (proj2 (proj2 (yee_derives_the_missing_value SI example_libm
                           (uneven_simulation None None) _ uneven_grid
                           0 0 0 1 1 1 1 2 4 1 2 4
                           eq_refl eq_refl eq_refl eq_refl eq_refl eq_refl eq_refl eq_refl
                           eq_refl eq_refl eq_refl eq_refl))
             eq_refl eq_refl).
Defined.

(** C2 (as stated) fails: the spacings are computed before the method looks
    at the two values.  On a grid without cells along its first axis, with
    neither time step nor CFL number given, the method does not leave both
    unset without error: it raises a [ZeroDivisionError], with every C
    library. *)
Example yee_without_cells :
  let self :=
    {| heap := [];
       solver := Some {| method := "Yee";
                         grid := Cartesian3D
                                   {| lower_bound := (0, 0, 0)%float;
                                      upper_bound := (1, 1, 1)%float;
                                      number_of_cells := (0, 1, 1) |};
                         cfl := None |};
       time_step_size := None; max_steps := None; max_time := None;
       species := []; layouts := []; picongpu_typical_ppc := None;
       picongpu_moving_window_move_point := None;
       picongpu_moving_window_stop_iteration := None;
       electron_species := None; logged := [] |} in
  time_step_size self = None
  /\ (cfl <$> solver self) = Some None
  /\ forall M : libm.t,
       yee_compute_cfl_or_delta_t SI M self = Raise ZeroDivisionError.
Proof. repeat split. Qed.

(** ** The electron species *)

Lemma is_electron_spec (K : constants.t) (sp : Species) :
  is_electron K sp = true <-> electron_like K sp.
Proof.
  unfold is_electron, electron_like. case_bool_decide as Hty.
  - split; [intros _; left; congruence | done].
  - split.
    + intros H. right. destruct (mass sp) as [m|]; [|done].
      apply andb_true_iff in H as [Hm H].
      destruct (charge sp) as [q|]; [|done]. eauto 6.
    + intros [Hp | (m & q & -> & -> & Hm & Hq)]; [congruence|].
      now rewrite Hm, Hq.
Qed.

Lemma elem_of_all_electrons (K : constants.t) (self : Simulation) (r : ref) :
  r ∈ all_electrons K self <-> r ∈ species self /\ electron_like K (deref self r).
Proof.
  unfold all_electrons. rewrite list_elem_of_In, filter_In, <- list_elem_of_In.
  now rewrite is_electron_spec.
Qed.

Lemma get_electron_species_cached (K : constants.t) (self : Simulation) (e : ref) :
  electron_species self = Some e -> get_electron_species K self = Return e self.
Proof. intros H. unfold get_electron_species. now rewrite H. Qed.

(** C3: in a simulation without a memoized electron species, two or more
    electron-like species make the getter raise; the message lists the names
    of all of them, in the order of the species list, whatever other species
    there are, and the simulation is left as it was: nothing is created. *)
Theorem ambiguous_electrons_raise (K : constants.t) (self : Simulation) :
  electron_species self = None ->
  (2 <= length (all_electrons K self))%nat ->
  get_electron_species K self =
    Raised (ValueError (Text
      ("choice of electron species for ionization is ambiguous, please " ++
       "set picongpu_ionization_electrons explicitly for ionizable " ++
       "species; found electron species: " ++
       String.concat ", " (map (fun r => name (deref self r)) (all_electrons K self)))))
      self
  /\ forall r, r ∈ all_electrons K self <->
               r ∈ species self /\ electron_like K (deref self r).
Proof.
  intros Hcache Hlen. split; [|apply elem_of_all_electrons].
  unfold get_electron_species. rewrite Hcache.
  destruct (all_electrons K self) as [|a [|b l]]; simpl in Hlen; try lia.
  reflexivity.
Qed.

Lemma ambiguous_electrons_raise_witness :
  get_electron_species SI
    (simulation_of [plain "a" (Some "electron"); plain "p" (Some "H");
                    plain "b" (Some "electron")] None) =
  Raised (ValueError (Text
    ("choice of electron species for ionization is ambiguous, please set " ++
     "picongpu_ionization_electrons explicitly for ionizable species; " ++
     "found electron species: a, b")))
    (simulation_of [plain "a" (Some "electron"); plain "p" (Some "H");
                    plain "b" (Some "electron")] None).
Proof.
  refine (proj1 (ambiguous_electrons_raise SI
           (simulation_of [plain "a" (Some "electron"); plain "p" (Some "H");
                           plain "b" (Some "electron")] None) eq_refl _)).
  vm_compute. lia.
Defined.

Lemma length_append (s1 s2 : string) :
  String.length (s1 ++ s2) = (String.length s1 + String.length s2)%nat.
Proof. induction s1 as [|a s1 IH]; simpl; [reflexivity | now rewrite IH]. Qed.

Lemma length_escaped (k : nat) : String.length (escaped k) = S k.
Proof.
  induction k as [|k IH]; simpl; [reflexivity|].
  rewrite length_append, IH. simpl. lia.
Qed.

#[local] Instance escaped_inj : Inj (=) (=) escaped.
Proof.
  intros i j H. apply (f_equal String.length) in H.
  rewrite !length_escaped in H. lia.
Qed.

(** The loop stops at the first escaped name that is free, when its bound
    reaches that far. *)
Lemma escape_name_first_free (names : list string) (k : nat) :
  (forall i, (i < k)%nat -> escaped i ∈ names) -> escaped k ∉ names ->
  forall fuel j, (j <= k)%nat -> (k <= j + fuel)%nat ->
    escape_name fuel names (escaped j) = Some (escaped k).
Proof.
  intros Hbelow Hfree. induction fuel as [|fuel IH]; intros j Hjk Hk.
  - assert (j = k) as -> by lia. simpl. now rewrite bool_decide_false.
  - simpl. case_bool_decide as Hin.
    + assert (j <> k) by (intros ->; contradiction).
      change (escaped j ++ "_") with (escaped (S j)). apply IH; lia.
    + destruct (decide (j = k)) as [->|]; [reflexivity|].
      exfalso. apply Hin, Hbelow. lia.
Qed.

(** Among the first [length names + 1] escaped names one is free. *)
Lemma first_free_escaped (names : list string) :
  exists k, (k <= length names)%nat /\ (escaped k ∉ names)
            /\ forall i, (i < k)%nat -> escaped i ∈ names.
Proof.
  assert (Hsearch : forall m,
             (forall i, (i < m)%nat -> escaped i ∈ names)
             \/ exists k, (k < m)%nat /\ (escaped k ∉ names)
                          /\ forall i, (i < k)%nat -> escaped i ∈ names).
  { induction m as [|m [IH | (k & Hk & Hfree & Hbelow)]].
    - left. intros i Hi. lia.
    - destruct (decide (escaped m ∈ names)) as [Hin | Hout].
      + left. intros i Hi. destruct (decide (i = m)) as [->|]; [done|]. apply IH. lia.
      + right. exists m. auto.
    - right. exists k. split; [lia | auto]. }
  destruct (Hsearch (S (length names))) as [Hall | (k & Hk & Hfree & Hbelow)].
  - exfalso.
    assert (Hsub : escaped <$> seq 0 (S (length names)) ⊆+ names).
    { apply NoDup_submseteq.
      - apply (NoDup_fmap_2 _), NoDup_seq.
      - intros x (i & -> & Hi)%list_elem_of_fmap.
        apply elem_of_seq in Hi. apply Hall. lia. }
    apply submseteq_length in Hsub. rewrite length_fmap, length_seq in Hsub. lia.
  - exists k. split; [lia | auto].
Qed.

(** C4: in a simulation without a memoized electron species and without an
    electron-like species, the getter creates one species, of type
    ["electron"], appends it to the species with layout [None], logs the
    notice and returns it.  Its name is ["e"] followed by the least number
    of ["_"] that gives a name no species has; the same name is found for
    every list of names with the same members. *)
Theorem no_electrons_creates_one (K : constants.t) (self : Simulation) :
  electron_species self = None ->
  all_electrons K self = [] ->
  let names := map (fun r => name (deref self r)) (species self) in
  let electrons := length (heap self) in
  exists k self',
    get_electron_species K self = Return electrons self'
    /\ (forall i, (i < k)%nat -> escaped i ∈ names)
    /\ (escaped k ∉ names)
    /\ (forall names' : list string,
          (forall x, x ∈ names <-> x ∈ names') ->
          escape_name (length names') names' "e" = Some (escaped k))
    /\ heap self' = (heap self ++ [new_electrons (escaped k)])%list
    /\ deref self' electrons = new_electrons (escaped k)
    /\ species self' = (species self ++ [electrons])%list
    /\ layouts self' = (layouts self ++ [None])%list
    /\ logged self' = (logged self ++ [creating_message (escaped k)])%list
    /\ electron_species self' = Some electrons
    /\ (valid_species self -> electrons ∉ species self).
Proof.
  intros Hcache Hnone names electrons.
  destruct (first_free_escaped names) as (k & Hk & Hfree & Hbelow).
  assert (Hname : escape_name (length names) names "e" = Some (escaped k)).
  { apply (escape_name_first_free names k Hbelow Hfree (length names) 0); lia. }
  eexists k, _. split.
  { unfold get_electron_species. rewrite Hcache, Hnone.
    fold names. rewrite Hname. reflexivity. }
  simpl. repeat split; try done.
  - intros names' Hsame.
    destruct (first_free_escaped names') as (k' & Hk' & Hfree' & Hbelow').
    assert (k' = k) as ->.
    { destruct (Nat.lt_trichotomy k' k) as [Hlt | [-> | Hlt]]; [| done |].
      - exfalso. apply Hfree', Hsame, Hbelow, Hlt.
      - exfalso. apply Hfree, Hsame, Hbelow', Hlt. }
    apply (escape_name_first_free names' k Hbelow' Hfree' (length names') 0); lia.
  - unfold deref. simpl. apply list_lookup_total_middle. reflexivity.
  - intros Hvalid Hin. unfold valid_species in Hvalid.
    rewrite Forall_forall in Hvalid. apply Hvalid in Hin. unfold electrons in Hin. lia.
Qed.

Lemma no_electrons_creates_one_witness :
  exists self',
    get_electron_species SI
      (simulation_of [plain "e" None; plain "e_" (Some "H"); ionizable "N" None] None)
    = Return 3%nat self'
    /\ species self' = [0; 1; 2; 3]%nat
    /\ layouts self' = [None; None; None; None]
    /\ electron_species self' = Some 3%nat.
Proof.
  destruct (no_electrons_creates_one SI
              (simulation_of [plain "e" None; plain "e_" (Some "H"); ionizable "N" None] None)
              eq_refl eq_refl)
    as (k & self' & Hget & _ & _ & _ & _ & _ & Hsp & Hlay & _ & Hcache & _).
  exists self'. auto.
Defined.

Example escape_name_e_taken_twice :
  escape_name 3 ["e"; "e_"; "N"] "e" = Some "e__".
Proof. reflexivity. Qed.

(** ** The propagation pass *)

Lemma species_assign_electrons (e : ref) (self : Simulation) (r : ref) :
  species (assign_electrons e self r) = species self.
Proof. unfold assign_electrons. now destruct (needs_electrons _). Qed.

Lemma electron_species_assign_electrons (e : ref) (self : Simulation) (r : ref) :
  electron_species (assign_electrons e self r) = electron_species self.
Proof. unfold assign_electrons. now destruct (needs_electrons _). Qed.

Lemma length_heap_assign_electrons (e : ref) (self : Simulation) (r : ref) :
  length (heap (assign_electrons e self r)) = length (heap self).
Proof.
  unfold assign_electrons. destruct (needs_electrons _); [|reflexivity].
  simpl. apply length_insert.
Qed.

(** One round of the loop, for a species that is there. *)
Lemma resolve_electrons_from_step (K : constants.t) (fuel i : nat)
    (self : Simulation) (r : ref) :
  species self !! i = Some r ->
  resolve_electrons_from K (S fuel) i self =
    if needs_electrons (deref self r)
    then match get_electron_species K self with
         | Return e self1 =>
           resolve_electrons_from K fuel (S i) (set_ionization_electrons r e self1)
         | Raised err self1 => Raised err self1
         | OutOfFuel => OutOfFuel
         end
    else resolve_electrons_from K fuel (S i) self.
Proof.
  intros Hr. simpl. rewrite Hr. unfold needs_electrons.
  destruct (has_ionizers (deref self r)); simpl; [|reflexivity].
  destruct (picongpu_ionization_electrons (deref self r)); reflexivity.
Qed.

Lemma resolve_electrons_from_end (K : constants.t) (fuel i : nat) (self : Simulation) :
  (length (species self) <= i)%nat ->
  resolve_electrons_from K (S fuel) i self = Return tt self.
Proof. intros Hi. simpl. now rewrite lookup_ge_None_2. Qed.

(** Species that need nothing are passed over. *)
Lemma resolve_electrons_from_skip (K : constants.t) (rest : list ref) :
  forall (fuel : nat) (pre : list ref) (self : Simulation),
    species self = (pre ++ rest)%list ->
    Forall (fun r => needs_electrons (deref self r) = false) rest ->
    (length rest < fuel)%nat ->
    resolve_electrons_from K fuel (length pre) self = Return tt self.
Proof.
  induction rest as [|r rest IH]; intros fuel pre self Hsp Hall Hfuel;
    (destruct fuel as [|fuel]; [simpl in Hfuel; lia|]).
  - apply resolve_electrons_from_end. rewrite Hsp, length_app. simpl. lia.
  - rewrite (resolve_electrons_from_step K fuel _ self r)
      by (rewrite Hsp; now apply list_lookup_middle).
    inversion Hall as [|? ? Hr Hrest]; subst. rewrite Hr.
    replace (S (length pre)) with (length (pre ++ [r])) by (rewrite length_app; simpl; lia).
    apply IH; [now rewrite <- app_assoc | done | simpl in Hfuel; lia].
Qed.

(** Once the electron species is memoized, the loop assigns it to the
    species that need it, one after the other. *)
Lemma resolve_electrons_from_cached (K : constants.t) (e : ref) (rest : list ref) :
  forall (fuel : nat) (pre : list ref) (self : Simulation),
    species self = (pre ++ rest)%list ->
    electron_species self = Some e ->
    (length rest < fuel)%nat ->
    resolve_electrons_from K fuel (length pre) self =
      Return tt (foldl (assign_electrons e) self rest).
Proof.
  induction rest as [|r rest IH]; intros fuel pre self Hsp Hcache Hfuel;
    (destruct fuel as [|fuel]; [simpl in Hfuel; lia|]).
  - simpl foldl. apply resolve_electrons_from_end. rewrite Hsp, length_app. simpl. lia.
  - rewrite (resolve_electrons_from_step K fuel _ self r)
      by (rewrite Hsp; now apply list_lookup_middle).
    rewrite (get_electron_species_cached K self e Hcache).
    replace (S (length pre)) with (length (pre ++ [r])) by (rewrite length_app; simpl; lia).
    simpl foldl. unfold assign_electrons at 2.
    destruct (needs_electrons (deref self r));
      (apply IH; [now rewrite <- app_assoc | done | simpl in Hfuel; lia]).
Qed.

(** C10: when no species of the simulation has ionization models without
    ionization electrons, the propagation pass returns and leaves the whole
    simulation as it was, memoized electron species and log included: the
    getter is not called, whatever the number of electron-like species; the
    translation of the simulation then returns or raises with the same
    simulation, its species and layouts unchanged. *)
Theorem resolve_electrons_lazy (K : constants.t) (self : Simulation) :
  (forall r, r ∈ species self -> has_ionizers (deref self r) = true ->
             picongpu_ionization_electrons (deref self r) <> None) ->
  resolve_electrons K self = Return tt self
  /\ forall (PySolver PyGrid PyLaser : Type)
       (solver_get_as_pypicongpu : Solver -> result PySolver)
       (grid_and_laser_get_as_pypicongpu : Simulation -> result (PyGrid * option PyLaser))
       (get_independent_operations : Species -> pyref -> result (list Operation))
       (typical_ppc_without_counts : result Q),
      match get_as_pypicongpu K PySolver PyGrid PyLaser solver_get_as_pypicongpu
              grid_and_laser_get_as_pypicongpu get_independent_operations
              typical_ppc_without_counts self with
      | Return _ self' => self' = self
      | Raised _ self' => self' = self
      | OutOfFuel => False
      end.
Proof.
  intros Hset.
  assert (Hres : resolve_electrons K self = Return tt self).
  { unfold resolve_electrons.
    apply (resolve_electrons_from_skip K (species self) _ [] self); [done | | lia].
    apply Forall_forall. intros r Hr. unfold needs_electrons.
    destruct (has_ionizers (deref self r)) eqn:Hion; [|reflexivity].
    specialize (Hset r Hr Hion). simpl. now apply bool_decide_false. }
  split; [exact Hres|]. intros.
  unfold get_as_pypicongpu. rewrite Hres.
  destruct (_ ≫= _) as [[[sv steps] [g l]]|err]; [|reflexivity].
  destruct (get_init_manager _ self) as [im pyheap|err pyheap|] eqn:Him.
  - destruct (get_typical_ppc _ self im); reflexivity.
  - reflexivity.
  - unfold get_init_manager in Him.
    destruct (_ ≫= _); [|discriminate].
    destruct (translate_all _ _ _ _ _) as [[m allsp] h].
    assert (Hfill : forall items h0,
               fill_ionization_electrons_items self m items h0 <> OutOfFuel).
    { induction items as [|[p t] items IH]; intros h0; simpl; [discriminate|].
      destruct (ground_state_ionization _); [|apply IH].
      destruct (picongpu_ionization_electrons _); [|discriminate].
      destruct (dict.get m _); [apply IH | discriminate]. }
    specialize (Hfill m h). unfold fill_ionization_electrons in Him.
    destruct (fill_ionization_electrons_items self m m h); try discriminate.
    + destruct (_ ≫= _); discriminate.
    + contradiction.
Qed.

Lemma resolve_electrons_lazy_witness :
  resolve_electrons SI
    (simulation_of [plain "a" (Some "electron"); plain "b" (Some "electron");
                    ionizable "N" (Some 0%nat); plain "p" None] None)
  = Return tt
      (simulation_of [plain "a" (Some "electron"); plain "b" (Some "electron");
                      ionizable "N" (Some 0%nat); plain "p" None] None).
Proof.
  refine (proj1 (resolve_electrons_lazy SI
           (simulation_of [plain "a" (Some "electron"); plain "b" (Some "electron");
                           ionizable "N" (Some 0%nat); plain "p" None] None) _)).
  intros r _. destruct r as [|[|[|[|r]]]]; vm_compute; discriminate.
Defined.

Lemma needs_electrons_assigned (e : ref) (sp : Species) :
  needs_electrons (with_ionization_electrons e sp) = false.
Proof. unfold needs_electrons. simpl. apply andb_false_r. Qed.

(** An address outside the heap names no species that needs electrons. *)
Lemma needs_electrons_in_heap (self : Simulation) (r : ref) :
  needs_electrons (deref self r) = true -> (r < length (heap self))%nat.
Proof.
  intros H. destruct (decide (r < length (heap self))%nat) as [|Hge]; [done|].
  unfold deref in H. rewrite list_lookup_total_alt, lookup_ge_None_2 in H by lia.
  discriminate.
Qed.

Lemma deref_assign_electrons (e : ref) (self : Simulation) (a x : ref) :
  deref (assign_electrons e self a) x =
    if bool_decide (x = a) && needs_electrons (deref self a)
    then with_ionization_electrons e (deref self a)
    else deref self x.
Proof.
  unfold assign_electrons.
  destruct (needs_electrons (deref self a)) eqn:Hneed.
  - apply needs_electrons_in_heap in Hneed. unfold deref. simpl.
    case_bool_decide as Hx; simpl.
    + subst x. now apply list_lookup_total_insert_eq.
    + apply list_lookup_total_insert_ne. congruence.
  - now rewrite andb_false_r.
Qed.

Lemma deref_foldl_assign_electrons (e : ref) (l : list ref) :
  forall (self : Simulation) (x : ref),
    deref (foldl (assign_electrons e) self l) x =
      if bool_decide (x ∈ l) && needs_electrons (deref self x)
      then with_ionization_electrons e (deref self x)
      else deref self x.
Proof.
  induction l as [|a l IH]; intros self x; simpl foldl.
  - rewrite bool_decide_false by apply not_elem_of_nil. reflexivity.
  - rewrite IH, deref_assign_electrons.
    destruct (decide (x = a)) as [->|Hne].
    + rewrite (bool_decide_true (a = a)) by done.
      rewrite (bool_decide_true (a ∈ a :: l)) by apply list_elem_of_here.
      destruct (needs_electrons (deref self a)) eqn:Hneed; simpl.
      * now rewrite needs_electrons_assigned, andb_false_r.
      * now rewrite Hneed, andb_false_r.
    + rewrite (bool_decide_false (x = a)) by done. simpl.
      rewrite (bool_decide_ext (x ∈ a :: l) (x ∈ l)); [reflexivity|].
      rewrite elem_of_cons. tauto.
Qed.

Lemma foldl_assign_electrons_frame (e : ref) (l : list ref) :
  forall self : Simulation,
    let self' := foldl (assign_electrons e) self l in
    species self' = species self /\ layouts self' = layouts self
    /\ electron_species self' = electron_species self
    /\ logged self' = logged self
    /\ length (heap self') = length (heap self).
Proof.
  induction l as [|a l IH]; intros self; simpl; [done|].
  destruct (IH (assign_electrons e self a)) as (-> & -> & -> & -> & ->).
  unfold assign_electrons. destruct (needs_electrons _); [|done].
  simpl. now rewrite length_insert.
Qed.

(** What a returning call of the getter does to heap and species: it may
    append one new object. *)
Lemma get_electron_species_extends (K : constants.t) (self self1 : Simulation) (e : ref) :
  get_electron_species K self = Return e self1 ->
  electron_species self1 = Some e
  /\ exists hx sx,
       heap self1 = (heap self ++ hx)%list
       /\ species self1 = (species self ++ sx)%list
       /\ (length sx <= 1)%nat
       /\ Forall (fun r => (length (heap self) <= r)%nat) sx.
Proof.
  intros Hget. unfold get_electron_species in Hget.
  destruct (electron_species self) as [e0|] eqn:Hc.
  - injection Hget as <- <-. split; [done|]. exists [], [].
    rewrite !app_nil_r. auto.
  - destruct (all_electrons K self) as [|a [|b l]]; [| | discriminate].
    + destruct (escape_name _ _ _) as [nm|]; [|discriminate].
      injection Hget as <- <-. split; [done|].
      exists [new_electrons nm], [length (heap self)]. simpl. auto.
    + injection Hget as <- <-. split; [done|]. exists [], [].
      simpl. rewrite !app_nil_r. auto.
Qed.

(** C5: after a call of the getter that returned, the returned species is
    memoized; the next call, and every call in a simulation that still holds
    it, returns the same reference and leaves the simulation as it is: the
    species are not classified again and no species is created.  The
    propagation pass keeps the memoized species and the list of species. *)
Theorem electron_species_memoized (K : constants.t) (self self1 : Simulation) (e : ref) :
  get_electron_species K self = Return e self1 ->
  electron_species self1 = Some e
  /\ get_electron_species K self1 = Return e self1
  /\ (forall later, electron_species later = Some e ->
                    get_electron_species K later = Return e later)
  /\ (forall later, electron_species later = Some e ->
                    exists later',
                      resolve_electrons K later = Return tt later'
                      /\ electron_species later' = Some e
                      /\ species later' = species later
                      /\ layouts later' = layouts later
                      /\ length (heap later') = length (heap later)).
Proof.
  intros Hget.
  destruct (get_electron_species_extends K self self1 e Hget) as [Hcache _].
  split; [exact Hcache|]. split; [now apply get_electron_species_cached|].
  split; [intros later; apply get_electron_species_cached|].
  intros later Hlater. eexists. split.
  - unfold resolve_electrons.
    apply (resolve_electrons_from_cached K e (species later) _ [] later); [done | done | lia].
  - destruct (foldl_assign_electrons_frame e (species later) later)
      as (Hsp & Hlay & Hc & _ & Hlen).
    rewrite Hc. auto.
Qed.

Lemma electron_species_memoized_witness :
  get_electron_species SI
    (set_electron_species 1%nat
       (simulation_of [plain "p" None; plain "e" (Some "electron")] None))
  = Return 1%nat
      (set_electron_species 1%nat
         (simulation_of [plain "p" None; plain "e" (Some "electron")] None)).
Proof.
  exact (proj1 (proj2 (electron_species_memoized SI
           (simulation_of [plain "p" None; plain "e" (Some "electron")] None)
           _ 1%nat eq_refl))).
Defined.

(** The list of species splits at the first one that needs electrons. *)
Lemma first_needing (self : Simulation) (l : list ref) :
  Forall (fun r => needs_electrons (deref self r) = false) l
  \/ exists skip r post,
       l = (skip ++ r :: post)%list
       /\ Forall (fun r => needs_electrons (deref self r) = false) skip
       /\ needs_electrons (deref self r) = true.
Proof.
  induction l as [|a l [IH | (skip & r & post & -> & Hskip & Hr)]].
  - left. constructor.
  - destruct (needs_electrons (deref self a)) eqn:Ha.
    + right. exists [], a, l. auto.
    + left. now constructor.
  - destruct (needs_electrons (deref self a)) eqn:Ha.
    + right. exists [], a, (skip ++ r :: post)%list. auto.
    + right. exists (a :: skip), r, post. auto.
Qed.

Lemma resolve_electrons_from_first (K : constants.t) (skip : list ref) :
  forall (fuel : nat) (pre : list ref) (self self1 : Simulation)
         (r : ref) (post sx : list ref) (e : ref),
    species self = (pre ++ skip ++ r :: post)%list ->
    Forall (fun r => needs_electrons (deref self r) = false) skip ->
    needs_electrons (deref self r) = true ->
    get_electron_species K self = Return e self1 ->
    electron_species self1 = Some e ->
    species self1 = (species self ++ sx)%list ->
    (length sx <= 1)%nat ->
    (length skip + length post + 2 < fuel)%nat ->
    resolve_electrons_from K fuel (length pre) self =
      Return tt (foldl (assign_electrons e) (set_ionization_electrons r e self1)
                   (post ++ sx)).
Proof.
  induction skip as [|a skip IH];
    intros fuel pre self self1 r post sx e Hsp Hskip Hr Hget Hcache Hsp1 Hsx Hfuel;
    (destruct fuel as [|fuel]; [lia|]).
  - simpl in Hsp.
    rewrite (resolve_electrons_from_step K fuel _ self r)
      by (rewrite Hsp; now apply list_lookup_middle).
    rewrite Hr, Hget.
    replace (S (length pre)) with (length (pre ++ [r])) by (rewrite length_app; simpl; lia).
    apply resolve_electrons_from_cached.
    + simpl. rewrite Hsp1, Hsp, <- !app_assoc. reflexivity.
    + exact Hcache.
    + rewrite length_app. simpl in Hfuel. lia.
  - simpl in Hsp.
    rewrite (resolve_electrons_from_step K fuel _ self a)
      by (rewrite Hsp; now apply list_lookup_middle).
    inversion Hskip as [|? ? Ha Hskip']; subst. rewrite Ha.
    replace (S (length pre)) with (length (pre ++ [a])) by (rewrite length_app; simpl; lia).
    apply (IH fuel (pre ++ [a])%list self self1 r post sx e); auto.
    + rewrite Hsp, <- app_assoc. reflexivity.
    + simpl in Hfuel. lia.
Qed.

(** When the getter raises at the first species that needs electrons, the
    pass raises the same exception and changes nothing. *)
Lemma resolve_electrons_from_first_raises (K : constants.t) (skip : list ref) :
  forall (fuel : nat) (pre : list ref) (self self1 : Simulation)
         (r : ref) (post : list ref) (err : PyError),
    species self = (pre ++ skip ++ r :: post)%list ->
    Forall (fun r => needs_electrons (deref self r) = false) skip ->
    needs_electrons (deref self r) = true ->
    get_electron_species K self = Raised err self1 ->
    (length skip < fuel)%nat ->
    resolve_electrons_from K fuel (length pre) self = Raised err self1.
Proof.
  induction skip as [|a skip IH];
    intros fuel pre self self1 r post err Hsp Hskip Hr Hget Hfuel;
    (destruct fuel as [|fuel]; [simpl in Hfuel; lia|]).
  - simpl in Hsp.
    rewrite (resolve_electrons_from_step K fuel _ self r)
      by (rewrite Hsp; now apply list_lookup_middle).
    now rewrite Hr, Hget.
  - simpl in Hsp.
    rewrite (resolve_electrons_from_step K fuel _ self a)
      by (rewrite Hsp; now apply list_lookup_middle).
    inversion Hskip as [|? ? Ha Hskip']; subst. rewrite Ha.
    replace (S (length pre)) with (length (pre ++ [a])) by (rewrite length_app; simpl; lia).
    apply (IH fuel (pre ++ [a])%list self self1 r post err); auto.
    + rewrite Hsp, <- app_assoc. reflexivity.
    + simpl in Hfuel. lia.
Qed.

(** The bounds of the two loops of the embedding are large enough: the
    getter and the pass always return or raise. *)
Lemma get_electron_species_total (K : constants.t) (self : Simulation) :
  get_electron_species K self <> OutOfFuel.
Proof.
  unfold get_electron_species.
  destruct (electron_species self); [discriminate|].
  destruct (all_electrons K self) as [|a [|b l]]; try discriminate.
  set (names := map (fun r => name (deref self r)) (species self)).
  destruct (first_free_escaped names) as (k & Hk & Hfree & Hbelow).
  pose proof (escape_name_first_free names k Hbelow Hfree (length names) 0
                ltac:(lia) ltac:(lia)) as Hname.
  subst names. simpl escaped in Hname. rewrite Hname. discriminate.
Qed.

Lemma resolve_electrons_total (K : constants.t) (self : Simulation) :
  resolve_electrons K self <> OutOfFuel.
Proof.
  unfold resolve_electrons.
  destruct (first_needing self (species self))
    as [Hall | (skip & r0 & post & Hsp & Hskip & Hr0)].
  - rewrite (resolve_electrons_from_skip K (species self) _ [] self); [done | done | done | lia].
  - destruct (get_electron_species K self) as [e self1|err self1|] eqn:Hget.
    + destruct (get_electron_species_extends K self self1 e Hget)
        as (Hcache & hx & sx & Hheap & Hsp1 & Hlen & Hfresh).
      rewrite (resolve_electrons_from_first K skip _ [] self self1 r0 post sx e); auto.
      rewrite Hsp, length_app. simpl. lia.
    + rewrite (resolve_electrons_from_first_raises K skip _ [] self self1 r0 post err); auto.
      rewrite Hsp, length_app. simpl. lia.
    + now apply get_electron_species_total in Hget.
Qed.

(** C6: when the getter returns the electron species [e], the propagation
    pass returns; every species of the simulation that has ionization models
    and no ionization electrons gets [e] as its ionization electrons, its
    other attributes unchanged; every other object of the heap is left as it
    was, so an explicit choice is kept and a species without ionization
    models is not touched.  Besides, the simulation is either untouched or
    holds what the call of the getter left. *)
Theorem resolve_electrons_assigns (K : constants.t) (self self1 : Simulation) (e : ref) :
  get_electron_species K self = Return e self1 ->
  exists self',
    resolve_electrons K self = Return tt self'
    /\ (forall r, r ∈ species self ->
                  has_ionizers (deref self r) = true ->
                  picongpu_ionization_electrons (deref self r) = None ->
                  deref self' r = with_ionization_electrons e (deref self r))
    /\ (forall r, (r < length (heap self))%nat ->
                  ~ (r ∈ species self /\ has_ionizers (deref self r) = true
                     /\ picongpu_ionization_electrons (deref self r) = None) ->
                  deref self' r = deref self r)
    /\ (self' = self
        \/ (species self' = species self1 /\ layouts self' = layouts self1
            /\ electron_species self' = Some e /\ logged self' = logged self1
            /\ length (heap self') = length (heap self1))).
Proof.
  intros Hget.
  assert (Hneeds : forall r,
             needs_electrons (deref self r) = true <->
             has_ionizers (deref self r) = true
             /\ picongpu_ionization_electrons (deref self r) = None).
  { intros r. unfold needs_electrons.
    rewrite andb_true_iff, bool_decide_eq_true. reflexivity. }
  destruct (first_needing self (species self))
    as [Hall | (skip & r0 & post & Hsp & Hskip & Hr0)].
  - exists self. split; [|split; [|split]].
    + unfold resolve_electrons.
      apply (resolve_electrons_from_skip K (species self) _ [] self); [done | done | lia].
    + intros r Hr Hion Hnone. rewrite Forall_forall in Hall.
      specialize (Hall r Hr). rewrite (proj2 (Hneeds r)) in Hall; [discriminate | auto].
    + reflexivity.
    + now left.
  - destruct (get_electron_species_extends K self self1 e Hget)
      as (Hcache & hx & sx & Hheap & Hsp1 & Hlen & Hfresh).
    set (s0 := set_ionization_electrons r0 e self1).
    exists (foldl (assign_electrons e) s0 (post ++ sx)).
    assert (Hr0heap := needs_electrons_in_heap self r0 Hr0).
    assert (Hold : forall x, (x < length (heap self))%nat -> deref self1 x = deref self x).
    { intros x Hx. unfold deref. rewrite Hheap. now apply lookup_total_app_l. }
    assert (Hs0 : forall x, (x < length (heap self))%nat ->
                deref s0 x = if bool_decide (x = r0)
                             then with_ionization_electrons e (deref self r0)
                             else deref self x).
    { intros x Hx. unfold s0, deref at 1. simpl. case_bool_decide as Hxr.
      - subst x. rewrite list_lookup_total_insert_eq, Hold; [done | done |].
        rewrite Hheap, length_app. lia.
      - rewrite list_lookup_total_insert_ne by congruence. now apply Hold. }
    assert (Hfresh' : forall x, (x < length (heap self))%nat -> x ∉ sx).
    { intros x Hx Hin. rewrite Forall_forall in Hfresh. apply Hfresh in Hin. lia. }
    split; [|split; [|split]].
    + unfold resolve_electrons.
      apply (resolve_electrons_from_first K skip _ [] self self1 r0 post sx e); auto.
      rewrite Hsp, length_app. simpl. lia.
    + intros r Hr Hion Hnone.
      assert (Hneed : needs_electrons (deref self r) = true) by (apply Hneeds; auto).
      assert (Hrheap := needs_electrons_in_heap self r Hneed).
      rewrite deref_foldl_assign_electrons, (Hs0 r Hrheap).
      destruct (decide (r = r0)) as [Hrr0 | Hrr0].
      * rewrite (bool_decide_true (r = r0)) by done.
        rewrite needs_electrons_assigned, andb_false_r. now rewrite Hrr0.
      * rewrite (bool_decide_false (r = r0)) by done.
        rewrite Hneed, bool_decide_true; [reflexivity|].
        rewrite Hsp in Hr. rewrite !elem_of_app, elem_of_cons in Hr.
        rewrite elem_of_app. destruct Hr as [Hr | [Hr | Hr]]; [| congruence | auto].
        rewrite Forall_forall in Hskip. rewrite (Hskip r Hr) in Hneed. discriminate.
    + intros r Hrheap Hnot.
      rewrite deref_foldl_assign_electrons, (Hs0 r Hrheap).
      destruct (decide (r = r0)) as [Hrr0 | Hrr0].
      * exfalso. apply Hnot. rewrite Hrr0. split; [|now apply Hneeds].
        rewrite Hsp, elem_of_app, elem_of_cons. auto.
      * rewrite (bool_decide_false (r = r0)) by done.
        destruct (needs_electrons (deref self r)) eqn:Hneed;
          [|now rewrite andb_false_r].
        rewrite bool_decide_false; [reflexivity|].
        rewrite elem_of_app. intros [Hin | Hin]; [|now apply (Hfresh' r Hrheap)].
        apply Hnot. split; [|now apply Hneeds].
        rewrite Hsp, elem_of_app, elem_of_cons. auto.
    + right.
      destruct (foldl_assign_electrons_frame e (post ++ sx) s0)
        as (-> & -> & -> & -> & ->).
      unfold s0. simpl. rewrite length_insert. auto.
Qed.

Lemma resolve_electrons_assigns_witness :
  exists self',
    resolve_electrons SI
      (simulation_of [ionizable "O" None; plain "e" None;
                      ionizable "M" (Some 1%nat); ionizable "N" None] None)
    = Return tt self'
    /\ deref self' 0%nat = ionizable "O" (Some 4%nat)
    /\ deref self' 3%nat = ionizable "N" (Some 4%nat)
    /\ deref self' 1%nat = plain "e" None
    /\ deref self' 2%nat = ionizable "M" (Some 1%nat).
Proof.
  destruct (resolve_electrons_assigns SI
              (simulation_of [ionizable "O" None; plain "e" None;
                              ionizable "M" (Some 1%nat); ionizable "N" None] None)
              _ 4%nat eq_refl)
    as (self' & Hres & Hset & Hkeep & _).
  exists self'. split; [exact Hres|].
  split; [|split; [|split]].
  - apply (Hset 0%nat); [|reflexivity|reflexivity]. vm_compute. apply list_elem_of_here.
  - apply (Hset 3%nat); [|reflexivity|reflexivity]. vm_compute.
    do 3 apply list_elem_of_further. apply list_elem_of_here.
  - apply (Hkeep 1%nat); [vm_compute; lia|]. intros (_ & Hion & _). discriminate.
  - apply (Hkeep 2%nat); [vm_compute; lia|]. intros (_ & _ & Hnone). discriminate.
Defined.

(** ** Ionization electrons of the translated species *)

(** Writing the electron species into the models of a translated species
    keeps its name and the presence of its ionization constant. *)
Lemma filled_species_same_kind (pyheap : list PySpecies) (t : pyref)
    (models : list IonizationModel) (x : pyref) :
  ground_state_ionization (pyheap !!! t) <> None ->
  let pyheap' :=
    <[t := {| py_name := py_name (pyheap !!! t);
              ground_state_ionization := Some models |}]> pyheap in
  py_name (pyheap' !!! x) = py_name (pyheap !!! x)
  /\ (ground_state_ionization (pyheap' !!! x) = None <->
      ground_state_ionization (pyheap !!! x) = None).
Proof.
  intros Hsome. simpl.
  destruct (decide (t < length pyheap)%nat) as [Hlt | Hge].
  - destruct (decide (x = t)) as [->|Hne].
    + rewrite list_lookup_total_insert_eq by done. simpl. split; [done|].
      split; [discriminate | contradiction].
    + rewrite list_lookup_total_insert_ne by congruence. done.
  - rewrite list_insert_ge by lia. done.
Qed.

Lemma fill_items_raises (self : Simulation) (m : list (ref * pyref))
    (items : list (ref * pyref)) :
  forall pyheap : list PySpecies,
    Forall (fun it => ground_state_ionization (pyheap !!! it.2) <> None ->
                      picongpu_ionization_electrons (deref self it.1) <> None) items ->
    Exists (fun it => ground_state_ionization (pyheap !!! it.2) <> None
                      /\ exists d, picongpu_ionization_electrons (deref self it.1) = Some d
                                   /\ dict.get m d = None) items ->
    exists p t d pyheap',
      (p, t) ∈ items
      /\ ground_state_ionization (pyheap !!! t) <> None
      /\ picongpu_ionization_electrons (deref self p) = Some d
      /\ dict.get m d = None
      /\ fill_ionization_electrons_items self m items pyheap =
           Raised (AssertionError
                     (Some (explicitly_added_message (name (deref self d))
                                                     (py_name (pyheap !!! t))))) pyheap'.
Proof.
  induction items as [|[p t] items IH]; intros pyheap Hset Hbad.
  - inversion Hbad.
  - simpl. inversion Hset as [|? ? Hp Hset']; subst. simpl in Hp.
    destruct (ground_state_ionization (pyheap !!! t)) as [models|] eqn:Hgsi.
    + destruct (picongpu_ionization_electrons (deref self p)) as [d|] eqn:Hd;
        [|now destruct Hp].
      destruct (dict.get m d) as [py_d|] eqn:Hget.
      * pose proof (filled_species_same_kind pyheap t
                      (map (with_electron_species py_d) models)) as Hkind.
        simpl in Hkind. rewrite Hgsi in Hkind.
        destruct (IH (<[t := {| py_name := py_name (pyheap !!! t);
                                ground_state_ionization :=
                                  Some (map (with_electron_species py_d) models) |}]> pyheap))
          as (p' & t' & d' & pyheap' & Hin & Hc & Hd' & Hget' & Hrun).
        -- eapply Forall_impl; [exact Hset'|]. intros [p0 t0] H0 Hc. simpl in *.
           apply H0. intros Hn. apply Hc. now apply (Hkind t0).
        -- inversion Hbad as [? ? [Hc (d0 & Hd0 & Hg0)] | ? ? Hbad']; subst.
           { simpl in *. congruence. }
           eapply Exists_impl; [exact Hbad'|]. intros [p0 t0] [Hc Hrest]. simpl in *.
           split; [|exact Hrest]. intros Hn. apply Hc. now apply (Hkind t0).
        -- exists p', t', d', pyheap'. repeat split; auto.
           ++ now apply list_elem_of_further.
           ++ intros Hn. apply Hc. now apply (Hkind t').
           ++ rewrite Hrun. now rewrite (proj1 (Hkind t' ltac:(discriminate))).
      * exists p, t, d, pyheap. repeat split; auto.
        -- apply list_elem_of_here.
        -- now rewrite Hgsi.
    + destruct (IH pyheap Hset') as (p' & t' & d' & pyheap' & Hin & Hrest).
      * inversion Hbad as [? ? [Hc _] | ? ? Hbad']; subst; [|done].
        simpl in Hc. now rewrite Hgsi in Hc.
      * exists p', t', d', pyheap'. split; [now apply list_elem_of_further | exact Hrest].
Qed.

Lemma fill_items_returns (self : Simulation) (m : list (ref * pyref))
    (items : list (ref * pyref)) :
  forall pyheap : list PySpecies,
    NoDup items.*2 ->
    Forall (fun it => (it.2 < length pyheap)%nat) items ->
    Forall (fun it => ground_state_ionization (pyheap !!! it.2) <> None ->
                      exists d py_d,
                        picongpu_ionization_electrons (deref self it.1) = Some d
                        /\ dict.get m d = Some py_d) items ->
    exists pyheap',
      fill_ionization_electrons_items self m items pyheap = Return tt pyheap'
      /\ length pyheap' = length pyheap
      /\ (forall p t models d py_d,
            (p, t) ∈ items ->
            ground_state_ionization (pyheap !!! t) = Some models ->
            picongpu_ionization_electrons (deref self p) = Some d ->
            dict.get m d = Some py_d ->
            pyheap' !!! t =
              {| py_name := py_name (pyheap !!! t);
                 ground_state_ionization :=
                   Some (map (with_electron_species py_d) models) |})
      /\ (forall x, (forall p, (p, x) ∈ items ->
                               ground_state_ionization (pyheap !!! x) = None) ->
                    pyheap' !!! x = pyheap !!! x).
Proof.
  induction items as [|[p t] items IH]; intros pyheap Hnodup Hvalid Hreg.
  - exists pyheap. simpl. repeat split; auto.
    intros ? ? ? ? ? Hin. now apply not_elem_of_nil in Hin.
  - simpl. rewrite fmap_cons in Hnodup. apply NoDup_cons in Hnodup as [Hfresh Hnodup].
    inversion Hvalid as [|? ? Ht Hvalid']; subst.
    inversion Hreg as [|? ? Hp Hreg']; subst. simpl in Ht, Hp, Hfresh.
    destruct (ground_state_ionization (pyheap !!! t)) as [models|] eqn:Hgsi.
    + destruct Hp as (d & py_d & Hd & Hget); [discriminate|]. rewrite Hd, Hget.
      set (pyheap2 := <[t := {| py_name := py_name (pyheap !!! t);
                                ground_state_ionization :=
                                  Some (map (with_electron_species py_d) models) |}]> pyheap).
      pose proof (filled_species_same_kind pyheap t
                    (map (with_electron_species py_d) models)) as Hkind.
      simpl in Hkind. rewrite Hgsi in Hkind. fold pyheap2 in Hkind.
      assert (Hother : forall x, x <> t -> pyheap2 !!! x = pyheap !!! x).
      { intros x Hx. unfold pyheap2. apply list_lookup_total_insert_ne. congruence. }
      destruct (IH pyheap2 Hnodup) as (pyheap' & Hrun & Hlen & Hset & Hkeep).
      * unfold pyheap2. eapply Forall_impl; [exact Hvalid'|].
        intros [p0 t0] H0. simpl in *. now rewrite length_insert.
      * eapply Forall_impl; [exact Hreg'|]. intros [p0 t0] H0 Hc. simpl in *.
        apply H0. intros Hn. apply Hc. now apply (Hkind t0).
      * exists pyheap'. split; [exact Hrun|]. split.
        { rewrite Hlen. unfold pyheap2. apply length_insert. }
        split.
        -- intros p0 t0 models0 d0 py_d0 Hin Hg0 Hd0 Hget0.
           apply elem_of_cons in Hin as [Heq | Hin].
           ++ injection Heq as -> ->.
              rewrite Hkeep.
              ** unfold pyheap2. rewrite list_lookup_total_insert_eq by done.
                 congruence.
              ** intros p1 Hin1. exfalso. apply Hfresh.
                 apply list_elem_of_fmap. now exists (p1, t).
           ++ assert (t0 <> t).
              { intros ->. apply Hfresh. apply list_elem_of_fmap. now exists (p0, t). }
              rewrite (Hset p0 t0 models0 d0 py_d0 Hin); rewrite ?Hother; auto.
        -- intros x Hx.
           assert (x <> t).
           { intros ->. specialize (Hx p (list_elem_of_here _ _)). congruence. }
           rewrite Hkeep, Hother; auto.
           intros p0 Hin0. rewrite Hother by done.
           apply (Hx p0). now apply list_elem_of_further.
    + destruct (IH pyheap Hnodup Hvalid' Hreg') as (pyheap' & Hrun & Hlen & Hset & Hkeep).
      exists pyheap'. split; [exact Hrun|]. split; [exact Hlen|]. split.
      * intros p0 t0 models0 d0 py_d0 Hin Hg0 Hd0 Hget0.
        apply elem_of_cons in Hin as [Heq | Hin].
        -- injection Heq as -> ->. congruence.
        -- now apply (Hset p0 t0 models0 d0 py_d0).
      * intros x Hx. apply Hkeep. intros p0 Hin0. apply (Hx p0).
        now apply list_elem_of_further.
Qed.

(** C7: for translated species that are distinct objects of the heap, and
    ionizing species whose ionization electrons are set (the condition the
    method documents): when some translated species with an ionization
    constant has electrons that are no key of the mapping, the method raises
    the [AssertionError] that asks to add that species explicitly, naming it
    and the ionizing species; otherwise it returns, and every ionization
    model of every such species then links to the translated species the
    mapping holds for the electrons, all else being unchanged. *)
Theorem fill_ionization_electrons_links (self : Simulation)
    (m : list (ref * pyref)) (pyheap : list PySpecies) :
  NoDup m.*2 ->
  Forall (fun it => (it.2 < length pyheap)%nat) m ->
  (forall p t, (p, t) ∈ m -> ground_state_ionization (pyheap !!! t) <> None ->
               picongpu_ionization_electrons (deref self p) <> None) ->
  ((exists p t d, (p, t) ∈ m
                  /\ ground_state_ionization (pyheap !!! t) <> None
                  /\ picongpu_ionization_electrons (deref self p) = Some d
                  /\ dict.get m d = None) ->
   exists p t d pyheap',
     (p, t) ∈ m
     /\ ground_state_ionization (pyheap !!! t) <> None
     /\ picongpu_ionization_electrons (deref self p) = Some d
     /\ dict.get m d = None
     /\ fill_ionization_electrons self m pyheap =
          Raised (AssertionError
                    (Some ("species " ++ name (deref self d) ++ " (set as electrons " ++
                           "for species " ++ py_name (pyheap !!! t) ++
                           " via picongpu_ionization_species) must be " ++
                           "explicitly added with add_species()"))) pyheap')
  /\ ((forall p t, (p, t) ∈ m -> ground_state_ionization (pyheap !!! t) <> None ->
                   exists d py_d, picongpu_ionization_electrons (deref self p) = Some d
                                  /\ dict.get m d = Some py_d) ->
      exists pyheap',
        fill_ionization_electrons self m pyheap = Return tt pyheap'
        /\ length pyheap' = length pyheap
        /\ (forall p t models d py_d,
              (p, t) ∈ m ->
              ground_state_ionization (pyheap !!! t) = Some models ->
              picongpu_ionization_electrons (deref self p) = Some d ->
              dict.get m d = Some py_d ->
              py_name (pyheap' !!! t) = py_name (pyheap !!! t)
              /\ exists models',
                   ground_state_ionization (pyheap' !!! t) = Some models'
                   /\ map model_name models' = map model_name models
                   /\ Forall (fun model => ionization_electron_species model = Some py_d)
                        models')
        /\ (forall x, (forall p, (p, x) ∈ m ->
                                 ground_state_ionization (pyheap !!! x) = None) ->
                      pyheap' !!! x = pyheap !!! x)).
Proof.
  intros Hnodup Hvalid Hset. split.
  - intros (p & t & d & Hin & Hc & Hd & Hget).
    apply (fill_items_raises self m m pyheap).
    + apply Forall_forall. intros [p0 t0] Hin0. now apply Hset.
    + apply Exists_exists. exists (p, t). eauto.
  - intros Hreg.
    destruct (fill_items_returns self m m pyheap Hnodup Hvalid)
      as (pyheap' & Hrun & Hlen & Hlinks & Hkeep).
    { apply Forall_forall. intros [p0 t0] Hin0. now apply Hreg. }
    exists pyheap'. split; [exact Hrun|]. split; [exact Hlen|]. split; [|exact Hkeep].
    intros p t models d py_d Hin Hgsi Hd Hget.
    rewrite (Hlinks p t models d py_d Hin Hgsi Hd Hget). simpl. split; [done|].
    eexists. split; [reflexivity|]. split.
    + rewrite map_map. reflexivity.
    + apply Forall_forall. intros model Hm.
      apply list_elem_of_fmap in Hm as (model0 & -> & _). reflexivity.
Qed.

Lemma fill_ionization_electrons_links_witness :
  (exists pyheap',
     fill_ionization_electrons
       (simulation_of [ionizable "N" (Some 1%nat); plain "e" (Some "electron")] None)
       [(0, 0); (1, 1)]%nat
       [species_get_as_pypicongpu (ionizable "N" (Some 1%nat));
        species_get_as_pypicongpu (plain "e" (Some "electron"))]
     = Return tt pyheap'
     /\ length pyheap' = 2%nat)
  /\ (exists p t d pyheap',
        (p, t) ∈ [(0, 0)]%nat
        /\ dict.get [(0, 0)]%nat d = None
        /\ fill_ionization_electrons
             (simulation_of [ionizable "N" (Some 1%nat); plain "e" (Some "electron")] None)
             [(0, 0)]%nat
             [species_get_as_pypicongpu (ionizable "N" (Some 1%nat))]
           = Raised (AssertionError
                       (Some ("species " ++ "e" ++ " (set as electrons for species " ++
                              "N" ++ " via picongpu_ionization_species) must be " ++
                              "explicitly added with add_species()"))) pyheap').
Proof.
  split.
  - destruct (proj2 (fill_ionization_electrons_links
             (simulation_of [ionizable "N" (Some 1%nat); plain "e" (Some "electron")] None)
             [(0, 0); (1, 1)]%nat
             [species_get_as_pypicongpu (ionizable "N" (Some 1%nat));
              species_get_as_pypicongpu (plain "e" (Some "electron"))]
             ltac:(compute_done)
             ltac:(repeat constructor)
             ltac:(intros p t Hin; repeat (apply elem_of_cons in Hin as [Hin|Hin];
                     [injection Hin as -> ->; vm_compute; congruence|]);
                   now apply not_elem_of_nil in Hin)))
      as (pyheap' & Hrun & Hlen & _).
    + intros p t Hin.
      repeat (apply elem_of_cons in Hin as [Hin|Hin];
                [injection Hin as -> ->; vm_compute; intros; eauto; congruence|]).
      now apply not_elem_of_nil in Hin.
    + eauto.
  - destruct (proj1 (fill_ionization_electrons_links
             (simulation_of [ionizable "N" (Some 1%nat); plain "e" (Some "electron")] None)
             [(0, 0)]%nat
             [species_get_as_pypicongpu (ionizable "N" (Some 1%nat))]
             ltac:(compute_done)
             ltac:(repeat constructor)
             ltac:(intros p t Hin; repeat (apply elem_of_cons in Hin as [Hin|Hin];
                     [injection Hin as -> ->; vm_compute; congruence|]);
                   now apply not_elem_of_nil in Hin)))
      as (p & t & d & pyheap' & Hin & Hc & Hd & Hget & Hrun).
    + exists 0%nat, 0%nat, 1%nat. repeat split; try reflexivity.
      * apply list_elem_of_here.
      * vm_compute. discriminate.
    + apply list_elem_of_singleton in Hin. injection Hin as -> ->.
      vm_compute in Hd. injection Hd as <-.
      exists 0%nat, 0%nat, 1%nat, pyheap'. repeat split; auto.
      apply list_elem_of_here.
Defined.

(** The mapping the assembler builds (lines 373 to 377) meets the
    conditions above: the translated species are distinct objects of the
    heap, and every species of the simulation is a key. *)
Lemma dict_NoDup_values_set (d : list (ref * pyref)) (k : ref) (v : pyref) :
  NoDup d.*2 -> v ∉ d.*2 -> NoDup (dict.set d k v).*2.
Proof.
  induction d as [|[k0 v0] d IH]; intros Hnd Hfresh.
  - apply NoDup_singleton.
  - simpl dict.set. rewrite fmap_cons in Hnd, Hfresh.
    apply NoDup_cons in Hnd as [Hv0 Hnd]. apply not_elem_of_cons in Hfresh as [Hne Hfresh].
    destruct (decide (k = k0)) as [->|Hk]; rewrite fmap_cons; apply NoDup_cons.
    + auto.
    + split; [|now apply IH].
      intros ([k1 v1] & Hv1 & Hin)%list_elem_of_fmap. simpl in Hv1. subst v1.
      apply dict_elem_of_set in Hin as [[_ ->] | Hin]; [done|].
      apply Hv0, list_elem_of_fmap. now exists (k1, v0).
Qed.

Lemma translate_all_distinct (self : Simulation) (todo : list ref) :
  forall m all_ pyheap m' all' pyheap',
    translate_all self todo m all_ pyheap = (m', all', pyheap') ->
    NoDup m.*2 -> Forall (fun it => (it.2 < length pyheap)%nat) m ->
    NoDup m'.*2
    /\ Forall (fun it => (it.2 < length pyheap')%nat) m'
    /\ (forall r, r ∈ todo \/ is_Some (dict.get m r) -> is_Some (dict.get m' r)).
Proof.
  induction todo as [|r todo IH]; intros m all_ pyheap m' all' pyheap' Hrun Hnd Hvalid.
  - injection Hrun as <- <- <-. repeat split; auto.
    intros r [Hin | Hsome]; [now apply not_elem_of_nil in Hin | done].
  - simpl in Hrun. apply IH in Hrun as (Hnd' & Hvalid' & Hkeys).
    + repeat split; auto. intros r0 [Hin | Hsome]; apply Hkeys.
      * apply elem_of_cons in Hin as [-> | Hin]; [|now left].
        right. rewrite dict_get_set_eq. eauto.
      * right. destruct (decide (r = r0)) as [->|Hne].
        -- rewrite dict_get_set_eq. eauto.
        -- now rewrite dict_get_set_ne.
    + apply dict_NoDup_values_set; [done|].
      intros ([k1 v1] & Hv1 & Hin)%list_elem_of_fmap. simpl in Hv1. subst v1.
      rewrite Forall_forall in Hvalid. specialize (Hvalid _ Hin). simpl in Hvalid. lia.
    + apply Forall_forall. intros [k1 v1] Hin. rewrite length_app. simpl.
      apply dict_elem_of_set in Hin as [[_ ->] | Hin]; [lia|].
      rewrite Forall_forall in Hvalid. specialize (Hvalid _ Hin). simpl in Hvalid. lia.
Qed.

(** An ionizing species without electrons and no electron species: the
    electrons ["e"] are created and translated, the notice is logged, and
    the ionization model of the translated species links to the translated
    electrons. *)
Example ionization_creates_and_links_electrons :
  match get_as_pypicongpu SI unit unit unit (fun _ => Ok tt) (fun _ => Ok (tt, None))
          (fun _ _ => Ok []) (Ok 1%Q)
          (placed_simulation [ionizable "N" None] [None] (Some 2)) with
  | Return s self' =>
    map (fun r => name (deref self' r)) (species self') = ["N"; "e"]
    /\ picongpu_ionization_electrons (deref self' 0%nat) = Some 1%nat
    /\ logged self' =
         ["no electron species for ionization available, creating electrons with name: e"]
    /\ translated_species _ _ _ s =
         [{| py_name := "N";
             ground_state_ionization :=
               Some [{| model_name := "ADK"; ionization_electron_species := Some 1%nat |}] |};
          {| py_name := "e"; ground_state_ionization := None |}]
    /\ all_operations (init_manager _ _ _ s) = [OpNotPlaced 0%nat; OpNotPlaced 1%nat]
  | _ => False
  end.
Proof. vm_compute. repeat split. Qed.

(** ** Typical number of particles per cell *)

Example median_of_three : median [8; 32; 16] = Some (inject_Z 16).
Proof. reflexivity. Qed.

Example median_of_two : median [16; 8] = Some (24 # 2)%Q.
Proof. reflexivity. Qed.

Lemma get_electron_species_typical_ppc (K : constants.t) (self self1 : Simulation) (e : ref) :
  get_electron_species K self = Return e self1 ->
  picongpu_typical_ppc self1 = picongpu_typical_ppc self.
Proof.
  unfold get_electron_species. intros Hget.
  destruct (electron_species self); [now injection Hget as <- <-|].
  destruct (all_electrons K self) as [|a [|b l]]; [| | discriminate].
  - destruct (escape_name _ _ _); [|discriminate]. now injection Hget as <- <-.
  - now injection Hget as <- <-.
Qed.

Lemma resolve_electrons_from_typical_ppc (K : constants.t) (fuel : nat) :
  forall (i : nat) (self self' : Simulation),
    resolve_electrons_from K fuel i self = Return tt self' ->
    picongpu_typical_ppc self' = picongpu_typical_ppc self.
Proof.
  induction fuel as [|fuel IH]; intros i self self' Hres; [discriminate|].
  simpl in Hres. destruct (species self !! i) as [r|]; [|now injection Hres as <-].
  destruct (has_ionizers (deref self r)); simpl in Hres; [|now apply (IH (S i))].
  destruct (picongpu_ionization_electrons (deref self r)); [now apply (IH (S i))|].
  destruct (get_electron_species K self) as [e self1| |] eqn:Hget; try discriminate.
  apply IH in Hres. simpl in Hres. rewrite Hres.
  now apply (get_electron_species_typical_ppc K self self1 e).
Qed.

(** C9: the typical number of particles per cell is the value the user
    gave, or else the median of the sampling counts of the plan; a value
    below 1 makes the translation raise a [ValueError], so that no
    simulation is returned, and a returned simulation has a typical number
    of particles per cell of at least 1. *)
Theorem typical_ppc_at_least_one (K : constants.t) (PySolver PyGrid PyLaser : Type)
    (solver_get_as_pypicongpu : Solver -> result PySolver)
    (grid_and_laser_get_as_pypicongpu : Simulation -> result (PyGrid * option PyLaser))
    (get_independent_operations : Species -> pyref -> result (list Operation))
    (typical_ppc_without_counts : result Q)
    (self : Simulation) :
  let translate :=
    get_as_pypicongpu K PySolver PyGrid PyLaser solver_get_as_pypicongpu
      grid_and_laser_get_as_pypicongpu get_independent_operations
      typical_ppc_without_counts in
  let get_typical_ppc := get_typical_ppc typical_ppc_without_counts in
  let too_small := ValueError (Text "typical_ppc must be >= 1") in
  (forall plan n, picongpu_typical_ppc self = Some n ->
     (1 <= n -> get_typical_ppc self plan = Ok (inject_Z n))
     /\ (n < 1 -> get_typical_ppc self plan = Raise too_small))
  /\ (forall plan m, picongpu_typical_ppc self = None ->
        median (species_sampling_counts plan) = Some m ->
        ((1 <= m)%Q -> get_typical_ppc self plan = Ok m)
        /\ ((m < 1)%Q -> get_typical_ppc self plan = Raise too_small))
  /\ (forall s self',
        translate self = Return s self' ->
        picongpu_typical_ppc self' = picongpu_typical_ppc self
        /\ get_typical_ppc self (init_manager _ _ _ s) = Ok (typical_ppc _ _ _ s)
        /\ (1 <= typical_ppc _ _ _ s)%Q)
  /\ (forall self' plan pyheap e,
        resolve_electrons K self = Return tt self' ->
        get_init_manager get_independent_operations self' = Return plan pyheap ->
        get_typical_ppc self plan = Raise e ->
        exists e' st, translate self = Raised e' st).
Proof.
  intros translate get_typical_ppc' too_small. subst get_typical_ppc'.
  assert (Hcheck : forall v : Q,
             (if negb (Qle_bool 1 v) then Raise too_small else Ok v)
             = (if Qle_bool 1 v then Ok v else Raise too_small)).
  { intros v. now destruct (Qle_bool 1 v). }
  assert (Hsame : forall self' plan,
             picongpu_typical_ppc self' = picongpu_typical_ppc self ->
             get_typical_ppc typical_ppc_without_counts self' plan
             = get_typical_ppc typical_ppc_without_counts self plan).
  { intros self' plan H. unfold get_typical_ppc. now rewrite H. }
  split; [|split; [|split]].
  - intros plan n Hn. unfold get_typical_ppc. rewrite Hn, bind_Ok, Hcheck.
    destruct (Qle_bool 1 (inject_Z n)) eqn:Hle.
    + split; [done|]. apply Qle_bool_iff in Hle. unfold Qle in Hle. simpl in Hle. lia.
    + split; [|done]. intros H1. exfalso.
      assert (Qle_bool 1 (inject_Z n) = true) as Hle'; [|congruence].
      apply Qle_bool_iff. unfold Qle. simpl. lia.
  - intros plan m Hnone Hmed. unfold get_typical_ppc, get_typical_particle_per_cell.
    rewrite Hnone, Hmed, bind_Ok, Hcheck.
    destruct (Qle_bool 1 m) eqn:Hle.
    + split; [done|]. apply Qle_bool_iff in Hle. intros Hlt.
      exfalso. apply (Qlt_not_le _ _ Hlt Hle).
    + split; [|done]. intros H1. apply Qle_bool_iff in H1. congruence.
  - intros s self' Hrun. unfold translate, get_as_pypicongpu in Hrun.
    destruct (_ ≫= _) as [[[sv steps] [g l]]|err]; [|discriminate].
    destruct (resolve_electrons K self) as [[] self1| |] eqn:Hres; try discriminate.
    destruct (get_init_manager _ self1) as [plan pyheap| |]; try discriminate.
    destruct (get_typical_ppc _ self1 plan) as [v|] eqn:Htyp; [|discriminate].
    injection Hrun as <- <-. simpl.
    apply resolve_electrons_from_typical_ppc in Hres.
    split; [exact Hres|]. rewrite <- (Hsame self1 plan Hres). split; [exact Htyp|].
    unfold get_typical_ppc in Htyp.
    apply bind_Ok_inv in Htyp as (v' & _ & Htyp). rewrite Hcheck in Htyp.
    destruct (Qle_bool 1 v') eqn:Hle; [|discriminate].
    injection Htyp as <-. now apply Qle_bool_iff.
  - intros self' plan pyheap e Hres Hplan Htyp. unfold translate, get_as_pypicongpu.
    destruct (_ ≫= _) as [[[sv steps] [g l]]|err].
    + rewrite Hres, Hplan.
      rewrite (Hsame self' plan (resolve_electrons_from_typical_ppc K _ _ _ _ Hres)), Htyp.
      eauto.
    + eauto.
Qed.

Lemma typical_ppc_at_least_one_witness :
  get_typical_ppc (Ok 1%Q) (three_placed (Some 4))
    {| all_species := []; all_operations := [] |} = Ok (inject_Z 4)
  /\ exists s self',
       get_as_pypicongpu SI unit unit unit (fun _ => Ok tt) (fun _ => Ok (tt, None))
         (fun _ _ => Ok []) (Ok 1%Q) (three_placed None) = Return s self'
       /\ (1 <= typical_ppc _ _ _ s)%Q.
Proof.
  split.
  - exact (proj1 (proj1 (typical_ppc_at_least_one SI unit unit unit
                           (fun _ => Ok tt) (fun _ => Ok (tt, None)) (fun _ _ => Ok [])
                           (Ok 1%Q) (three_placed (Some 4)))
                    {| all_species := []; all_operations := [] |} 4 eq_refl)
             ltac:(lia)).
  - destruct (get_as_pypicongpu SI unit unit unit (fun _ => Ok tt)
                (fun _ => Ok (tt, None)) (fun _ _ => Ok []) (Ok 1%Q) (three_placed None))
      as [s self'| |] eqn:Hrun; [| vm_compute in Hrun; discriminate ..].
    exists s, self'. split; [reflexivity|].
    exact (proj2 (proj2 (proj1 (proj2 (proj2 (typical_ppc_at_least_one SI unit unit unit
                           (fun _ => Ok tt) (fun _ => Ok (tt, None)) (fun _ _ => Ok [])
                           (Ok 1%Q) (three_placed None)))) s self' Hrun))).
Defined.

(** ** Grouping into operations *)


Lemma group_insert_eq (d : list (Layout * list (Profile * list ref)))
    (r : ref) (l : Layout) (p : Profile) :
  group_insert d r l p =
    dict.set d l
      (dict.set (default [] (dict.get d l)) p
         (default [] (dict.get (default [] (dict.get d l)) p) ++ [r])%list).
Proof.
  unfold group_insert. destruct (dict.contains d l) eqn:Hl.
  - destruct (dict.contains (default [] (dict.get d l)) p) eqn:Hp; [reflexivity|].
    apply dict_contains_false in Hp. rewrite dict_get_set_eq, Hp. simpl.
    now rewrite dict_set_set.
  - apply dict_contains_false in Hl. rewrite dict_get_set_eq, Hl. simpl.
    rewrite !decide_True by done. simpl. now rewrite dict_set_set.
Qed.

Lemma lookup_group_insert (d : list (Layout * list (Profile * list ref)))
    (r : ref) (l l' : Layout) (p p' : Profile) :
  (dict.get (group_insert d r l p) l' ≫= fun bp => dict.get bp p') =
    if decide ((l', p') = (l, p))
    then Some (default [] (dict.get d l ≫= fun bp => dict.get bp p) ++ [r])%list
    else dict.get d l' ≫= fun bp => dict.get bp p'.
Proof.
  rewrite group_insert_eq. destruct (decide (l' = l)) as [->|Hl].
  - rewrite dict_get_set_eq. simpl. destruct (decide (p' = p)) as [->|Hp].
    + rewrite dict_get_set_eq, decide_True by done.
      now destruct (dict.get d l).
    + rewrite dict_get_set_ne, decide_False by congruence.
      now destruct (dict.get d l).
  - rewrite dict_get_set_ne, decide_False by congruence. reflexivity.
Qed.

Lemma group_of_snoc (pl : list (ref * (Layout * Profile))) (r : ref)
    (k k' : Layout * Profile) :
  group_of (pl ++ [(r, k)]) k' =
    if decide (k' = k) then (group_of pl k' ++ [r])%list else group_of pl k'.
Proof.
  unfold group_of. rewrite filter_app, fmap_app, filter_cons, filter_nil. simpl.
  destruct (decide (k' = k)) as [->|Hne].
  - now rewrite decide_True.
  - rewrite decide_False by congruence. simpl. now rewrite app_nil_r.
Qed.

Lemma elem_of_group_of (pl : list (ref * (Layout * Profile))) (r : ref)
    (k : Layout * Profile) :
  r ∈ group_of pl k <-> (r, k) ∈ pl.
Proof.
  unfold group_of. rewrite list_elem_of_fmap. split.
  - intros ([r' k'] & -> & [Hk Hin]%list_elem_of_filter). simpl in *. now subst.
  - intros Hin. exists (r, k). split; [reflexivity|]. now apply list_elem_of_filter.
Qed.

Lemma grouped_nil : grouped [] [].
Proof.
  split; [apply NoDup_nil_2|]. split.
  - intros l bp Hin. now apply not_elem_of_nil in Hin.
  - intros l p. reflexivity.
Qed.

Lemma grouped_insert (pl : list (ref * (Layout * Profile)))
    (d : list (Layout * list (Profile * list ref)))
    (r : ref) (l : Layout) (p : Profile) :
  grouped pl d -> grouped (pl ++ [(r, (l, p))]) (group_insert d r l p).
Proof.
  intros (Houter & Hinner & Hget). split; [|split].
  - rewrite group_insert_eq. now apply dict_NoDup_set.
  - intros l0 bp Hin. rewrite group_insert_eq in Hin.
    apply dict_elem_of_set in Hin as [[-> ->] | Hin]; [|now apply (Hinner l0)].
    apply dict_NoDup_set.
    destruct (dict.get d l) as [bp1|] eqn:Hl; simpl; [|apply NoDup_nil_2].
    apply (Hinner l). now apply dict_get_elem_of.
  - intros l' p'. rewrite lookup_group_insert, group_of_snoc.
    destruct (decide ((l', p') = (l, p))) as [[= -> ->] | Hne].
    + rewrite Hget.
      destruct (decide (group_of pl (l, p) = [])) as [-> | Hne]; simpl.
      * reflexivity.
      * rewrite decide_False; [reflexivity|].
        intros Happ. now apply app_eq_nil in Happ as [_ ?].
    + apply Hget.
Qed.

Lemma grouped_foldl (self : Simulation) (items : list (ref * option Layout)) :
  forall d pl,
    grouped pl d ->
    grouped (pl ++ omap (placement self) items) (foldl (group_step self) d items).
Proof.
  induction items as [|a items IH]; intros d pl Hg; simpl.
  - now rewrite app_nil_r.
  - unfold group_step at 2, placement at 1.
    destruct a.2 as [l|]; [|now apply IH].
    destruct (initial_distribution (deref self a.1)) as [p|]; [|now apply IH].
    specialize (IH (group_insert d a.1 l p) (pl ++ [(a.1, (l, p))])%list
                  (grouped_insert pl d a.1 l p Hg)).
    rewrite <- app_assoc in IH. exact IH.
Qed.

Lemma grouped_placements (self : Simulation) :
  grouped (placements self) (group_by_layout_and_profile self).
Proof.
  apply (grouped_foldl self _ [] []), grouped_nil.
Qed.

Lemma elem_of_flat_groups (d : list (Layout * list (Profile * list ref)))
    (l : Layout) (p : Profile) (lst : list ref) :
  ((l, p), lst) ∈ flat_groups d <-> exists bp, (l, bp) ∈ d /\ (p, lst) ∈ bp.
Proof.
  unfold flat_groups. rewrite list_elem_of_In, in_flat_map. split.
  - intros ([l0 bp] & Hin & Hmap). apply in_map_iff in Hmap as ([p0 lst0] & Heq & Hin2).
    simpl in Heq. injection Heq as -> -> ->.
    exists bp. now rewrite !list_elem_of_In.
  - intros (bp & Hin & Hin2). exists (l, bp). rewrite <- list_elem_of_In.
    split; [exact Hin|]. apply in_map_iff. exists (p, lst).
    now rewrite <- list_elem_of_In.
Qed.

Lemma NoDup_flat_groups (d : list (Layout * list (Profile * list ref))) :
  NoDup d.*1 -> (forall l bp, (l, bp) ∈ d -> NoDup bp.*1) ->
  NoDup (flat_groups d).*1.
Proof.
  induction d as [|[l bp] d IH]; intros Houter Hinner; [apply NoDup_nil_2|].
  rewrite fmap_cons in Houter. apply NoDup_cons in Houter as [Hfresh Houter].
  unfold flat_groups. simpl flat_map. rewrite fmap_app. apply NoDup_app.
  split; [|split].
  - rewrite <- list_fmap_compose.
    replace (fst ∘ (fun f : Profile * list ref => (l, f.1, f.2)))
      with ((fun p : Profile => (l, p)) ∘ (fst : Profile * list ref -> Profile))
      by reflexivity.
    rewrite list_fmap_compose. apply NoDup_fmap_2.
    + intros p1 p2 [= ->]. reflexivity.
    + apply (Hinner l bp), list_elem_of_here.
  - intros [l0 p0] Hin1 Hin2.
    apply list_elem_of_fmap in Hin1 as ([k1 lst1] & Hk1 & Hin1).
    apply list_elem_of_fmap in Hin1 as ([p1 lst1'] & Heq & _).
    simpl in *. injection Heq as -> ->. injection Hk1 as -> ->.
    apply list_elem_of_fmap in Hin2 as ([[l2 p2] lst2] & Hk2 & Hin2).
    simpl in Hk2. injection Hk2 as <- <-.
    apply elem_of_flat_groups in Hin2 as (bp2 & Hin2 & _).
    apply Hfresh. apply list_elem_of_fmap. now exists (l, bp2).
  - apply IH; [exact Houter|]. intros l0 bp0 Hin.
    apply (Hinner l0). now apply list_elem_of_further.
Qed.

(** The entries of the dictionaries are the non-empty groups, each once. *)
Lemma flat_groups_grouped (pl : list (ref * (Layout * Profile)))
    (d : list (Layout * list (Profile * list ref))) :
  grouped pl d ->
  NoDup (flat_groups d).*1
  /\ forall k lst, (k, lst) ∈ flat_groups d <-> lst = group_of pl k /\ lst <> [].
Proof.
  intros (Houter & Hinner & Hget). split; [now apply NoDup_flat_groups|].
  intros [l p] lst. rewrite elem_of_flat_groups. specialize (Hget l p). split.
  - intros (bp & Hin & Hin2).
    rewrite (dict_elem_of_get d l bp Houter Hin) in Hget. simpl in Hget.
    rewrite (dict_elem_of_get bp p lst (Hinner l bp Hin) Hin2) in Hget.
    destruct (decide (group_of pl (l, p) = [])); [discriminate|].
    injection Hget as ->. done.
  - intros [-> Hne]. rewrite decide_False in Hget by done.
    destruct (dict.get d l) as [bp|] eqn:Hl; [|discriminate]. simpl in Hget.
    exists bp. split; now apply dict_get_elem_of.
Qed.

Lemma operations_of_groups_app (m : list (ref * pyref))
    (g1 g2 : list ((Layout * Profile) * list ref)) :
  operations_of_groups m (g1 ++ g2) =
    (ops ← operations_of_groups m g1;
     more ← operations_of_groups m g2;
     mret (ops ++ more)%list).
Proof.
  induction g1 as [|g g1 IH]; simpl.
  - now destruct (operations_of_groups m g2).
  - destruct (simple_density_of m g.1.1 g.1.2 g.2) as [op|e]; [|reflexivity].
    rewrite !bind_Ok, IH.
    destruct (operations_of_groups m g1) as [ops|e]; [|reflexivity].
    rewrite !bind_Ok.
    now destruct (operations_of_groups m g2).
Qed.

Lemma simple_density_by_profile_groups (m : list (ref * pyref)) (l : Layout)
    (bp : list (Profile * list ref)) :
  simple_density_by_profile m l bp =
    operations_of_groups m (map (fun f => ((l, f.1), f.2)) bp).
Proof.
  induction bp as [|[p lst] bp IH]; simpl; [reflexivity|]. now rewrite IH.
Qed.

Lemma simple_density_by_layout_groups (m : list (ref * pyref))
    (d : list (Layout * list (Profile * list ref))) :
  simple_density_by_layout m d = operations_of_groups m (flat_groups d).
Proof.
  induction d as [|[l bp] d IH]; simpl; [reflexivity|].
  unfold flat_groups. simpl flat_map.
  rewrite operations_of_groups_app, simple_density_by_profile_groups, IH.
  reflexivity.
Qed.

Lemma operations_of_groups_Ok (m : list (ref * pyref))
    (groups : list ((Layout * Profile) * list ref)) :
  forall ops,
    operations_of_groups m groups = Ok ops ->
    Forall2 (fun g op => simple_density_of m g.1.1 g.1.2 g.2 = Ok op) groups ops.
Proof.
  induction groups as [|g groups IH]; simpl; intros ops Hops.
  - injection Hops as <-. constructor.
  - apply bind_Ok_inv in Hops as (op & Hop & Hops).
    apply bind_Ok_inv in Hops as (ops' & Hops' & Hops).
    injection Hops as <-. constructor; auto.
Qed.

Lemma operations_of_groups_total (m : list (ref * pyref))
    (groups : list ((Layout * Profile) * list ref)) :
  Forall (fun g => exists op, simple_density_of m g.1.1 g.1.2 g.2 = Ok op) groups ->
  exists ops, operations_of_groups m groups = Ok ops.
Proof.
  induction 1 as [|g groups [op Hop] _ [ops IH]]; simpl; [eauto|].
  rewrite Hop, IH. simpl. eauto.
Qed.

Lemma translated_Ok (m : list (ref * pyref)) (lst : list ref) :
  forall trs, translated m lst = Ok trs ->
              Forall2 (fun r t => dict.get m r = Some t) lst trs.
Proof.
  induction lst as [|r lst IH]; simpl; intros trs Htrs.
  - injection Htrs as <-. constructor.
  - destruct (dict.get m r) as [t|] eqn:Hr; [|discriminate].
    apply bind_Ok_inv in Htrs as (trs' & Htrs' & Htrs).
    injection Htrs as <-. constructor; auto.
Qed.

Lemma translated_total (m : list (ref * pyref)) (lst : list ref) :
  Forall (fun r => is_Some (dict.get m r)) lst ->
  exists trs, translated m lst = Ok trs.
Proof.
  induction 1 as [|r lst [t Ht] _ [trs IH]]; simpl; [eauto|].
  rewrite Ht, IH. simpl. eauto.
Qed.

(** The operation built for a group of the placed species. *)
Lemma simple_density_of_group (self : Simulation) (m : list (ref * pyref))
    (k : Layout * Profile) (op : SimpleDensity) :
  simple_density_of m k.1 k.2 (group_of (placements self) k) = Ok op ->
  operation_of_group self m k op.
Proof.
  unfold simple_density_of. intros Hop.
  destruct k.1 as [object n seed|] eqn:Hk; [|discriminate].
  apply bind_Ok_inv in Hop as (trs & Htrs & Hop). injection Hop as <-.
  apply translated_Ok in Htrs. unfold operation_of_group.
  cbn [ppc profile simple_density_species].
  split; [eauto|]. split; [reflexivity|]. split.
  - intros r Hr. apply elem_of_group_of, list_elem_of_lookup in Hr as [i Hi].
    destruct (Forall2_lookup_l _ _ _ _ _ Htrs Hi) as (t & _ & Ht). eauto.
  - intros t. rewrite elem_of_list_to_set. split.
    + intros [i Hi]%list_elem_of_lookup.
      destruct (Forall2_lookup_r _ _ _ _ _ Htrs Hi) as (r & Hr & Ht).
      exists r. split; [|exact Ht].
      apply elem_of_group_of. now apply list_elem_of_lookup_2 in Hr.
    + intros (r & Hr & Ht).
      apply elem_of_group_of, list_elem_of_lookup in Hr as [i Hi].
      destruct (Forall2_lookup_l _ _ _ _ _ Htrs Hi) as (t' & Ht' & Hget).
      assert (t' = t) as -> by congruence.
      now apply list_elem_of_lookup_2 in Ht'.
Qed.

(** C8 (as amended): the species with a layout and a profile are grouped
    by the pair of the layout, as the object it is, and the profile,
    compared by value, and one operation is built for each pair that
    occurs: the operations match, one to one, the distinct pairs; the
    species of an operation are the translations of exactly the species
    placed with its pair, and there is at least one.  So two species with
    the same layout object and equal profile are in one operation, and two
    species that differ in the profile or in the layout object, whatever the
    attributes of the layouts, are in two operations.  The method returns
    when the layouts are pseudo-random and the species are keys of the
    mapping. *)
Theorem simple_density_one_operation_per_group (self : Simulation)
    (m : list (ref * pyref)) :
  ((forall r l p, (r, (l, p)) ∈ placements self ->
                  (exists object n seed, l = PICMI_PseudoRandomLayout object n seed)
                  /\ is_Some (dict.get m r)) ->
   exists ops, get_operations_simple_density self m = Ok ops)
  /\ forall ops,
      get_operations_simple_density self m = Ok ops ->
      (exists keys,
         NoDup keys
         /\ (forall k, k ∈ keys <-> exists r, (r, k) ∈ placements self)
         /\ Forall2 (operation_of_group self m) keys ops)
      /\ (forall r1 r2 k t1 t2,
            (r1, k) ∈ placements self -> (r2, k) ∈ placements self ->
            dict.get m r1 = Some t1 -> dict.get m r2 = Some t2 ->
            exists op, op ∈ ops /\ t1 ∈ simple_density_species op
                       /\ t2 ∈ simple_density_species op)
      /\ (forall r1 r2 k1 k2 t1 t2,
            (r1, k1) ∈ placements self -> (r2, k2) ∈ placements self ->
            k1 <> k2 ->
            dict.get m r1 = Some t1 -> dict.get m r2 = Some t2 ->
            exists i j op1 op2,
              i <> j /\ ops !! i = Some op1 /\ ops !! j = Some op2
              /\ t1 ∈ simple_density_species op1
              /\ t2 ∈ simple_density_species op2)
      /\ (forall op, op ∈ ops -> simple_density_species op <> ∅)
      /\ (forall r1 r2 l1 l2 p t1 t2,
            (r1, (l1, p)) ∈ placements self -> (r2, (l2, p)) ∈ placements self ->
            layout_object l1 <> layout_object l2 ->
            dict.get m r1 = Some t1 -> dict.get m r2 = Some t2 ->
            exists i j op1 op2,
              i <> j /\ ops !! i = Some op1 /\ ops !! j = Some op2
              /\ t1 ∈ simple_density_species op1
              /\ t2 ∈ simple_density_species op2).
Proof.
  pose proof (flat_groups_grouped _ _ (grouped_placements self)) as [Hnodup Hflat].
  set (fl := flat_groups (group_by_layout_and_profile self)) in *.
  assert (Hkeys : forall k, k ∈ fl.*1 <-> exists r, (r, k) ∈ placements self).
  { intros k. rewrite list_elem_of_fmap. split.
    - intros ([k' lst] & -> & [-> Hne]%Hflat). simpl.
      destruct (group_of (placements self) k') as [|r lst] eqn:Hg; [done|].
      exists r. apply elem_of_group_of. rewrite Hg. apply list_elem_of_here.
    - intros (r & Hr). exists (k, group_of (placements self) k). split; [done|].
      apply Hflat. split; [done|]. apply elem_of_group_of in Hr.
      intros Hnil. rewrite Hnil in Hr. now apply not_elem_of_nil in Hr. }
  unfold get_operations_simple_density. rewrite simple_density_by_layout_groups.
  fold fl. split.
  - intros Hok. apply operations_of_groups_total, Forall_forall.
    intros [[l p] lst] [-> Hne]%Hflat. simpl. unfold simple_density_of.
    destruct (group_of (placements self) (l, p)) as [|r0 lst0] eqn:Hg; [done|].
    destruct (Hok r0 l p) as [(object & n & seed & ->) _].
    { apply elem_of_group_of. rewrite Hg. apply list_elem_of_here. }
    destruct (translated_total m (r0 :: lst0)) as [trs Htrs].
    { apply Forall_forall. intros r Hr. rewrite <- Hg in Hr.
      apply elem_of_group_of in Hr. now apply (Hok r (PICMI_PseudoRandomLayout object n seed) p). }
    rewrite Htrs. simpl. eauto.
  - intros ops Hops. apply operations_of_groups_Ok in Hops.
    assert (Hall : Forall2 (operation_of_group self m) fl.*1 ops).
    { apply Forall2_fmap_l. apply Forall2_same_length_lookup.
      split; [now apply Forall2_length in Hops|].
      intros i [k lst] op Hi Hop.
      pose proof (Forall2_lookup_lr _ _ _ _ _ _ Hops Hi Hop) as Hbuilt.
      apply list_elem_of_lookup_2, Hflat in Hi as [-> _]. simpl in *.
      now apply simple_density_of_group. }
    assert (Hop_of : forall r k t,
               (r, k) ∈ placements self -> dict.get m r = Some t ->
               exists i op, fl.*1 !! i = Some k /\ ops !! i = Some op
                            /\ t ∈ simple_density_species op).
    { intros r k t Hr Ht.
      assert (Hk : k ∈ fl.*1) by (apply Hkeys; eauto).
      apply list_elem_of_lookup in Hk as [i Hi].
      destruct (Forall2_lookup_l _ _ _ _ _ Hall Hi) as (op & Hop & Hgroup).
      exists i, op. repeat split; auto.
      apply Hgroup. eauto. }
    assert (Hapart : forall r1 r2 k1 k2 t1 t2,
               (r1, k1) ∈ placements self -> (r2, k2) ∈ placements self ->
               k1 <> k2 ->
               dict.get m r1 = Some t1 -> dict.get m r2 = Some t2 ->
               exists i j op1 op2,
                 i <> j /\ ops !! i = Some op1 /\ ops !! j = Some op2
                 /\ t1 ∈ simple_density_species op1
                 /\ t2 ∈ simple_density_species op2).
    { intros r1 r2 k1 k2 t1 t2 Hr1 Hr2 Hne Ht1 Ht2.
      destruct (Hop_of r1 k1 t1 Hr1 Ht1) as (i & op1 & Hi & Hop1 & Hin1).
      destruct (Hop_of r2 k2 t2 Hr2 Ht2) as (j & op2 & Hj & Hop2 & Hin2).
      exists i, j, op1, op2. repeat split; auto. intros ->. congruence. }
    split; [|split; [|split; [|split]]].
    + exists fl.*1. auto.
    + intros r1 r2 k t1 t2 Hr1 Hr2 Ht1 Ht2.
      destruct (Hop_of r1 k t1 Hr1 Ht1) as (i & op & Hi & Hop & Hin1).
      exists op. split; [now apply list_elem_of_lookup_2 in Hop|]. split; [exact Hin1|].
      destruct (Forall2_lookup_lr _ _ _ _ _ _ Hall Hi Hop) as (_ & _ & _ & Hmem).
      apply Hmem. eauto.
    + exact Hapart.
    + intros op [i Hop]%list_elem_of_lookup.
      destruct (Forall2_lookup_r _ _ _ _ _ Hall Hop) as (k & Hk & Hgroup).
      apply list_elem_of_lookup_2, Hkeys in Hk as [r Hr].
      destruct Hgroup as (_ & _ & Hsome & Hmem).
      destruct (Hsome r Hr) as [t Ht].
      assert (Hin : t ∈ simple_density_species op) by (apply Hmem; eauto).
      intros Hempty. rewrite Hempty in Hin. now apply not_elem_of_empty in Hin.
    + intros r1 r2 l1 l2 p t1 t2 Hr1 Hr2 Hne.
      apply (Hapart r1 r2 (l1, p) (l2, p)); [exact Hr1 | exact Hr2 |].
      intros [= Heq]. apply Hne. now rewrite Heq.
Qed.

Lemma simple_density_one_operation_per_group_witness :
  exists ops op,
    get_operations_simple_density (three_placed None) [(0, 0); (1, 1); (2, 2)]%nat = Ok ops
    /\ op ∈ ops
    /\ 0%nat ∈ simple_density_species op
    /\ 1%nat ∈ simple_density_species op.
Proof.
  pose proof (simple_density_one_operation_per_group (three_placed None)
                [(0, 0); (1, 1); (2, 2)]%nat) as [Hreturns Hgroups].
  destruct Hreturns as [ops Hops].
  { intros r l p Hin.
    repeat (apply elem_of_cons in Hin as [Hin|Hin];
              [injection Hin as -> -> ->; split; eauto|]).
    now apply not_elem_of_nil in Hin. }
  destruct (Hgroups ops Hops) as (_ & Hsame & _).
  destruct (Hsame 0%nat 1%nat (PICMI_PseudoRandomLayout 0 8 None, UniformDistribution 1)
              0%nat 1%nat) as (op & Hop & H0 & H1);
    [apply list_elem_of_here | apply list_elem_of_further, list_elem_of_here
     | reflexivity | reflexivity |].
  exists ops, op. auto.
Defined.

(** C8 (as stated) fails: two species with equal profile whose layouts are
    two objects with equal attributes, 8 particles per cell and no seed, do
    not land in the same operation: the method builds two operations, with
    the same number of particles per cell and the same profile, one for
    each species. *)
Lemma equal_layouts_of_two_objects :
  let self :=
    placed_simulation
      [placed_species "a" (UniformDistribution 1);
       placed_species "b" (UniformDistribution 1)]
      [Some (PICMI_PseudoRandomLayout 0 8 None);
       Some (PICMI_PseudoRandomLayout 1 8 None)] None in
  exists op_a op_b,
    get_operations_simple_density self [(0, 0); (1, 1)]%nat = Ok [op_a; op_b]
    /\ ppc op_a = 8 /\ ppc op_b = 8
    /\ profile op_a = Uniform 1 /\ profile op_b = Uniform 1
    /\ simple_density_species op_a = {[0%nat]}
    /\ simple_density_species op_b = {[1%nat]}.
Proof.
  eexists _, _. split; [vm_compute; reflexivity|].
  repeat split; apply set_eq; intros x; rewrite elem_of_list_to_set; set_solver.
Qed.

(** * Further properties *)

(** ** The reconciliation of time step and CFL number *)

Lemma of_int_raises (n : Z) (e : PyError) :
  pyfloat.of_int n = Raise e -> e = OverflowError.
Proof.
  unfold pyfloat.of_int. destruct (is_infinity _); [|discriminate]. congruence.
Qed.

Lemma truediv_raises (a b : float) (e : PyError) :
  pyfloat.truediv a b = Raise e -> e = ZeroDivisionError.
Proof.
  unfold pyfloat.truediv. destruct (b =? 0)%float; [|discriminate]. congruence.
Qed.

Lemma pow2_raises (M : libm.t) (a : float) (e : PyError) :
  pyfloat.pow2 M a = Raise e -> e = OverflowError.
Proof.
  unfold pyfloat.pow2.
  destruct (is_nan a); [discriminate|].
  destruct (is_infinity a); [discriminate|].
  destruct (a =? 0)%float; [discriminate|].
  destruct (abs a =? 1)%float; [discriminate|].
  destruct (libm.pow M (abs a) 2) as [ix range_error].
  destruct (if range_error then _ else _); [|discriminate]. congruence.
Qed.

Lemma cell_size_raises (upper lower : float) (count : Z) (e : PyError) :
  cell_size upper lower count = Raise e ->
  e = ZeroDivisionError \/ e = OverflowError.
Proof.
  unfold cell_size. destruct (pyfloat.of_int count) as [n|e0] eqn:Hn.
  - rewrite bind_Ok. intros ->%truediv_raises. now left.
  - rewrite bind_Raise. intros [= <-]. apply of_int_raises in Hn. now right.
Qed.

Lemma c_sqrt_inverse_squares_raises (K : constants.t) (M : libm.t) (dx dy dz : float) (e : PyError) :
  c_sqrt_inverse_squares K M dx dy dz = Raise e -> arithmetic_error e.
Proof.
  unfold c_sqrt_inverse_squares, arithmetic_error.
  repeat match goal with
         | |- (?r ≫= _) = Raise _ -> _ =>
           let H := fresh "H" in
           destruct r eqn:H;
           [rewrite bind_Ok
           |rewrite bind_Raise; intros [= <-];
            first [apply pow2_raises in H | apply truediv_raises in H
                  | unfold math.sqrt in H; destruct (_ <? _)%float; [|discriminate];
                    injection H as <-];
            eauto]
         end.
  discriminate.
Qed.

Lemma yee_raises (K : constants.t) (M : libm.t) (self : Simulation) (sv : Solver)
    (g : Cartesian3DGrid) (e : PyError) :
  solver self = Some sv -> method sv = "Yee" -> grid sv = Cartesian3D g ->
  yee_compute_cfl_or_delta_t K M self = Raise e -> arithmetic_error e.
Proof.
  intros Hsolver Hmethod Hgrid.
  destruct (spacings g) as [[[dx dy] dz]|e0] eqn:Hsp.
  - rewrite (yee_after_spacings K M self sv g dx dy dz Hsolver Hmethod Hgrid Hsp).
    destruct (time_step_size self) as [dt|], (cfl sv) as [c|]; try discriminate;
      (destruct (c_sqrt_inverse_squares K M dx dy dz) as [s|e1] eqn:Hs;
       [rewrite bind_Ok
       |rewrite bind_Raise; intros [= <-];
        now apply (c_sqrt_inverse_squares_raises K M dx dy dz)]).
    + destruct (pyfloat.truediv c s) as [q|e1] eqn:Hq.
      * rewrite bind_Ok. destruct (negb _); [|discriminate].
        intros [= <-]. right. right. eauto.
      * rewrite bind_Raise. intros [= <-]. apply truediv_raises in Hq. now left.
    + discriminate.
    + destruct (pyfloat.truediv c s) as [q|e1] eqn:Hq.
      * rewrite bind_Ok. discriminate.
      * rewrite bind_Raise. intros [= <-]. apply truediv_raises in Hq. now left.
  - unfold yee_compute_cfl_or_delta_t. rewrite Hsolver, Hmethod, Hgrid.
    rewrite bool_decide_true by reflexivity. simpl.
    unfold spacings in Hsp.
    destruct (lower_bound g) as [[lx ly] lz], (upper_bound g) as [[ux uy] uz],
      (number_of_cells g) as [[nx ny] nz].
    destruct (cell_size ux lx nx) as [dx|e1] eqn:Hx.
    + rewrite bind_Ok in *. destruct (cell_size uy ly ny) as [dy|e2] eqn:Hy.
      * rewrite bind_Ok in *. destruct (cell_size uz lz nz) as [dz|e3] eqn:Hz.
        -- discriminate.
        -- rewrite bind_Raise. intros [= <-]. apply cell_size_raises in Hz.
           unfold arithmetic_error. tauto.
      * rewrite bind_Raise. intros [= <-]. apply cell_size_raises in Hy.
        unfold arithmetic_error. tauto.
    + rewrite bind_Raise. intros [= <-]. apply cell_size_raises in Hx.
      unfold arithmetic_error. tauto.
Qed.

(** X1: called from the constructor, the reconciliation never fails one of
    its assertions: what it raises is a [ZeroDivisionError], an
    [OverflowError] or a [ValueError]; without a solver, with a method other
    than ["Yee"] or a grid that is not Cartesian and 3-D it does nothing. *)
Theorem init_reconcile_guarded (K : constants.t) (M : libm.t) (self : Simulation) :
  (forall e, init_reconcile K M self = Raise e -> arithmetic_error e)
  /\ (solver self = None -> init_reconcile K M self = Ok self)
  /\ (forall sv, solver self = Some sv -> method sv <> "Yee" ->
                  init_reconcile K M self = Ok self)
  /\ (forall sv, solver self = Some sv -> grid sv = OtherGrid ->
                  init_reconcile K M self = Ok self).
Proof.
  unfold init_reconcile. split; [|split; [|split]].
  - intros e. destruct (solver self) as [sv|] eqn:Hsolver; [|discriminate].
    case_bool_decide as Hmethod; [|discriminate].
    destruct (grid sv) as [g|] eqn:Hgrid; [|discriminate].
    now apply (yee_raises K M self sv g).
  - now intros ->.
  - intros sv -> Hne. rewrite bool_decide_false; [reflexivity | congruence].
  - intros sv -> ->. now case_bool_decide.
Qed.

Lemma init_reconcile_guarded_witness :
  arithmetic_error ZeroDivisionError
  /\ init_reconcile SI example_libm
       (solver_simulation (Some {| method := "EM"; grid := Cartesian3D flat_grid;
                                   cfl := None |}) None)
     = Ok (solver_simulation (Some {| method := "EM"; grid := Cartesian3D flat_grid;
                                      cfl := None |}) None).
Proof.
  split.
  - exact (proj1 (init_reconcile_guarded SI example_libm
                    (solver_simulation (Some {| method := "Yee";
                                                grid := Cartesian3D flat_grid;
                                                cfl := None |}) None))
             ZeroDivisionError eq_refl).
  - exact (proj1 (proj2 (proj2 (init_reconcile_guarded SI example_libm
                    (solver_simulation (Some {| method := "EM";
                                                grid := Cartesian3D flat_grid;
                                                cfl := None |}) None))))
             _ eq_refl ltac:(discriminate)).
Defined.

Lemma yee_Ok_inv (K : constants.t) (M : libm.t) (self self' : Simulation) :
  yee_compute_cfl_or_delta_t K M self = Ok self' ->
  exists sv g dx dy dz,
    solver self = Some sv /\ method sv = "Yee" /\ grid sv = Cartesian3D g
    /\ spacings g = Ok (dx, dy, dz).
Proof.
  intros Hrun. unfold yee_compute_cfl_or_delta_t in Hrun.
  destruct (solver self) as [sv|]; [|discriminate].
  case_bool_decide as Hmethod; [|discriminate]. simpl in Hrun.
  destruct (grid sv) as [g|] eqn:Hgrid; [|discriminate].
  exists sv, g.
  destruct (spacings g) as [[[dx dy] dz]|e] eqn:Hsp; [now eauto 10|].
  exfalso. unfold spacings in Hsp.
  destruct (lower_bound g) as [[lx ly] lz], (upper_bound g) as [[ux uy] uz],
    (number_of_cells g) as [[nx ny] nz].
  destruct (cell_size ux lx nx) as [dx|]; [|discriminate].
  destruct (cell_size uy ly ny) as [dy|]; [|discriminate].
  destruct (cell_size uz lz nz) as [dz|]; discriminate.
Qed.

(** X2: when the reconciliation returns, a time step or CFL number that was
    given is kept as it was, the two are then both set or both unset, the
    method and the grid of the solver are unchanged, and nothing else of the
    simulation is touched. *)
Theorem yee_keeps_what_is_set (K : constants.t) (M : libm.t) (self self' : Simulation) :
  yee_compute_cfl_or_delta_t K M self = Ok self' ->
  exists sv sv',
    solver self = Some sv /\ solver self' = Some sv'
    /\ method sv' = method sv /\ grid sv' = grid sv
    /\ (forall delta_t, time_step_size self = Some delta_t ->
                        time_step_size self' = Some delta_t)
    /\ (forall cfl_, cfl sv = Some cfl_ -> cfl sv' = Some cfl_)
    /\ (is_Some (time_step_size self') <-> is_Some (cfl sv'))
    /\ heap self' = heap self /\ species self' = species self
    /\ layouts self' = layouts self
    /\ max_steps self' = max_steps self /\ max_time self' = max_time self
    /\ picongpu_typical_ppc self' = picongpu_typical_ppc self
    /\ electron_species self' = electron_species self
    /\ logged self' = logged self.
Proof.
  intros Hrun.
  destruct (yee_Ok_inv K M self self' Hrun)
    as (sv & g & dx & dy & dz & Hsolver & Hmethod & Hgrid & Hsp).
  rewrite (yee_after_spacings K M self sv g dx dy dz Hsolver Hmethod Hgrid Hsp) in Hrun.
  exists sv.
  destruct (time_step_size self) as [dt|] eqn:Hdt, (cfl sv) as [c|] eqn:Hcfl.
  - apply bind_Ok_inv in Hrun as (s & _ & Hrun).
    apply bind_Ok_inv in Hrun as (q & _ & Hrun).
    destruct (negb _); [discriminate|]. injection Hrun as <-.
    exists sv. rewrite Hdt, Hcfl. repeat split; eauto.
  - apply bind_Ok_inv in Hrun as (s & _ & Hrun). injection Hrun as <-.
    eexists. simpl. rewrite Hsolver, Hdt. simpl. repeat split; eauto; discriminate.
  - apply bind_Ok_inv in Hrun as (s & _ & Hrun).
    apply bind_Ok_inv in Hrun as (q & _ & Hrun). injection Hrun as <-.
    exists sv. simpl. rewrite Hcfl. repeat split; eauto; discriminate.
  - injection Hrun as <-. exists sv. rewrite Hdt, Hcfl.
    repeat split; auto; intros [? ?]; discriminate.
Qed.

Lemma yee_keeps_what_is_set_witness :
  exists sv sv',
    solver (yee_simulation (Some 1%float) None) = Some sv
    /\ solver (yee_simulation (Some 1%float) (Some unit_cube_factor)) = Some sv'
    /\ method sv' = method sv /\ grid sv' = grid sv.
Proof.
  destruct (yee_keeps_what_is_set SI example_libm (yee_simulation (Some 1%float) None)
              (yee_simulation (Some 1%float) (Some unit_cube_factor)) eq_refl)
    as (sv & sv' & H1 & H2 & H3 & H4 & _).
  exists sv, sv'. auto.
Defined.

(** X3: a reconciliation that starts without a time step can be repeated:
    on the simulation it returned, with the time step it derived from the
    CFL number, it returns again and changes nothing, unless the derived
    time step is not a number. *)
Theorem yee_repeatable_without_time_step (K : constants.t) (M : libm.t) (self self1 : Simulation) :
  time_step_size self = None ->
  yee_compute_cfl_or_delta_t K M self = Ok self1 ->
  (forall delta_t, time_step_size self1 = Some delta_t -> (delta_t =? delta_t)%float = true) ->
  yee_compute_cfl_or_delta_t K M self1 = Ok self1.
Proof.
  intros Hdt Hrun Hnum.
  destruct (yee_Ok_inv K M self self1 Hrun)
    as (sv & g & dx & dy & dz & Hsolver & Hmethod & Hgrid & Hsp).
  pose proof Hrun as Hrun'.
  rewrite (yee_after_spacings K M self sv g dx dy dz Hsolver Hmethod Hgrid Hsp), Hdt in Hrun.
  destruct (cfl sv) as [c|] eqn:Hcfl.
  - apply bind_Ok_inv in Hrun as (s & Hs & Hrun).
    apply bind_Ok_inv in Hrun as (q & Hq & Hrun). injection Hrun as <-.
    rewrite (yee_after_spacings K M (set_time_step_size q self) sv g dx dy dz
               Hsolver Hmethod Hgrid Hsp).
    simpl. rewrite Hcfl, Hs, bind_Ok, Hq, bind_Ok.
    rewrite (Hnum q eq_refl). reflexivity.
  - injection Hrun as <-. exact Hrun'.
Qed.

Lemma yee_repeatable_without_time_step_witness :
  yee_compute_cfl_or_delta_t SI example_libm (yee_simulation (Some 1%float) (Some unit_cube_factor))
  = Ok (yee_simulation (Some 1%float) (Some unit_cube_factor)).
Proof.
  refine (yee_repeatable_without_time_step SI example_libm
           (yee_simulation None (Some unit_cube_factor))
           (yee_simulation (Some 1%float) (Some unit_cube_factor)) eq_refl eq_refl _).
  intros delta_t [= <-]. reflexivity.
Defined.




(** ** The checks of the constructor *)



(** ** The getter of the electron species *)

(** The three ways in which the getter returns. *)
Lemma get_electron_species_Return_inv (K : constants.t) (self self1 : Simulation) (e : ref) :
  get_electron_species K self = Return e self1 ->
  (electron_species self = Some e /\ self1 = self)
  \/ (electron_species self = None /\ all_electrons K self = [e]
      /\ self1 = set_electron_species e self)
  \/ (electron_species self = None /\ all_electrons K self = []
      /\ e = length (heap self)
      /\ exists nm, self1 = with_new_electrons nm self
                    /\ nm ∉ map (fun r => name (deref self r)) (species self)).
Proof.
  unfold get_electron_species. intros Hget.
  destruct (electron_species self) as [e0|] eqn:Hc.
  - injection Hget as <- <-. auto.
  - destruct (all_electrons K self) as [|a [|b l]] eqn:Hall; [| | discriminate].
    + set (names := map (fun r => name (deref self r)) (species self)) in *.
      destruct (first_free_escaped names) as (k & Hk & Hfree & Hbelow).
      pose proof (escape_name_first_free names k Hbelow Hfree (length names) 0
                    ltac:(lia) ltac:(lia)) as Hname.
      simpl escaped in Hname. rewrite Hname in Hget.
      injection Hget as <- <-. right. right. repeat split; auto.
      exists (escaped k). auto.
    + injection Hget as <- <-. auto.
Qed.

(** The getter raises in one way only. *)
Lemma get_electron_species_Raised_inv (K : constants.t) (self self1 : Simulation)
    (err : PyError) :
  get_electron_species K self = Raised err self1 ->
  electron_species self = None
  /\ (2 <= length (all_electrons K self))%nat
  /\ self1 = self
  /\ err = ValueError (Text (ambiguous_message
                               (map (fun r => name (deref self r)) (all_electrons K self)))).
Proof.
  unfold get_electron_species. intros Hget.
  destruct (electron_species self) as [e0|] eqn:Hc; [discriminate|].
  destruct (all_electrons K self) as [|a [|b l]] eqn:Hall.
  - destruct (escape_name _ _ _); discriminate.
  - discriminate.
  - injection Hget as <- <-. simpl. repeat split; auto. lia.
Qed.

Lemma deref_with_new_electrons (nm : string) (self : Simulation) :
  deref (with_new_electrons nm self) (length (heap self)) = new_electrons nm.
Proof. unfold deref. simpl. now apply list_lookup_total_middle. Qed.

(** A returning call of a getter that had nothing memoized gives an
    electron-like species of the simulation it leaves. *)
Lemma get_electron_species_in_species (K : constants.t) (self self1 : Simulation) (e : ref) :
  electron_species self = None ->
  get_electron_species K self = Return e self1 ->
  e ∈ species self1 /\ electron_like K (deref self1 e).
Proof.
  intros Hnone Hget.
  destruct (get_electron_species_Return_inv K self self1 e Hget)
    as [[Hc _] | [(_ & Hall & ->) | (_ & _ & -> & nm & -> & _)]].
  - congruence.
  - assert (Hin : e ∈ all_electrons K self) by (rewrite Hall; apply list_elem_of_here).
    now apply elem_of_all_electrons in Hin.
  - split.
    + simpl. apply elem_of_app. right. apply list_elem_of_here.
    + rewrite deref_with_new_electrons. now left.
Qed.

(** X6: with nothing memoized and exactly one electron-like species in the
    list, the getter returns that species and memoizes it; nothing else
    changes: no species is added and nothing is logged. *)
Theorem single_electron_species_is_used (K : constants.t) (self : Simulation) (e : ref) :
  electron_species self = None ->
  all_electrons K self = [e] ->
  get_electron_species K self = Return e (set_electron_species e self)
  /\ e ∈ species self
  /\ electron_like K (deref self e)
  /\ (forall r, r ∈ species self -> electron_like K (deref self r) -> r = e).
Proof.
  intros Hnone Hall.
  assert (Hget : get_electron_species K self = Return e (set_electron_species e self)).
  { unfold get_electron_species. now rewrite Hnone, Hall. }
  split; [exact Hget|].
  assert (Hin : forall r, r ∈ all_electrons K self <-> r = e).
  { intros r. rewrite Hall. apply list_elem_of_singleton. }
  split; [|split].
  - apply (elem_of_all_electrons K self e). now apply Hin.
  - apply (elem_of_all_electrons K self e). now apply Hin.
  - intros r Hr Hlike. apply Hin. now apply elem_of_all_electrons.
Qed.

Lemma single_electron_species_is_used_witness :
  get_electron_species SI
    (simulation_of [plain "p" None; plain "e" (Some "electron"); ionizable "N" None] None)
  = Return 1%nat
      (set_electron_species 1%nat
         (simulation_of [plain "p" None; plain "e" (Some "electron"); ionizable "N" None]
            None)).
Proof.
  exact (proj1 (single_electron_species_is_used SI
                  (simulation_of [plain "p" None; plain "e" (Some "electron");
                                  ionizable "N" None] None)
                  1%nat eq_refl eq_refl)).
Defined.



(** ** The outcome of the propagation pass *)

Lemma needs_electrons_spec (self : Simulation) (r : ref) :
  needs_electrons (deref self r) = true <-> lacks_electrons self r.
Proof.
  unfold needs_electrons, lacks_electrons.
  now rewrite andb_true_iff, bool_decide_eq_true.
Qed.

Lemma deref_after_getter (K : constants.t) (self self1 : Simulation) (e x : ref) :
  get_electron_species K self = Return e self1 ->
  (x < length (heap self))%nat -> deref self1 x = deref self x.
Proof.
  intros Hget Hx.
  destruct (get_electron_species_extends K self self1 e Hget)
    as (_ & hx & sx & Hheap & _).
  unfold deref. rewrite Hheap. now apply lookup_total_app_l.
Qed.

(** The getter neither creates nor settles a need for electrons. *)
Lemma needs_electrons_after_getter (K : constants.t) (self self1 : Simulation) (e x : ref) :
  get_electron_species K self = Return e self1 ->
  needs_electrons (deref self1 x) = needs_electrons (deref self x).
Proof.
  intros Hget.
  destruct (decide (x < length (heap self))%nat) as [Hx | Hx].
  - now rewrite (deref_after_getter K self self1 e x Hget Hx).
  - assert (Hout : needs_electrons (deref self x) = false).
    { destruct (needs_electrons (deref self x)) eqn:Hneed; [|reflexivity].
      apply needs_electrons_in_heap in Hneed. contradiction. }
    rewrite Hout.
    destruct (get_electron_species_Return_inv K self self1 e Hget)
      as [[_ ->] | [(_ & _ & ->) | (_ & _ & _ & nm & -> & _)]]; try exact Hout.
    destruct (decide (x = length (heap self))) as [-> | Hne].
    + now rewrite deref_with_new_electrons.
    + destruct (needs_electrons (deref (with_new_electrons nm self) x)) eqn:Hneed;
        [|reflexivity].
      apply needs_electrons_in_heap in Hneed. simpl in Hneed.
      rewrite length_app in Hneed. simpl in Hneed. lia.
Qed.

Lemma foldl_assign_electrons_skip (e : ref) (l : list ref) (self : Simulation) :
  Forall (fun r => needs_electrons (deref self r) = false) l ->
  foldl (assign_electrons e) self l = self.
Proof.
  induction 1 as [|a l Ha _ IH]; simpl; [reflexivity|].
  unfold assign_electrons at 2. now rewrite Ha.
Qed.

Lemma same_settings_assign_electrons (e : ref) (l : list ref) :
  forall self : Simulation, same_settings self (foldl (assign_electrons e) self l).
Proof.
  induction l as [|a l IH]; intros self; simpl.
  - now repeat split.
  - specialize (IH (assign_electrons e self a)). unfold same_settings in *.
    destruct IH as (-> & -> & -> & -> & -> & -> & ->).
    unfold assign_electrons. destruct (needs_electrons _); now repeat split.
Qed.

(** What a returning getter keeps. *)
Lemma get_electron_species_keeps (K : constants.t) (self self1 : Simulation) (e : ref) :
  get_electron_species K self = Return e self1 ->
  same_settings self self1
  /\ (aligned self -> aligned self1)
  /\ (valid_species self -> valid_species self1)
  /\ exists sx, species self1 = (species self ++ sx)%list
                /\ layouts self1 = (layouts self ++ map (fun _ => None) sx)%list
                /\ (length sx <= 1)%nat
                /\ length (heap self1) = (length (heap self) + length sx)%nat.
Proof.
  intros Hget.
  destruct (get_electron_species_Return_inv K self self1 e Hget)
    as [[_ ->] | [(_ & _ & ->) | (_ & _ & _ & nm & -> & _)]].
  - split; [now repeat split|]. split; [done|]. split; [done|].
    exists []. simpl. rewrite !app_nil_r. repeat split; lia.
  - split; [now repeat split|]. split; [done|]. split; [done|].
    exists []. simpl. rewrite !app_nil_r. repeat split; lia.
  - split; [now repeat split|]. unfold aligned, valid_species. simpl.
    split; [|split].
    + intros Hal. rewrite !length_app, Hal. reflexivity.
    + intros Hval. apply Forall_app. split.
      * eapply Forall_impl; [exact Hval|]. simpl. intros x Hx.
        rewrite length_app. lia.
      * constructor; [|constructor]. rewrite length_app. simpl. lia.
    + exists [length (heap self)]. simpl. rewrite length_app. auto.
Qed.

(** The three outcomes of the pass: no species needs electrons and nothing
    happens; or the getter is called once, at the first species that needs
    electrons, and either raises, or returns the electrons that are then
    assigned along the species list the getter left. *)
Lemma resolve_electrons_outcome (K : constants.t) (self : Simulation) :
  (Forall (fun r => needs_electrons (deref self r) = false) (species self)
   /\ resolve_electrons K self = Return tt self)
  \/ (Exists (fun r => needs_electrons (deref self r) = true) (species self)
      /\ ((exists err, get_electron_species K self = Raised err self
                       /\ resolve_electrons K self = Raised err self)
          \/ (exists e self1,
                get_electron_species K self = Return e self1
                /\ resolve_electrons K self =
                     Return tt (foldl (assign_electrons e) self1 (species self1))))).
Proof.
  destruct (first_needing self (species self))
    as [Hall | (skip & r0 & post & Hsp & Hskip & Hr0)].
  - left. split; [exact Hall|]. unfold resolve_electrons.
    apply (resolve_electrons_from_skip K (species self) _ [] self); [done | done | lia].
  - right. split.
    { rewrite Hsp. apply Exists_app. right. now constructor. }
    destruct (get_electron_species K self) as [e self1|err self1|] eqn:Hget.
    + right. exists e, self1. split; [reflexivity|].
      destruct (get_electron_species_extends K self self1 e Hget)
        as (Hcache & hx & sx & Hheap & Hsp1 & Hlen & Hfresh).
      unfold resolve_electrons.
      rewrite (resolve_electrons_from_first K skip _ [] self self1 r0 post sx e); auto;
        [|rewrite Hsp, length_app; simpl; lia].
      assert (Hsplit : species self1 = (skip ++ r0 :: (post ++ sx))%list).
      { rewrite Hsp1, Hsp, <- app_assoc. reflexivity. }
      rewrite Hsplit, (foldl_app _ skip), (foldl_assign_electrons_skip e skip self1).
      * assert (Hone : assign_electrons e self1 r0 = set_ionization_electrons r0 e self1).
        { unfold assign_electrons.
          now rewrite (needs_electrons_after_getter K self self1 e r0 Hget), Hr0. }
        simpl foldl. now rewrite Hone.
      * eapply Forall_impl; [exact Hskip|]. simpl. intros x Hx.
        now rewrite (needs_electrons_after_getter K self self1 e x Hget).
    + left. exists err.
      destruct (get_electron_species_Raised_inv K self self1 err Hget) as (_ & _ & -> & _).
      split; [reflexivity|]. unfold resolve_electrons.
      apply (resolve_electrons_from_first_raises K skip _ [] self self r0 post err); auto.
      rewrite Hsp, length_app. simpl. lia.
    + now apply get_electron_species_total in Hget.
Qed.

(** X8: the propagation pass raises exactly when a species of the list has
    ionization models without ionization electrons, nothing is memoized and
    two or more species are electron-like; it then raises the ambiguity
    error of the getter and leaves the simulation as it was. *)
Theorem resolve_electrons_raises_iff (K : constants.t) (self : Simulation) :
  (ambiguous K self ->
   resolve_electrons K self =
     Raised (ValueError (Text (ambiguous_message
                                 (map (fun r => name (deref self r))
                                      (all_electrons K self))))) self)
  /\ (forall err self', resolve_electrons K self = Raised err self' -> ambiguous K self).
Proof.
  destruct (resolve_electrons_outcome K self)
    as [[Hall Hres] | [Hex [(err & Hget & Hres) | (e & self1 & Hget & Hres)]]].
  - split.
    + intros ((r & Hr & Hlacks) & _). apply needs_electrons_spec in Hlacks.
      rewrite Forall_forall in Hall. rewrite (Hall r Hr) in Hlacks. discriminate.
    + intros err self'. rewrite Hres. discriminate.
  - destruct (get_electron_species_Raised_inv K self self err Hget)
      as (Hnone & Hlen & _ & ->).
    split; [intros _; exact Hres|]. intros _ _ _.
    apply Exists_exists in Hex as (r & Hr & Hneed).
    split; [|now split]. exists r. split; [exact Hr|]. now apply needs_electrons_spec.
  - split; [|intros err self'; rewrite Hres; discriminate].
    intros (_ & Hnone & Hlen). unfold get_electron_species in Hget.
    rewrite Hnone in Hget.
    destruct (all_electrons K self) as [|a [|b l]]; simpl in Hlen; try lia.
    discriminate.
Qed.

Lemma resolve_electrons_settled (K : constants.t) (self self' : Simulation) :
  resolve_electrons K self = Return tt self' ->
  Forall (fun r => needs_electrons (deref self' r) = false) (species self').
Proof.
  intros Hrun.
  destruct (resolve_electrons_outcome K self)
    as [[Hall Hres] | [_ [(err & _ & Hres) | (e & self1 & _ & Hres)]]];
    rewrite Hres in Hrun; [injection Hrun as <-; exact Hall | discriminate |].
  injection Hrun as <-. apply Forall_forall. intros r Hr.
  destruct (foldl_assign_electrons_frame e (species self1) self1) as (Hsp & _).
  rewrite Hsp in Hr.
  rewrite deref_foldl_assign_electrons, (bool_decide_true _ Hr). simpl.
  destruct (needs_electrons (deref self1 r)) eqn:Hneed; [|exact Hneed].
  apply needs_electrons_assigned.
Qed.

Lemma resolve_electrons_again (K : constants.t) (self : Simulation) :
  Forall (fun r => needs_electrons (deref self r) = false) (species self) ->
  resolve_electrons K self = Return tt self.
Proof.
  intros Hnone. unfold resolve_electrons.
  apply (resolve_electrons_from_skip K (species self) _ [] self); [done | done | lia].
Qed.

(** X9: when the pass returns, no species of the simulation it leaves has
    ionization models without ionization electrons, the electron species it
    may have created included; a second pass returns at once and changes
    nothing. *)
Theorem resolve_electrons_settles (K : constants.t) (self self' : Simulation) :
  resolve_electrons K self = Return tt self' ->
  (forall r, r ∈ species self' -> ~ lacks_electrons self' r)
  /\ resolve_electrons K self' = Return tt self'.
Proof.
  intros Hrun. pose proof (resolve_electrons_settled K self self' Hrun) as Hnone.
  split.
  - intros r Hr Hlacks. apply needs_electrons_spec in Hlacks.
    rewrite Forall_forall in Hnone. rewrite (Hnone r Hr) in Hlacks. discriminate.
  - now apply resolve_electrons_again.
Qed.

Lemma resolve_electrons_raises_iff_witness :
  resolve_electrons SI
    (simulation_of [plain "a" (Some "electron"); plain "b" (Some "electron");
                    ionizable "N" None] None)
  = Raised (ValueError (Text (ambiguous_message ["a"; "b"])))
      (simulation_of [plain "a" (Some "electron"); plain "b" (Some "electron");
                      ionizable "N" None] None).
Proof.
  refine (proj1 (resolve_electrons_raises_iff SI
                   (simulation_of [plain "a" (Some "electron");
                                   plain "b" (Some "electron");
                                   ionizable "N" None] None)) _).
  split; [|split; [reflexivity | vm_compute; lia]].
  exists 2%nat. split; [|split; reflexivity].
  vm_compute. do 2 apply list_elem_of_further. apply list_elem_of_here.
Defined.

Lemma resolve_electrons_settles_witness :
  exists self',
    resolve_electrons SI (simulation_of [ionizable "O" None; ionizable "N" None] None)
    = Return tt self'
    /\ length (species self') = 3%nat
    /\ resolve_electrons SI self' = Return tt self'.
Proof.
  exists (match resolve_electrons SI
                  (simulation_of [ionizable "O" None; ionizable "N" None] None) with
          | Return _ self' => self'
          | _ => simulation_of [] None
          end).
  split; [vm_compute; reflexivity|]. split; [vm_compute; reflexivity|].
  refine (proj2 (resolve_electrons_settles SI
                   (simulation_of [ionizable "O" None; ionizable "N" None] None) _ _)).
  vm_compute. reflexivity.
Defined.

Lemma same_settings_trans (a b c : Simulation) :
  same_settings a b -> same_settings b c -> same_settings a c.
Proof.
  unfold same_settings.
  intros (-> & -> & -> & -> & -> & -> & ->) (-> & -> & -> & -> & -> & -> & ->).
  now repeat split.
Qed.

(** X10: a pass that returns keeps the settings of the simulation; it
    appends at most one species, with no layout and one new object, and
    nothing else to the species and the layouts, so aligned sequences stay
    aligned and references that were in the heap stay in the heap. *)
Theorem resolve_electrons_keeps_shape (K : constants.t) (self self' : Simulation) :
  resolve_electrons K self = Return tt self' ->
  same_settings self self'
  /\ (aligned self -> aligned self')
  /\ (valid_species self -> valid_species self')
  /\ exists sx, species self' = (species self ++ sx)%list
                /\ layouts self' = (layouts self ++ map (fun _ => None) sx)%list
                /\ (length sx <= 1)%nat
                /\ length (heap self') = (length (heap self) + length sx)%nat.
Proof.
  intros Hrun.
  destruct (resolve_electrons_outcome K self)
    as [[_ Hres] | [_ [(err & _ & Hres) | (e & self1 & Hget & Hres)]]];
    rewrite Hres in Hrun; [injection Hrun as <- | discriminate | injection Hrun as <-].
  - split; [now repeat split|]. split; [done|]. split; [done|].
    exists []. simpl. rewrite !app_nil_r. repeat split; lia.
  - destruct (get_electron_species_keeps K self self1 e Hget)
      as (Hset & Hal & Hval & sx & Hsp & Hlay & Hlen & Hheap).
    destruct (foldl_assign_electrons_frame e (species self1) self1)
      as (Hsp' & Hlay' & _ & _ & Hheap').
    split; [|split; [|split]].
    + eapply same_settings_trans; [exact Hset|]. apply same_settings_assign_electrons.
    + unfold aligned in *. intros Hself. rewrite Hsp', Hlay'. auto.
    + unfold valid_species in *. intros Hself. rewrite Hsp', Hheap'. auto.
    + exists sx. rewrite Hsp', Hlay', Hheap'. auto.
Qed.

Lemma resolve_electrons_keeps_shape_witness :
  exists self',
    resolve_electrons SI (simulation_of [ionizable "O" None; ionizable "N" None] None)
    = Return tt self'
    /\ aligned self' /\ valid_species self'.
Proof.
  exists (match resolve_electrons SI
                  (simulation_of [ionizable "O" None; ionizable "N" None] None) with
          | Return _ self' => self'
          | _ => simulation_of [] None
          end).
  split; [vm_compute; reflexivity|].
  destruct (resolve_electrons_keeps_shape SI
              (simulation_of [ionizable "O" None; ionizable "N" None] None) _
              ltac:(vm_compute; reflexivity)) as (_ & Hal & Hval & _).
  split; [apply Hal; reflexivity|].
  apply Hval. unfold valid_species. simpl. repeat constructor.
Defined.

Lemma electron_like_with_ionization_electrons (K : constants.t) (e : ref) (sp : Species) :
  electron_like K (with_ionization_electrons e sp) <-> electron_like K sp.
Proof. unfold electron_like. simpl. reflexivity. Qed.

(** X11: in a simulation with nothing memoized, a pass that finds a species
    without ionization electrons and returns leaves an electron species
    memoized that is in the species list, is electron-like and is the
    ionization electrons of that species.  The electron species is not
    exempt from the pass: when it has ionization models and no ionization
    electrons itself, it becomes its own ionization electrons. *)
Theorem resolve_electrons_donor (K : constants.t) (self self' : Simulation) (r : ref) :
  electron_species self = None ->
  r ∈ species self ->
  lacks_electrons self r ->
  resolve_electrons K self = Return tt self' ->
  exists e,
    electron_species self' = Some e
    /\ e ∈ species self'
    /\ electron_like K (deref self' e)
    /\ picongpu_ionization_electrons (deref self' r) = Some e
    /\ (lacks_electrons self e ->
        picongpu_ionization_electrons (deref self' e) = Some e).
Proof.
  intros Hnone Hr Hlacks Hrun. apply needs_electrons_spec in Hlacks.
  destruct (resolve_electrons_outcome K self)
    as [[Hall Hres] | [_ [(err & _ & Hres) | (e & self1 & Hget & Hres)]]];
    rewrite Hres in Hrun; [|discriminate|].
  { rewrite Forall_forall in Hall. rewrite (Hall r Hr) in Hlacks. discriminate. }
  injection Hrun as <-. exists e.
  destruct (get_electron_species_in_species K self self1 e Hnone Hget) as [Hin Hlike].
  destruct (get_electron_species_extends K self self1 e Hget)
    as (Hcache & hx & sx & _ & Hsp1 & _).
  destruct (foldl_assign_electrons_frame e (species self1) self1)
    as (Hsp' & _ & Hc' & _).
  assert (Hassigned : forall x, x ∈ species self1 ->
             needs_electrons (deref self x) = true ->
             picongpu_ionization_electrons
               (deref (foldl (assign_electrons e) self1 (species self1)) x) = Some e).
  { intros x Hx Hneed.
    rewrite deref_foldl_assign_electrons, (bool_decide_true _ Hx).
    now rewrite (needs_electrons_after_getter K self self1 e x Hget), Hneed. }
  split; [now rewrite Hc'|]. split; [now rewrite Hsp'|]. split; [|split].
  - rewrite deref_foldl_assign_electrons.
    destruct (_ && _); [now apply electron_like_with_ionization_electrons | exact Hlike].
  - apply Hassigned; [|exact Hlacks]. rewrite Hsp1. apply elem_of_app. now left.
  - intros He%needs_electrons_spec. now apply Hassigned.
Qed.

Lemma resolve_electrons_donor_witness :
  exists self' e,
    resolve_electrons SI
      (simulation_of [{| name := "e"; particle_type := Some "electron";
                         mass := None; charge := None;
                         initial_distribution := None; density_scale := None;
                         picongpu_ionization_models := ["ADK"];
                         picongpu_ionization_electrons := None |}] None)
    = Return tt self'
    /\ electron_species self' = Some e
    /\ picongpu_ionization_electrons (deref self' 0%nat) = Some e.
Proof.
  destruct (resolve_electrons_donor SI
              (simulation_of [{| name := "e"; particle_type := Some "electron";
                                 mass := None; charge := None;
                                 initial_distribution := None; density_scale := None;
                                 picongpu_ionization_models := ["ADK"];
                                 picongpu_ionization_electrons := None |}] None)
              _ 0%nat eq_refl ltac:(vm_compute; apply list_elem_of_here)
              (conj eq_refl eq_refl) ltac:(vm_compute; reflexivity))
    as (e & Hcache & _ & _ & Hr & _).
  eexists _, e. split; [vm_compute; reflexivity|]. split; [exact Hcache | exact Hr].
Defined.

(** ** The filler of the ionization electrons, on every outcome *)

Lemma filled_species_same_models (pyheap : list PySpecies) (t : pyref)
    (models : list IonizationModel) (e : pyref) (x : pyref) :
  ground_state_ionization (pyheap !!! t) = Some models ->
  let pyheap' :=
    <[t := {| py_name := py_name (pyheap !!! t);
              ground_state_ionization :=
                Some (map (with_electron_species e) models) |}]> pyheap in
  py_name (pyheap' !!! x) = py_name (pyheap !!! x)
  /\ ionization_model_names (pyheap' !!! x) = ionization_model_names (pyheap !!! x).
Proof.
  intros Hgsi. simpl.
  destruct (decide (t < length pyheap)%nat) as [Hlt | Hge].
  - destruct (decide (x = t)) as [->|Hne].
    + rewrite list_lookup_total_insert_eq by done. simpl. split; [done|].
      unfold ionization_model_names. rewrite Hgsi. simpl. f_equal.
      rewrite map_map. reflexivity.
    + rewrite list_lookup_total_insert_ne by congruence. done.
  - rewrite list_insert_ge by lia. done.
Qed.

Lemma ionization_model_names_None (sp : PySpecies) :
  ionization_model_names sp = None <-> ground_state_ionization sp = None.
Proof.
  unfold ionization_model_names. destruct (ground_state_ionization sp); simpl.
  - split; discriminate.
  - done.
Qed.

(** The loop of the filler never runs out; whatever its outcome, it leaves
    as many translated species as there were, with their names and the
    names of their models. *)
Lemma fill_items_invariant (self : Simulation) (m items : list (ref * pyref)) :
  forall pyheap : list PySpecies,
    exists pyheap',
      ((exists e, fill_ionization_electrons_items self m items pyheap = Raised e pyheap')
       \/ fill_ionization_electrons_items self m items pyheap = Return tt pyheap')
      /\ length pyheap' = length pyheap
      /\ forall x, py_name (pyheap' !!! x) = py_name (pyheap !!! x)
                   /\ ionization_model_names (pyheap' !!! x)
                      = ionization_model_names (pyheap !!! x).
Proof.
  induction items as [|[p t] items IH]; intros pyheap; simpl.
  - exists pyheap. auto.
  - destruct (ground_state_ionization (pyheap !!! t)) as [models|] eqn:Hgsi; [|apply IH].
    destruct (picongpu_ionization_electrons (deref self p)) as [d|];
      [|exists pyheap; split; [left; eauto | auto]].
    destruct (dict.get m d) as [py_d|];
      [|exists pyheap; split; [left; eauto | auto]].
    destruct (IH (<[t := {| py_name := py_name (pyheap !!! t);
                            ground_state_ionization :=
                              Some (map (with_electron_species py_d) models) |}]> pyheap))
      as (pyheap' & Hrun & Hlen & Hsame).
    exists pyheap'. split; [exact Hrun|]. split.
    + rewrite Hlen. apply length_insert.
    + intros x. destruct (Hsame x) as [-> ->].
      now apply filled_species_same_models.
Qed.

Lemma fill_items_unset (self : Simulation) (m : list (ref * pyref))
    (p : ref) (t : pyref) (post : list (ref * pyref)) (pre : list (ref * pyref)) :
  forall pyheap : list PySpecies,
    Forall (fun it => ground_state_ionization (pyheap !!! it.2) <> None ->
                      exists d py_d,
                        picongpu_ionization_electrons (deref self it.1) = Some d
                        /\ dict.get m d = Some py_d) pre ->
    ground_state_ionization (pyheap !!! t) <> None ->
    picongpu_ionization_electrons (deref self p) = None ->
    exists pyheap',
      fill_ionization_electrons_items self m (pre ++ (p, t) :: post) pyheap
      = Raised none_has_no_name pyheap'.
Proof.
  induction pre as [|[p0 t0] pre IH]; intros pyheap Hpre Ht Hp; simpl.
  - destruct (ground_state_ionization (pyheap !!! t)); [|done].
    rewrite Hp. eauto.
  - inversion Hpre as [|? ? H0 Hpre']; subst. simpl in H0.
    destruct (ground_state_ionization (pyheap !!! t0)) as [models|] eqn:Hgsi;
      [|now apply IH].
    destruct H0 as (d & py_d & -> & ->); [done|].
    pose proof (filled_species_same_kind pyheap t0
                  (map (with_electron_species py_d) models)) as Hkind.
    simpl in Hkind. rewrite Hgsi in Hkind.
    apply IH; [| |exact Hp].
    + eapply Forall_impl; [exact Hpre'|]. intros [p1 t1] H1 Hc. simpl in *.
      apply H1. intros Hn. apply Hc. now apply (Hkind t1).
    + intros Hn. apply Ht. now apply (Hkind t).
Qed.

(** X12: when the first translated species that the filler cannot link
    belongs to a species whose ionization electrons are not set, the filler
    does not raise the [AssertionError] that asks to add the electrons: the
    message of that assertion reads the name of the electrons, and the
    method ends with the [AttributeError] for [None]. *)
Theorem fill_ionization_electrons_unset (self : Simulation)
    (pre post : list (ref * pyref)) (p : ref) (t : pyref) (pyheap : list PySpecies) :
  let m := (pre ++ (p, t) :: post)%list in
  (forall p0 t0, (p0, t0) ∈ pre ->
                 ground_state_ionization (pyheap !!! t0) <> None ->
                 exists d py_d, picongpu_ionization_electrons (deref self p0) = Some d
                                /\ dict.get m d = Some py_d) ->
  ground_state_ionization (pyheap !!! t) <> None ->
  picongpu_ionization_electrons (deref self p) = None ->
  exists pyheap',
    fill_ionization_electrons self m pyheap = Raised none_has_no_name pyheap'
    /\ length pyheap' = length pyheap.
Proof.
  intros m Hpre Ht Hp.
  destruct (fill_items_unset self m p t post pre pyheap) as (pyheap' & Hrun); auto.
  { apply Forall_forall. intros [p0 t0] Hin. now apply Hpre. }
  exists pyheap'. split; [exact Hrun|].
  destruct (fill_items_invariant self m m pyheap) as (h & [[e He] | Hr] & Hlen & _);
    unfold fill_ionization_electrons, m in *; congruence.
Qed.

Lemma fill_ionization_electrons_unset_witness :
  exists pyheap',
    fill_ionization_electrons
      (simulation_of [plain "e" (Some "electron"); ionizable "O" (Some 0%nat);
                      ionizable "N" None] None)
      [(0, 0); (1, 1); (2, 2)]%nat
      [species_get_as_pypicongpu (plain "e" (Some "electron"));
       species_get_as_pypicongpu (ionizable "O" (Some 0%nat));
       species_get_as_pypicongpu (ionizable "N" None)]
    = Raised none_has_no_name pyheap'
    /\ length pyheap' = 3%nat.
Proof.
  refine (fill_ionization_electrons_unset
            (simulation_of [plain "e" (Some "electron"); ionizable "O" (Some 0%nat);
                            ionizable "N" None] None)
            [(0, 0); (1, 1)]%nat [] 2%nat 2%nat
            [species_get_as_pypicongpu (plain "e" (Some "electron"));
             species_get_as_pypicongpu (ionizable "O" (Some 0%nat));
             species_get_as_pypicongpu (ionizable "N" None)] _ _ eq_refl).
  - intros p0 t0 Hin.
    repeat (apply elem_of_cons in Hin as [Hin|Hin];
              [injection Hin as -> ->; vm_compute; intros; eauto; congruence|]).
    now apply not_elem_of_nil in Hin.
  - vm_compute. discriminate.
Defined.

(** X13: the filler always returns or raises, and whatever it does, it
    changes nothing but the electron links: there are as many translated
    species as before, each with its name and with the names of its
    ionization models in their order, and a species without ionization
    constant has none afterwards. *)
Theorem fill_ionization_electrons_only_links (self : Simulation)
    (m : list (ref * pyref)) (pyheap : list PySpecies) :
  exists pyheap',
    ((exists e, fill_ionization_electrons self m pyheap = Raised e pyheap')
     \/ fill_ionization_electrons self m pyheap = Return tt pyheap')
    /\ length pyheap' = length pyheap
    /\ map py_name pyheap' = map py_name pyheap
    /\ map ionization_model_names pyheap' = map ionization_model_names pyheap
    /\ forall x, ground_state_ionization (pyheap !!! x) = None ->
                 ground_state_ionization (pyheap' !!! x) = None.
Proof.
  destruct (fill_items_invariant self m m pyheap) as (pyheap' & Hrun & Hlen & Hsame).
  exists pyheap'. split; [exact Hrun|]. split; [exact Hlen|].
  assert (Hmap : forall (A : Type) (f : PySpecies -> A),
             (forall x, f (pyheap' !!! x) = f (pyheap !!! x)) ->
             map f pyheap' = map f pyheap).
  { intros A f Hf. apply list_eq. intros i.
    change (map f pyheap') with (f <$> pyheap').
    change (map f pyheap) with (f <$> pyheap).
    rewrite !list_lookup_fmap.
    destruct (decide (i < length pyheap)%nat) as [Hi | Hi].
    - destruct (lookup_lt_is_Some_2 pyheap i Hi) as [a Ha].
      destruct (lookup_lt_is_Some_2 pyheap' i ltac:(lia)) as [b Hb].
      rewrite Ha, Hb. simpl. f_equal.
      specialize (Hf i). rewrite !list_lookup_total_alt, Ha, Hb in Hf. exact Hf.
    - rewrite !lookup_ge_None_2 by lia. reflexivity. }
  split; [|split].
  - apply Hmap. intros x. apply Hsame.
  - apply Hmap. intros x. apply Hsame.
  - intros x Hx. apply ionization_model_names_None.
    rewrite (proj2 (Hsame x)). now apply ionization_model_names_None.
Qed.

(** ** The checks and the operations of the initialization plan *)

Lemma check_layouts_cons_ok (self : Simulation) (item : option Layout * ref)
    (items : list (option Layout * ref)) :
  layout_matches_profile self item ->
  check_layouts self (item :: items) = check_layouts self items.
Proof.
  destruct item as [layout r]. unfold layout_matches_profile. simpl.
  intros [Hboth Hratio].
  destruct layout as [l|], (initial_distribution (deref self r)) as [p|]; simpl.
  - destruct (density_scale (deref self r)); reflexivity.
  - destruct (proj1 Hboth ltac:(eauto)) as [? [=]].
  - destruct (proj2 Hboth ltac:(eauto)) as [? [=]].
  - destruct (density_scale (deref self r)); [|reflexivity].
    destruct (Hratio ltac:(eauto)) as [? [=]].
Qed.

Lemma check_layouts_cons_bad (self : Simulation) (item : option Layout * ref)
    (items : list (option Layout * ref)) :
  ~ layout_matches_profile self item ->
  check_layouts self (item :: items)
  = Raise (AssertionError (Some (check_message self item))).
Proof.
  destruct item as [layout r]. unfold layout_matches_profile, check_message. simpl.
  intros Hbad.
  destruct layout as [l|], (initial_distribution (deref self r)) as [p|]; simpl;
    try reflexivity.
  - exfalso. apply Hbad. split; [split; eauto | eauto].
  - destruct (density_scale (deref self r)) as [ratio|]; simpl.
    + reflexivity.
    + exfalso. apply Hbad. split; [split; intros [? [=]] | intros [? [=]]].
Qed.

Lemma layout_matches_profile_dec (self : Simulation) (item : option Layout * ref) :
  {layout_matches_profile self item} + {~ layout_matches_profile self item}.
Proof.
  destruct item as [layout r]. unfold layout_matches_profile. simpl.
  destruct layout as [l|], (initial_distribution (deref self r)) as [p|],
    (density_scale (deref self r)) as [s|];
    first [left; split; [split; eauto | eauto]; fail
          | left; split; [split; intros [? [=]] | intros [? [=]]]; fail
          | right; intros [[H1 H2] H3];
            first [destruct (H1 (ex_intro _ _ eq_refl)) as [? [=]]
                  | destruct (H2 (ex_intro _ _ eq_refl)) as [? [=]]
                  | destruct (H3 (ex_intro _ _ eq_refl)) as [? [=]]]].
Qed.

(** X14: the checks of the init manager pass exactly when every species
    has both layout and profile or neither, and a density scale only with a
    layout; the first species that does not makes them raise an
    [AssertionError]: the one about the density scale when the species has
    neither layout nor profile, the one about layout and profile
    otherwise. *)
Theorem check_layouts_iff (self : Simulation) (items : list (option Layout * ref)) :
  (check_layouts self items = Ok tt <-> Forall (layout_matches_profile self) items)
  /\ forall pre item post,
       items = (pre ++ item :: post)%list ->
       Forall (layout_matches_profile self) pre ->
       ~ layout_matches_profile self item ->
       check_layouts self items
       = Raise (AssertionError (Some (check_message self item))).
Proof.
  split.
  - induction items as [|item items IH].
    + split; [constructor | reflexivity].
    + split.
      * intros Hrun.
        assert (Hitem : layout_matches_profile self item).
        { destruct (layout_matches_profile_dec self item) as [H | H]; [exact H|].
          rewrite (check_layouts_cons_bad self item items H) in Hrun. discriminate. }
        constructor; [exact Hitem|]. apply IH.
        now rewrite <- (check_layouts_cons_ok self item items Hitem).
      * inversion 1 as [|? ? Hitem Hrest]; subst.
        rewrite (check_layouts_cons_ok self item items Hitem). now apply IH.
  - intros pre item post -> Hpre Hbad. induction Hpre as [|a pre Ha _ IH]; simpl app.
    + now apply check_layouts_cons_bad.
    + now rewrite (check_layouts_cons_ok self a _ Ha).
Qed.

Lemma check_layouts_iff_witness :
  check_layouts
    (simulation_of [plain "a" None; {| name := "b"; particle_type := None; mass := None;
                                       charge := None; initial_distribution := None;
                                       density_scale := Some 2;
                                       picongpu_ionization_models := [];
                                       picongpu_ionization_electrons := None |}] None)
    [(None, 0%nat); (None, 1%nat)]
  = Raise (AssertionError
             (Some "layout and initial distribution must be set to use density scale")).
Proof.
  refine (proj2 (check_layouts_iff _ _) [(None, 0%nat)] (None, 1%nat) [] eq_refl _ _).
  - constructor; [|constructor]. split; [split|]; intros [? [=]].
  - intros [_ H]. destruct (H (ex_intro _ _ eq_refl)) as [? [=]].
Defined.

Lemma bind_Raise_inv {A B} (f : A -> result B) (r : result A) (e : PyError) :
  (r ≫= f) = Raise e -> r = Raise e \/ exists a, r = Ok a /\ f a = Raise e.
Proof. destruct r as [a|e']; [eauto | intros [= ->]; auto]. Qed.

Lemma translated_iff (m : list (ref * pyref)) (lst : list ref) (trs : list pyref) :
  translated m lst = Ok trs <-> Forall2 (fun r t => dict.get m r = Some t) lst trs.
Proof.
  split; [apply translated_Ok|].
  induction 1 as [|r t lst trs Hr _ IH]; simpl; [reflexivity|].
  now rewrite Hr, IH.
Qed.

Lemma translated_Raise (m : list (ref * pyref)) (lst : list ref) (e : PyError) :
  translated m lst = Raise e ->
  e = KeyError /\ exists r, r ∈ lst /\ dict.get m r = None.
Proof.
  induction lst as [|r lst IH]; simpl; [discriminate|].
  destruct (dict.get m r) as [t|] eqn:Hr.
  - intros [H | (trs & _ & [=])]%bind_Raise_inv.
    destruct (IH H) as (-> & r' & Hin & Hnone).
    split; [reflexivity|]. exists r'. split; [now apply list_elem_of_further | exact Hnone].
  - intros [= <-]. split; [reflexivity|]. exists r. split; [apply list_elem_of_here | exact Hr].
Qed.

(** The loop over the species without layout and profile is the lookup of
    these species, one after the other. *)
Lemma not_placed_of_unplaced (self : Simulation) (m : list (ref * pyref))
    (items : list (ref * option Layout)) :
  not_placed_of self m items =
    (trs ← translated m (omap (unplaced_item self) items); mret (map OpNotPlaced trs)).
Proof.
  induction items as [|[r layout] items IH]; [reflexivity|].
  simpl not_placed_of. unfold omap; fold (omap (unplaced_item self) items).
  unfold unplaced_item at 1. simpl.
  destruct layout as [l|], (initial_distribution (deref self r)) as [p|]; try exact IH.
  simpl. destruct (dict.get m r) as [t|]; [|reflexivity].
  rewrite IH. destruct (translated m _); reflexivity.
Qed.

(** X15: the operations for the species that are not placed are one
    [NotPlaced] for every position of the species list that has neither
    layout nor profile, in the order of the list, each with the translation
    the mapping holds for the species; a species registered twice without
    layout gets two.  The method raises, a [KeyError], exactly when one of
    these species is no key of the mapping. *)
Theorem not_placed_one_per_unplaced (self : Simulation) (m : list (ref * pyref)) :
  (forall ops,
      get_operations_not_placed self m = Ok ops <->
      exists trs, Forall2 (fun r t => dict.get m r = Some t) (unplaced self) trs
                  /\ ops = map OpNotPlaced trs)
  /\ (forall e,
        get_operations_not_placed self m = Raise e <->
        e = KeyError /\ exists r, r ∈ unplaced self /\ dict.get m r = None).
Proof.
  unfold get_operations_not_placed. rewrite not_placed_of_unplaced. fold (unplaced self).
  split.
  - intros ops. split.
    + intros (trs & Htrs & [= <-])%bind_Ok_inv. exists trs.
      split; [now apply translated_iff | reflexivity].
    + intros (trs & Htrs%translated_iff & ->). now rewrite Htrs.
  - intros e. split.
    + intros [H | (trs & _ & [=])]%bind_Raise_inv. now apply translated_Raise.
    + intros (-> & r & Hin & Hnone).
      destruct (translated m (unplaced self)) as [trs|e] eqn:Htrs.
      * apply translated_iff in Htrs. exfalso.
        apply list_elem_of_lookup in Hin as (i & Hi).
        destruct (Forall2_lookup_l _ _ _ _ _ Htrs Hi) as (t & _ & Ht). congruence.
      * apply translated_Raise in Htrs as [-> _]. reflexivity.
Qed.

Lemma omap_cons_Some {A B} (f : A -> option B) (x : A) (y : B) (l : list A) :
  f x = Some y -> omap f (x :: l) = y :: omap f l.
Proof.
  intros H.
  change (omap f (x :: l)) with (match f x with Some y => y :: omap f l | None => omap f l end).
  now rewrite H.
Qed.

Lemma omap_cons_None {A B} (f : A -> option B) (x : A) (l : list A) :
  f x = None -> omap f (x :: l) = omap f l.
Proof.
  intros H.
  change (omap f (x :: l)) with (match f x with Some y => y :: omap f l | None => omap f l end).
  now rewrite H.
Qed.

Lemma placed_or_unplaced_count (self : Simulation) (sp : list ref) :
  forall lay : list (option Layout),
    Forall (layout_matches_profile self) (zip lay sp) ->
    (length (omap (placement self) (zip sp lay))
     + length (omap (unplaced_item self) (zip sp lay)) = length (zip sp lay))%nat.
Proof.
  induction sp as [|r sp IH]; intros [|l lay] Hall; try reflexivity.
  simpl zip in *. inversion Hall as [|? ? [Hboth Hratio] Hrest]; subst. simpl in Hboth.
  specialize (IH lay Hrest).
  destruct l as [l|], (initial_distribution (deref self r)) as [p|] eqn:Hp.
  - rewrite (omap_cons_Some (placement self) _ (r, (l, p)))
      by (unfold placement; simpl; now rewrite Hp).
    rewrite (omap_cons_None (unplaced_item self)) by reflexivity.
    simpl length. lia.
  - destruct (proj1 Hboth (ex_intro _ _ eq_refl)) as [? [=]].
  - destruct (proj2 Hboth (ex_intro _ _ eq_refl)) as [? [=]].
  - rewrite (omap_cons_None (placement self)) by reflexivity.
    rewrite (omap_cons_Some (unplaced_item self) _ r)
      by (unfold unplaced_item; simpl; now rewrite Hp).
    simpl length. lia.
Qed.

Lemma check_layouts_Ok (self : Simulation) (items : list (option Layout * ref)) :
  check_layouts self items = Ok tt <-> Forall (layout_matches_profile self) items.
Proof.
  induction items as [|item items IH].
  - split; [constructor | reflexivity].
  - destruct (layout_matches_profile_dec self item) as [Hitem | Hitem].
    + rewrite (check_layouts_cons_ok self item items Hitem), IH. split.
      * now constructor.
      * now inversion 1.
    + rewrite (check_layouts_cons_bad self item items Hitem). split; [discriminate|].
      now inversion 1.
Qed.

(** X16: in a simulation with as many layouts as species that passes the
    checks of the init manager, every position of the species list is
    either placed, and then part of exactly one group of the simple density
    operations, or not placed, and then the subject of a [NotPlaced]
    operation: the placed and the not placed species together are as many
    as the species. *)
Theorem placed_or_not_placed (self : Simulation) :
  aligned self ->
  check_layouts self (zip (layouts self) (species self)) = Ok tt ->
  (length (placements self) + length (unplaced self) = length (species self))%nat
  /\ forall i r,
       species self !! i = Some r ->
       exists layout,
         layouts self !! i = Some layout
         /\ (is_Some (placement self (r, layout)) <-> unplaced_item self (r, layout) = None).
Proof.
  intros Hal Hcheck. apply check_layouts_Ok in Hcheck. split.
  - unfold placements, unplaced.
    rewrite (placed_or_unplaced_count self (species self) (layouts self) Hcheck).
    rewrite length_zip_with. unfold aligned in Hal. lia.
  - intros i r Hr.
    destruct (lookup_lt_is_Some_2 (layouts self) i) as [layout Hl].
    { unfold aligned in Hal. rewrite <- Hal. now apply lookup_lt_Some in Hr. }
    exists layout. split; [exact Hl|].
    assert (Hitem : layout_matches_profile self (layout, r)).
    { rewrite Forall_lookup in Hcheck. apply (Hcheck i).
      apply lookup_zip_with_Some. now exists layout, r. }
    destruct Hitem as [Hboth _]. unfold placement, unplaced_item. simpl in *.
    destruct layout as [l|], (initial_distribution (deref self r)) as [p|]; simpl.
    + split; eauto.
    + destruct (proj1 Hboth (ex_intro _ _ eq_refl)) as [? [=]].
    + destruct (proj2 Hboth (ex_intro _ _ eq_refl)) as [? [=]].
    + split; [intros [? [=]] | discriminate].
Qed.

Lemma placed_or_not_placed_witness :
  (length (placements (three_placed None)) + length (unplaced (three_placed None))
   = length (species (three_placed None)))%nat.
Proof.
  exact (proj1 (placed_or_not_placed (three_placed None) eq_refl eq_refl)).
Defined.

Lemma not_placed_one_per_unplaced_witness :
  get_operations_not_placed
    (simulation_of [plain "a" None; placed_species "b" (UniformDistribution 1);
                    plain "c" None] None)
    [(0, 0); (1, 1); (2, 2)]%nat
  = Ok [OpNotPlaced 0%nat; OpNotPlaced 2%nat].
Proof.
  apply (proj1 (not_placed_one_per_unplaced _ _)).
  exists [0; 2]%nat. split; [|reflexivity].
  repeat constructor.
Defined.

(** ** The species behind the operations *)

Lemma elem_of_placements (self : Simulation) (r : ref) (l : Layout) (p : Profile) :
  (r, (l, p)) ∈ placements self ->
  r ∈ species self /\ Some l ∈ layouts self
  /\ initial_distribution (deref self r) = Some p.
Proof.
  unfold placements. rewrite list_elem_of_omap.
  intros ([r0 lay] & Hin & Hpl). unfold placement in Hpl. simpl in Hpl.
  destruct lay as [l0|]; [|discriminate].
  destruct (initial_distribution (deref self r0)) as [p0|] eqn:Hp; [|discriminate].
  injection Hpl as -> -> ->.
  apply elem_of_zip_with in Hin as (x & y & [= <- <-] & Hx & Hy). auto.
Qed.

Lemma elem_of_unplaced (self : Simulation) (r : ref) :
  r ∈ unplaced self -> r ∈ species self.
Proof.
  unfold unplaced. rewrite list_elem_of_omap.
  intros ([r0 lay] & Hin & Hun). unfold unplaced_item in Hun. simpl in Hun.
  destruct lay; [discriminate|].
  destruct (initial_distribution (deref self r0)); [discriminate|].
  injection Hun as ->.
  apply elem_of_zip_with in Hin as (x & y & [= <- <-] & Hx & Hy). auto.
Qed.

Lemma operations_of_groups_Raise (m : list (ref * pyref))
    (groups : list ((Layout * Profile) * list ref)) (e : PyError) :
  operations_of_groups m groups = Raise e ->
  exists g, g ∈ groups /\ simple_density_of m g.1.1 g.1.2 g.2 = Raise e.
Proof.
  induction groups as [|g groups IH]; simpl; [discriminate|].
  intros [H | (op & Hop & [H | (ops & _ & [=])]%bind_Raise_inv)]%bind_Raise_inv.
  - exists g. split; [apply list_elem_of_here | exact H].
  - destruct (IH H) as (g' & Hin & Hg'). exists g'.
    split; [now apply list_elem_of_further | exact Hg'].
Qed.

Lemma simple_density_of_Raise (m : list (ref * pyref)) (l : Layout) (p : Profile)
    (lst : list ref) (e : PyError) :
  simple_density_of m l p lst = Raise e ->
  (e = AssertionError None /\ exists object g, l = PICMI_GriddedLayout object g)
  \/ (e = KeyError /\ exists r, r ∈ lst /\ dict.get m r = None).
Proof.
  unfold simple_density_of. destruct l as [n seed | g].
  - intros [H | (trs & _ & [=])]%bind_Raise_inv. right. now apply translated_Raise.
  - intros [= <-]. left. eauto.
Qed.

(** X17: the simple density operations fail in two ways only: with an
    [AssertionError] without message when a placed species has a layout
    that is not a pseudo-random layout, and with a [KeyError] when a placed
    species is no key of the mapping.  Species that are not placed, and the
    layouts of species without profile, never make the method raise. *)
Theorem simple_density_errors (self : Simulation) (m : list (ref * pyref)) (e : PyError) :
  get_operations_simple_density self m = Raise e ->
  (e = AssertionError None
   /\ exists r object g p, (r, (PICMI_GriddedLayout object g, p)) ∈ placements self)
  \/ (e = KeyError
      /\ exists r k, (r, k) ∈ placements self /\ dict.get m r = None).
Proof.
  unfold get_operations_simple_density. rewrite simple_density_by_layout_groups.
  intros ([[l p] lst] & Hin & Hg)%operations_of_groups_Raise. simpl in Hg.
  pose proof (flat_groups_grouped _ _ (grouped_placements self)) as [_ Hflat].
  apply Hflat in Hin as [-> Hne].
  apply simple_density_of_Raise in Hg as [(-> & object & g & ->) | (-> & r & Hr & Hnone)].
  - left. split; [reflexivity|].
    destruct (group_of (placements self) (PICMI_GriddedLayout object g, p)) as [|r lst] eqn:Hgr;
      [done|].
    exists r, object, g, p. apply elem_of_group_of. rewrite Hgr. apply list_elem_of_here.
  - right. split; [reflexivity|]. exists r, (l, p).
    split; [now apply elem_of_group_of | exact Hnone].
Qed.

Lemma simple_density_errors_witness :
  (AssertionError None = AssertionError None
   /\ exists r object g p,
        (r, (PICMI_GriddedLayout object g, p))
        ∈ placements (placed_simulation [placed_species "a" (UniformDistribution 1)]
                        [Some (PICMI_GriddedLayout 0 (1, 1, 1))] None))
  \/ (AssertionError None = KeyError
      /\ exists r k,
           (r, k) ∈ placements (placed_simulation [placed_species "a" (UniformDistribution 1)]
                                  [Some (PICMI_GriddedLayout 0 (1, 1, 1))] None)
           /\ dict.get [(0, 0)]%nat r = None).
Proof.
  exact (simple_density_errors
           (placed_simulation [placed_species "a" (UniformDistribution 1)]
              [Some (PICMI_GriddedLayout 0 (1, 1, 1))] None)
           [(0, 0)]%nat (AssertionError None) eq_refl).
Defined.

(** ** The init manager *)

Lemma translate_all_sound (self : Simulation) (todo : list ref) :
  forall (done : list ref) (m : list (ref * pyref)) (all_ : list pyref)
         (pyheap : list PySpecies) m' all' pyheap',
    translate_all self todo m all_ pyheap = (m', all', pyheap') ->
    pyheap = map (fun r => species_get_as_pypicongpu (deref self r)) done ->
    all_ = seq 0 (length done) ->
    (forall (r : ref) (t : pyref), (r, t) ∈ m -> done !! t = Some r) ->
    pyheap' = map (fun r => species_get_as_pypicongpu (deref self r)) (done ++ todo)%list
    /\ all' = seq 0 (length (done ++ todo)%list)
    /\ (forall (r : ref) (t : pyref), (r, t) ∈ m' -> (done ++ todo)%list !! t = Some r).
Proof.
  induction todo as [|r todo IH]; intros done m all_ pyheap m' all' pyheap' Hrun Hheap Hall Hm.
  - injection Hrun as <- <- <-. rewrite app_nil_r. auto.
  - simpl in Hrun.
    replace (done ++ r :: todo)%list with ((done ++ [r]) ++ todo)%list
      by (rewrite <- app_assoc; reflexivity).
    apply (IH (done ++ [r])%list _ _ _ _ _ _ Hrun).
    + rewrite Hheap, map_app. reflexivity.
    + rewrite Hall, length_app, seq_app, Hheap, length_map. reflexivity.
    + intros r0 t0 [[-> ->] | Hin]%dict_elem_of_set.
      * rewrite Hheap, length_map. now apply list_lookup_middle.
      * apply lookup_app_l_Some. now apply Hm.
Qed.

(** The mapping, the list and the heap the init manager builds from the
    species list. *)
Lemma translate_all_species (self : Simulation) m all_ pyheap :
  translate_all self (species self) [] [] [] = (m, all_, pyheap) ->
  pyheap = translations self
  /\ all_ = seq 0 (length (species self))
  /\ (forall (r : ref) (t : pyref), (r, t) ∈ m -> species self !! t = Some r)
  /\ (forall r, r ∈ species self -> is_Some (dict.get m r))
  /\ NoDup m.*2
  /\ Forall (fun it => (it.2 < length pyheap)%nat) m.
Proof.
  intros Hrun.
  destruct (translate_all_sound self (species self) [] [] [] [] m all_ pyheap Hrun)
    as (Hheap & Hall & Hm); try reflexivity.
  { intros r t Hin. now apply not_elem_of_nil in Hin. }
  destruct (translate_all_distinct self (species self) [] [] [] m all_ pyheap Hrun)
    as (Hnd & Hvalid & Hkeys); [constructor | constructor |].
  repeat split; auto.
Qed.

Lemma fill_items_Raised_inv (self : Simulation) (m items : list (ref * pyref)) :
  forall (pyheap : list PySpecies) (e : PyError) (h : list PySpecies),
    fill_ionization_electrons_items self m items pyheap = Raised e h ->
    exists p t,
      (p, t) ∈ items
      /\ ground_state_ionization (pyheap !!! t) <> None
      /\ ((picongpu_ionization_electrons (deref self p) = None /\ e = none_has_no_name)
          \/ exists d, picongpu_ionization_electrons (deref self p) = Some d
                       /\ dict.get m d = None
                       /\ e = AssertionError
                                (Some (explicitly_added_message (name (deref self d))
                                         (py_name (pyheap !!! t))))).
Proof.
  induction items as [|[p t] items IH]; intros pyheap e h Hrun; simpl in Hrun;
    [discriminate|].
  destruct (ground_state_ionization (pyheap !!! t)) as [models|] eqn:Hgsi.
  - destruct (picongpu_ionization_electrons (deref self p)) as [d|] eqn:Hd.
    + destruct (dict.get m d) as [py_d|] eqn:Hget.
      * pose proof (filled_species_same_kind pyheap t
                      (map (with_electron_species py_d) models)) as Hkind.
        simpl in Hkind. rewrite Hgsi in Hkind.
        destruct (IH _ _ _ Hrun) as (p' & t' & Hin & Hc & Hcases).
        exists p', t'. split; [now apply list_elem_of_further|]. split.
        -- intros Hn. apply Hc. now apply (Hkind t').
        -- now rewrite (proj1 (Hkind t' ltac:(discriminate))) in Hcases.
      * injection Hrun as <- <-. exists p, t.
        split; [apply list_elem_of_here|]. split; [now rewrite Hgsi|].
        right. exists d. auto.
    + injection Hrun as <- <-. exists p, t.
      split; [apply list_elem_of_here|]. split; [now rewrite Hgsi|]. now left.
  - destruct (IH _ _ _ Hrun) as (p' & t' & Hin & Hrest).
    exists p', t'. split; [now apply list_elem_of_further | exact Hrest].
Qed.

Lemma fill_items_Return_inv (self : Simulation) (m items : list (ref * pyref)) :
  forall (pyheap h : list PySpecies),
    fill_ionization_electrons_items self m items pyheap = Return tt h ->
    Forall (fun it => ground_state_ionization (pyheap !!! it.2) <> None ->
                      exists d py_d,
                        picongpu_ionization_electrons (deref self it.1) = Some d
                        /\ dict.get m d = Some py_d) items.
Proof.
  induction items as [|[p t] items IH]; intros pyheap h Hrun; [constructor|].
  simpl in Hrun.
  destruct (ground_state_ionization (pyheap !!! t)) as [models|] eqn:Hgsi.
  - destruct (picongpu_ionization_electrons (deref self p)) as [d|] eqn:Hd;
      [|discriminate].
    destruct (dict.get m d) as [py_d|] eqn:Hget; [|discriminate].
    pose proof (filled_species_same_kind pyheap t
                  (map (with_electron_species py_d) models)) as Hkind.
    simpl in Hkind. rewrite Hgsi in Hkind.
    constructor; [simpl; eauto|].
    eapply Forall_impl; [exact (IH _ _ Hrun)|]. intros [p0 t0] H0 Hc. simpl in *.
    apply H0. intros Hn. apply Hc. now apply (Hkind t0).
  - constructor; [simpl; intros Hc; now rewrite Hgsi in Hc|]. exact (IH _ _ Hrun).
Qed.

Lemma check_layouts_Raise (self : Simulation) (items : list (option Layout * ref))
    (e : PyError) :
  check_layouts self items = Raise e ->
  exists item, item ∈ items /\ ~ layout_matches_profile self item
               /\ e = AssertionError (Some (check_message self item)).
Proof.
  induction items as [|item items IH]; [discriminate|].
  destruct (layout_matches_profile_dec self item) as [Hitem | Hitem].
  - rewrite (check_layouts_cons_ok self item items Hitem). intros Hrun.
    destruct (IH Hrun) as (item' & Hin & Hrest). exists item'.
    split; [now apply list_elem_of_further | exact Hrest].
  - rewrite (check_layouts_cons_bad self item items Hitem). intros [= <-].
    exists item. split; [apply list_elem_of_here | auto].
Qed.

Lemma individual_Raise {get_independent_operations : Species -> pyref -> result (list Operation)}
    (self : Simulation) (items : list (ref * pyref)) (e : PyError) :
  get_operations_from_individual_species get_independent_operations self items = Raise e ->
  exists r t, (r, t) ∈ items /\ get_independent_operations (deref self r) t = Raise e.
Proof.
  induction items as [|[r t] items IH]; simpl; [discriminate|].
  intros [H | (ops & _ & [H | (more & _ & [=])]%bind_Raise_inv)]%bind_Raise_inv.
  - exists r, t. split; [apply list_elem_of_here | exact H].
  - destruct (IH H) as (r' & t' & Hin & Hrest). exists r', t'.
    split; [now apply list_elem_of_further | exact Hrest].
Qed.

Lemma gsi_translation (sp : Species) :
  ground_state_ionization (species_get_as_pypicongpu sp) <> None <->
  has_ionizers sp = true.
Proof.
  unfold species_get_as_pypicongpu. simpl. destruct (has_ionizers sp).
  - split; [reflexivity | discriminate].
  - split; [contradiction | discriminate].
Qed.

Lemma translations_lookup (self : Simulation) (t : pyref) (r : ref) :
  species self !! t = Some r ->
  translations self !!! t = species_get_as_pypicongpu (deref self r).
Proof.
  intros Ht. apply list_lookup_total_correct.
  unfold translations. change (map ?f ?l) with (f <$> l).
  unfold pyref in *. now rewrite list_lookup_fmap, Ht.
Qed.

(** X18: the init manager fails in these ways only: without message when
    species and layouts differ in number or a placed species has a layout
    that is not pseudo-random; with the message of the layout check that a
    species fails; with the [AttributeError] for [None] when a species of
    the list has ionization models and no ionization electrons; with the
    request to add the electrons when the ionization electrons of a species
    are not in the species list; or with what the operations of one of the
    species raise.  The lookups of translated species never fail. *)
Theorem get_init_manager_errors
    (get_independent_operations : Species -> pyref -> result (list Operation))
    (self : Simulation) (e : PyError) (h : list PySpecies) :
  get_init_manager get_independent_operations self = Raised e h ->
  (e = AssertionError None
   /\ (~ aligned self
       \/ exists r object g p, (r, (PICMI_GriddedLayout object g, p)) ∈ placements self))
  \/ (exists item, item ∈ zip (layouts self) (species self)
                   /\ ~ layout_matches_profile self item
                   /\ e = AssertionError (Some (check_message self item)))
  \/ (e = none_has_no_name /\ exists r, r ∈ species self /\ lacks_electrons self r)
  \/ (exists r d, r ∈ species self
                  /\ has_ionizers (deref self r) = true
                  /\ picongpu_ionization_electrons (deref self r) = Some d
                  /\ (d ∉ species self)
                  /\ e = AssertionError
                           (Some (explicitly_added_message (name (deref self d))
                                    (name (deref self r)))))
  \/ (exists r t, r ∈ species self
                  /\ get_independent_operations (deref self r) t = Raise e).
Proof.
  unfold get_init_manager.
  destruct (Nat.eqb (length (species self)) (length (layouts self))) eqn:Hlen; simpl.
  2: { intros [= <- _]. left. split; [reflexivity|]. left.
       unfold aligned. now apply Nat.eqb_neq. }
  destruct (check_layouts self (zip (layouts self) (species self))) as [[]|e0] eqn:Hcheck.
  2: { intros [= <- _]. right. left. now apply check_layouts_Raise. }
  destruct (translate_all self (species self) [] [] []) as [[m all_] pyheap] eqn:Htr.
  destruct (translate_all_species self m all_ pyheap Htr)
    as (Hheap & _ & Hm & Hkeys & _ & _).
  assert (Hkey : forall r, dict.get m r = None -> r ∉ species self).
  { intros r Hnone Hin. destruct (Hkeys r Hin) as [t Ht]. congruence. }
  destruct (fill_ionization_electrons self m pyheap) as [[] pyheap'|e1 pyheap'|] eqn:Hfill.
  - destruct (get_operations_simple_density self m) as [simple|e2] eqn:Hsimple; simpl.
    + destruct (get_operations_not_placed self m) as [not_placed|e3] eqn:Hnp; simpl.
      * destruct (get_operations_from_individual_species _ self m)
          as [individual|e4] eqn:Hind; simpl; [discriminate|].
        intros [= <- _]. do 4 right.
        apply individual_Raise in Hind as (r & t & Hin & Hrun).
        exists r, t. split; [|exact Hrun].
        apply Hm in Hin. now apply list_elem_of_lookup_2 in Hin.
      * intros [= <- _]. exfalso.
        unfold get_operations_not_placed in Hnp. rewrite not_placed_of_unplaced in Hnp.
        apply bind_Raise_inv in Hnp as [Hnp | (trs & _ & [=])].
        apply translated_Raise in Hnp as (_ & r & Hr & Hnone).
        apply (Hkey r Hnone). now apply elem_of_unplaced.
    + intros [= <- _].
      unfold get_operations_simple_density in Hsimple.
      rewrite simple_density_by_layout_groups in Hsimple.
      apply operations_of_groups_Raise in Hsimple as ([[l p] lst] & Hin & Hg).
      simpl in Hg.
      pose proof (flat_groups_grouped _ _ (grouped_placements self)) as [_ Hflat].
      apply Hflat in Hin as [-> Hne].
      apply simple_density_of_Raise in Hg as [(-> & object & g & ->) | (-> & r & Hr & Hnone)].
      * left. split; [reflexivity|]. right.
        destruct (group_of (placements self) (PICMI_GriddedLayout object g, p))
          as [|r lst] eqn:Hgr; [done|].
        exists r, object, g, p. apply elem_of_group_of. rewrite Hgr. apply list_elem_of_here.
      * exfalso. apply (Hkey r Hnone).
        apply elem_of_group_of in Hr. now apply elem_of_placements in Hr.
  - intros [= <- _]. unfold fill_ionization_electrons in Hfill.
    apply fill_items_Raised_inv in Hfill as (p & t & Hin & Hgsi & Hcases).
    apply Hm in Hin.
    assert (Hp : p ∈ species self) by now apply list_elem_of_lookup_2 in Hin.
    rewrite Hheap, (translations_lookup self t p Hin) in Hgsi, Hcases.
    apply gsi_translation in Hgsi.
    destruct Hcases as [[Hnone ->] | (d & Hd & Hget & ->)].
    + do 2 right. left. split; [reflexivity|]. exists p. now split.
    + do 3 right. left. exists p, d. repeat split; auto.
  - discriminate.
Qed.

Lemma get_init_manager_errors_witness :
  exists r d, r ∈ species unlisted_electrons
              /\ picongpu_ionization_electrons (deref unlisted_electrons r) = Some d
              /\ (d ∉ species unlisted_electrons)
              /\ AssertionError (Some (explicitly_added_message "e" "N"))
                 = AssertionError
                     (Some (explicitly_added_message (name (deref unlisted_electrons d))
                              (name (deref unlisted_electrons r)))).
Proof.
  destruct (get_init_manager_errors (fun _ _ => Ok []) unlisted_electrons
              (AssertionError (Some (explicitly_added_message "e" "N")))
              [species_get_as_pypicongpu (ionizable "N" (Some 1%nat))] eq_refl)
    as [[[=] _] | [(item & _ & _ & He) | [[[=] _] | [H | (r & t & _ & [=])]]]].
  - exfalso. unfold check_message in He.
    destruct item.1, (initial_distribution (deref unlisted_electrons item.2));
      vm_compute in He; discriminate.
  - destruct H as (r & d & Hr & _ & Hd & Hnot & He). exists r, d. auto.
Defined.

(** The operations of a returned plan, by their origin. *)
Lemma get_init_manager_Return_inv
    (get_independent_operations : Species -> pyref -> result (list Operation))
    (self : Simulation) (plan : InitManager) (pyheap : list PySpecies) :
  get_init_manager get_independent_operations self = Return plan pyheap ->
  aligned self
  /\ check_layouts self (zip (layouts self) (species self)) = Ok tt
  /\ exists m simple not_placed individual,
       translate_all self (species self) [] [] [] = (m, all_species plan, translations self)
       /\ fill_ionization_electrons self m (translations self) = Return tt pyheap
       /\ get_operations_simple_density self m = Ok simple
       /\ get_operations_not_placed self m = Ok not_placed
       /\ get_operations_from_individual_species get_independent_operations self m
          = Ok individual
       /\ all_operations plan
          = (map OpSimpleDensity simple ++ not_placed ++ individual)%list.
Proof.
  unfold get_init_manager.
  destruct (Nat.eqb (length (species self)) (length (layouts self))) eqn:Hlen; simpl;
    [|discriminate].
  destruct (check_layouts self (zip (layouts self) (species self))) as [[]|e0] eqn:Hcheck;
    [|discriminate].
  destruct (translate_all self (species self) [] [] []) as [[m all_] pyheap0] eqn:Htr.
  destruct (translate_all_species self m all_ pyheap0 Htr) as (-> & _).
  destruct (fill_ionization_electrons self m (translations self))
    as [[] pyheap'|e1 pyheap'|] eqn:Hfill; try discriminate.
  destruct (get_operations_simple_density self m) as [simple|e2] eqn:Hsimple; simpl;
    [|discriminate].
  destruct (get_operations_not_placed self m) as [not_placed|e3] eqn:Hnp; simpl;
    [|discriminate].
  destruct (get_operations_from_individual_species _ self m) as [individual|e4] eqn:Hind;
    simpl; [|discriminate].
  intros [= <- <-]. split; [now apply Nat.eqb_eq|]. split; [reflexivity|].
  exists m, simple, not_placed, individual. simpl. repeat split; auto.
Qed.

(** X19: a plan that the init manager returns comes from a simulation with
    as many layouts as species that passes the layout checks.  It lists one
    translated species for every position of the species list, in order and
    with the name of the species.  Every species of the list is a key of the
    mapping of the init manager, which gives it a position of the list that
    holds it.  The operations of the plan are what the method for the
    simple density operations returns for this mapping, then one
    [NotPlaced] for every position without layout and profile, with the
    translation the mapping gives for the species there, then what the
    method for the operations of the single species returns for the
    mapping, and nothing else; a simple density operation is about
    translations of placed species only. *)
Theorem get_init_manager_plan
    (get_independent_operations : Species -> pyref -> result (list Operation))
    (self : Simulation) (plan : InitManager) (pyheap : list PySpecies) :
  get_init_manager get_independent_operations self = Return plan pyheap ->
  let m := species_mapping self in
  aligned self
  /\ Forall (layout_matches_profile self) (zip (layouts self) (species self))
  /\ all_species plan = seq 0 (length (species self))
  /\ map py_name pyheap = map (fun r => name (deref self r)) (species self)
  /\ (forall r t, dict.get m r = Some t -> species self !! t = Some r)
  /\ (forall r, r ∈ species self -> is_Some (dict.get m r))
  /\ exists simple trs individual,
       get_operations_simple_density self m = Ok simple
       /\ Forall2 (fun r t => dict.get m r = Some t) (unplaced self) trs
       /\ get_operations_from_individual_species get_independent_operations self m
          = Ok individual
       /\ all_operations plan
          = (map OpSimpleDensity simple ++ map OpNotPlaced trs ++ individual)%list
       /\ forall op t, op ∈ simple -> t ∈ simple_density_species op ->
                       exists r k, (r, k) ∈ placements self /\ dict.get m r = Some t.
Proof.
  intros (Hal & Hcheck & m & simple & not_placed & individual & Htr & Hfill & Hsimple
          & Hnp & Hind & Hops)%get_init_manager_Return_inv.
  assert (Hmap : species_mapping self = m) by (unfold species_mapping; now rewrite Htr).
  rewrite Hmap. clear Hmap. simpl.
  destruct (translate_all_species self m _ _ Htr) as (_ & Hall & Hm & Hkeys & _).
  assert (Hget : forall r t, dict.get m r = Some t -> species self !! t = Some r).
  { intros r t Hrt. now apply Hm, dict_get_elem_of. }
  split; [exact Hal|]. split; [now apply check_layouts_Ok|]. split; [exact Hall|].
  split; [|split; [exact Hget|split; [exact Hkeys|]]].
  - destruct (fill_items_invariant self m m (translations self))
      as (h & [[e He] | Hr] & Hlen & Hsame);
      unfold fill_ionization_electrons in Hfill; rewrite Hfill in *; [discriminate|].
    injection Hr as <-. apply list_eq. intros i.
    change (map py_name pyheap) with (py_name <$> pyheap).
    assert (Hlen' : length pyheap = length (species self)).
    { rewrite Hlen. unfold translations. apply length_map. }
    change (map (fun r => name (deref self r)) (species self))
      with ((fun r => name (deref self r)) <$> species self).
    rewrite !list_lookup_fmap.
    destruct (species self !! i) as [r|] eqn:Hi.
    + destruct (lookup_lt_is_Some_2 pyheap i) as [a Ha].
      { rewrite Hlen'. now apply lookup_lt_Some in Hi. }
      rewrite Ha. simpl. f_equal.
      rewrite <- (list_lookup_total_correct _ _ _ Ha), (proj1 (Hsame i)).
      pose proof (translations_lookup self i r Hi) as Htl. unfold pyref in Htl.
      now rewrite Htl.
    + rewrite lookup_ge_None_2; [reflexivity|].
      rewrite Hlen'. now apply lookup_ge_None in Hi.
  - pose proof Hnp as Hnp'.
    unfold get_operations_not_placed in Hnp'. rewrite not_placed_of_unplaced in Hnp'.
    apply bind_Ok_inv in Hnp' as (trs & Htrs%translated_Ok & [= <-]).
    exists simple, trs, individual.
    split; [exact Hsimple|]. split; [exact Htrs|]. split; [exact Hind|].
    split; [exact Hops|].
    intros op t Hop Ht.
    unfold get_operations_simple_density in Hsimple.
    rewrite simple_density_by_layout_groups in Hsimple.
    apply operations_of_groups_Ok in Hsimple.
    pose proof (flat_groups_grouped _ _ (grouped_placements self)) as [_ Hflat].
    apply list_elem_of_lookup in Hop as (i & Hi).
    destruct (Forall2_lookup_r _ _ _ _ _ Hsimple Hi) as ([k lst] & Hg & Hrun).
    apply list_elem_of_lookup_2, Hflat in Hg as [-> _]. simpl in Hrun.
    destruct (simple_density_of_group self m k op Hrun) as (_ & _ & _ & Hmem).
    apply Hmem in Ht as (r & Hr & Hrt). exists r, k. auto.
Qed.

Lemma get_init_manager_plan_witness :
  let plan :=
    match get_init_manager (fun _ _ => Ok []) (three_placed None) with
    | Return plan _ => plan
    | _ => {| all_species := []; all_operations := [] |}
    end in
  all_species plan = [0; 1; 2]%nat
  /\ exists simple,
       get_operations_simple_density (three_placed None)
         (species_mapping (three_placed None)) = Ok simple
       /\ all_operations plan = map OpSimpleDensity simple
       /\ length simple = 2%nat.
Proof.
  destruct (get_init_manager_plan (fun _ _ => Ok []) (three_placed None)
              (match get_init_manager (fun _ _ => Ok []) (three_placed None) with
               | Return plan _ => plan
               | _ => {| all_species := []; all_operations := [] |}
               end)
              (match get_init_manager (fun _ _ => Ok []) (three_placed None) with
               | Return _ h => h
               | _ => []
               end)
              ltac:(vm_compute; reflexivity))
    as (_ & _ & Hall & _ & _ & _ & simple & trs & individual & Hsimple & Htrs & Hind
        & Hops & _).
  split; [exact Hall|]. exists simple. split; [exact Hsimple|].
  inversion Htrs; subst. injection Hind as <-.
  split; [now rewrite Hops, app_nil_r|].
  assert (Hlen : length (all_operations
                           (match get_init_manager (fun _ _ => Ok []) (three_placed None) with
                            | Return plan _ => plan
                            | _ => {| all_species := []; all_operations := [] |}
                            end)) = 2%nat) by (vm_compute; reflexivity).
  rewrite Hops, app_nil_r, length_map in Hlen. exact Hlen.
Defined.

(** X20: in a plan that the init manager returns, every species of the list
    that has ionization models has ionization electrons that are in the
    species list too, and a translation of the species holds its ionization
    models, by their names and in their order, each linked to a translation
    of these electrons. *)
Theorem get_init_manager_links
    (get_independent_operations : Species -> pyref -> result (list Operation))
    (self : Simulation) (plan : InitManager) (pyheap : list PySpecies) (r : ref) :
  get_init_manager get_independent_operations self = Return plan pyheap ->
  r ∈ species self ->
  has_ionizers (deref self r) = true ->
  exists i d j,
    species self !! i = Some r
    /\ picongpu_ionization_electrons (deref self r) = Some d
    /\ species self !! j = Some d
    /\ pyheap !!! i = {| py_name := name (deref self r);
                         ground_state_ionization :=
                           Some (linked_models (deref self r) j) |}.
Proof.
  intros (_ & _ & m & _ & _ & _ & Htr & Hfill & _)%get_init_manager_Return_inv Hr Hion.
  destruct (translate_all_species self m _ _ Htr) as (_ & _ & Hm & Hkeys & Hnd & Hvalid).
  unfold fill_ionization_electrons in Hfill.
  pose proof (fill_items_Return_inv self m m _ _ Hfill) as Hreg.
  destruct (fill_items_returns self m m (translations self) Hnd Hvalid Hreg)
    as (pyheap' & Hrun & _ & Hlinks & _).
  rewrite Hfill in Hrun. injection Hrun as <-.
  destruct (Hkeys r Hr) as [i Hi]. apply dict_get_elem_of in Hi.
  pose proof (Hm r i Hi) as Hsp.
  rewrite Forall_forall in Hreg. specialize (Hreg (r, i) Hi). simpl in Hreg.
  rewrite (translations_lookup self i r Hsp) in Hreg.
  destruct Hreg as (d & j & Hd & Hj); [now apply gsi_translation|].
  exists i, d, j. split; [exact Hsp|]. split; [exact Hd|].
  split; [now apply Hm, dict_get_elem_of|].
  pose proof (translations_lookup self i r Hsp) as Htl.
  specialize (Hlinks r i (map (fun m => {| model_name := m;
                                           ionization_electron_species := None |})
                              (picongpu_ionization_models (deref self r))) d j Hi).
  unfold pyref in *. rewrite Hlinks; [|rewrite Htl; simpl; now rewrite Hion|exact Hd|exact Hj].
  rewrite Htl. simpl. unfold linked_models. now rewrite map_map.
Qed.

Lemma get_init_manager_links_witness :
  exists i d j,
    species ionizing_simulation !! i = Some 0%nat
    /\ picongpu_ionization_electrons (deref ionizing_simulation 0%nat) = Some d
    /\ species ionizing_simulation !! j = Some d
    /\ match get_init_manager (fun _ _ => Ok []) ionizing_simulation with
       | Return _ pyheap => pyheap
       | _ => []
       end !!! i
       = {| py_name := "N";
            ground_state_ionization :=
              Some (linked_models (deref ionizing_simulation 0%nat) j) |}.
Proof.
  exact (get_init_manager_links (fun _ _ => Ok []) ionizing_simulation
           (match get_init_manager (fun _ _ => Ok []) ionizing_simulation with
            | Return plan _ => plan
            | _ => {| all_species := []; all_operations := [] |}
            end)
           (match get_init_manager (fun _ _ => Ok []) ionizing_simulation with
            | Return _ pyheap => pyheap
            | _ => []
            end)
           0%nat eq_refl (list_elem_of_here _ _) eq_refl).
Defined.

(** ** The translation of the simulation, repeated *)

Lemma resolve_electrons_same_settings (K : constants.t) (self self' : Simulation) :
  resolve_electrons K self = Return tt self' -> same_settings self self'.
Proof.
  intros Hrun.
  destruct (resolve_electrons_outcome K self)
    as [[_ Hres] | [_ [(err & _ & Hres) | (e & self1 & Hget & Hres)]]];
    rewrite Hres in Hrun; [injection Hrun as <- | discriminate | injection Hrun as <-].
  - now repeat split.
  - destruct (get_electron_species_keeps K self self1 e Hget) as (Hset & _).
    eapply same_settings_trans; [exact Hset|]. apply same_settings_assign_electrons.
Qed.

Lemma resolve_electrons_Raised_same (K : constants.t) (self self' : Simulation)
    (e : PyError) :
  resolve_electrons K self = Raised e self' -> self' = self.
Proof.
  intros Hrun.
  destruct (resolve_electrons_outcome K self)
    as [[_ Hres] | [_ [(err & _ & Hres) | (e0 & self1 & _ & Hres)]]];
    rewrite Hres in Hrun; [discriminate | | discriminate].
  now injection Hrun as _ <-.
Qed.

Lemma get_init_manager_total
    (get_independent_operations : Species -> pyref -> result (list Operation))
    (self : Simulation) :
  get_init_manager get_independent_operations self <> OutOfFuel.
Proof.
  unfold get_init_manager.
  destruct (_ ≫= _); [|discriminate].
  destruct (translate_all _ _ _ _ _) as [[m allsp] h].
  destruct (fill_items_invariant self m m h) as (h' & [[e He] | Hr] & _);
    unfold fill_ionization_electrons; rewrite ?He, ?Hr; [discriminate|].
  destruct (_ ≫= _); discriminate.
Qed.

(** X21: the translation can be repeated.  When the translation of solver,
    grid and laser does not depend on the species, a second translation of
    the simulation that the first one left has the outcome of the first,
    the same result or the same exception, and changes nothing any more: the
    electrons are resolved once. *)
Theorem get_as_pypicongpu_repeatable (K : constants.t) (PySolver PyGrid PyLaser : Type)
    (solver_get_as_pypicongpu : Solver -> result PySolver)
    (grid_and_laser_get_as_pypicongpu : Simulation -> result (PyGrid * option PyLaser))
    (get_independent_operations : Species -> pyref -> result (list Operation))
    (typical_ppc_without_counts : result Q)
    (self : Simulation) :
  let translate :=
    get_as_pypicongpu K PySolver PyGrid PyLaser solver_get_as_pypicongpu
      grid_and_laser_get_as_pypicongpu get_independent_operations
      typical_ppc_without_counts in
  (forall a b, same_settings a b ->
               grid_and_laser_get_as_pypicongpu b = grid_and_laser_get_as_pypicongpu a) ->
  match translate self with
  | Return s self' => translate self' = Return s self'
  | Raised e self' => translate self' = Raised e self'
  | OutOfFuel => False
  end.
Proof.
  intros translate Hgrid. unfold translate, get_as_pypicongpu.
  destruct (_ ≫= _) as [[[sv steps] [g l]]|err] eqn:Hbefore;
    [|now rewrite Hbefore].
  destruct (resolve_electrons K self) as [[] self'|err self'|] eqn:Hres.
  - pose proof (resolve_electrons_same_settings K self self' Hres) as Hset.
    pose proof (resolve_electrons_again K self'
                  (resolve_electrons_settled K self self' Hres)) as Hagain.
    assert (Hbefore' :
              (sv0 ← match solver self' with
                     | Some sv0 => solver_get_as_pypicongpu sv0
                     | None => Raise (AttributeError
                                 "'NoneType' object has no attribute 'get_as_pypicongpu'")
                     end;
               steps0 ← get_time_steps self';
               gl ← grid_and_laser_get_as_pypicongpu self';
               mret (sv0, steps0, gl)) = Ok (sv, steps, (g, l))).
    { rewrite <- Hbefore. destruct Hset as (-> & Hdt & Hsteps & Htime & _).
      unfold get_time_steps. rewrite Hdt, Hsteps, Htime.
      rewrite (Hgrid self self'); [reflexivity|].
      pose proof (resolve_electrons_same_settings K self self' Hres) as H. exact H. }
    destruct Hset as (_ & Hdt & _).
    destruct (get_init_manager _ self') as [im pyheap|err pyheap|] eqn:Him.
    + destruct (get_typical_ppc _ self' im) as [ppc_|err] eqn:Hppc.
      * rewrite Hbefore', Hagain, Him, Hppc, Hdt. reflexivity.
      * now rewrite Hbefore', Hagain, Him, Hppc.
    + now rewrite Hbefore', Hagain, Him.
    + now apply get_init_manager_total in Him.
  - pose proof (resolve_electrons_Raised_same K self self' err Hres) as Heq.
    subst self'. now rewrite Hbefore, Hres.
  - now apply resolve_electrons_total in Hres.
Qed.

Lemma get_as_pypicongpu_repeatable_witness :
  match get_as_pypicongpu SI unit unit unit (fun _ => Ok tt) (fun _ => Ok (tt, None))
          (fun _ _ => Ok []) (Ok 1%Q)
          (placed_simulation [ionizable "N" None] [None] (Some 2)) with
  | Return s self' =>
    get_as_pypicongpu SI unit unit unit (fun _ => Ok tt) (fun _ => Ok (tt, None))
      (fun _ _ => Ok []) (Ok 1%Q) self' = Return s self'
  | Raised e self' =>
    get_as_pypicongpu SI unit unit unit (fun _ => Ok tt) (fun _ => Ok (tt, None))
      (fun _ _ => Ok []) (Ok 1%Q) self' = Raised e self'
  | OutOfFuel => False
  end.
Proof.
  exact (get_as_pypicongpu_repeatable SI unit unit unit (fun _ => Ok tt)
           (fun _ => Ok (tt, None)) (fun _ _ => Ok []) (Ok 1%Q)
           (placed_simulation [ionizable "N" None] [None] (Some 2))
           (fun _ _ _ => eq_refl)).
Defined.

(** ** The run time of a simulation built with a CFL number *)

(** X22: after the constructor has reconciled a Yee solver on a Cartesian
    3-D grid that has a CFL number, the time step is set, whether or not it
    was given; so a simulation whose run time is given as a maximal time
    gets its number of steps as the quotient of that time and the time
    step, and the translation does not fail for a missing time step. *)
Theorem time_steps_after_reconcile (K : constants.t) (M : libm.t) (self self1 : Simulation)
    (sv : Solver) (g : Cartesian3DGrid) (cfl_ t : float) :
  solver self = Some sv -> method sv = "Yee" -> grid sv = Cartesian3D g ->
  cfl sv = Some cfl_ ->
  max_steps self = None -> max_time self = Some t ->
  init_reconcile K M self = Ok self1 ->
  exists delta_t,
    time_step_size self1 = Some delta_t
    /\ (forall given, time_step_size self = Some given -> delta_t = given)
    /\ get_time_steps self1 = (q ← pyfloat.truediv t delta_t; mret (inr q)).
Proof.
  intros Hsolver Hmethod Hgrid Hcfl Hsteps Htime Hrun.
  unfold init_reconcile in Hrun. rewrite Hsolver, Hmethod, Hgrid in Hrun. simpl in Hrun.
  destruct (yee_Ok_inv K M self self1 Hrun)
    as (sv' & g' & dx & dy & dz & Hsolver' & _ & Hgrid' & Hsp).
  rewrite Hsolver in Hsolver'. injection Hsolver' as <-.
  rewrite Hgrid in Hgrid'. injection Hgrid' as <-.
  rewrite (yee_after_spacings K M self sv g dx dy dz Hsolver Hmethod Hgrid Hsp), Hcfl in Hrun.
  destruct (time_step_size self) as [given|] eqn:Hdt.
  - apply bind_Ok_inv in Hrun as (s & _ & Hrun).
    apply bind_Ok_inv in Hrun as (d & _ & Hrun).
    destruct (negb _); [discriminate|]. injection Hrun as <-.
    exists given. split; [exact Hdt|]. split; [now intros ? [= ->]|].
    unfold get_time_steps. now rewrite Hsteps, Htime, Hdt.
  - apply bind_Ok_inv in Hrun as (s & _ & Hrun).
    apply bind_Ok_inv in Hrun as (d & _ & Hrun). injection Hrun as <-.
    exists d. split; [reflexivity|]. split; [discriminate|].
    unfold get_time_steps. simpl. now rewrite Hsteps, Htime.
Qed.

Lemma time_steps_after_reconcile_witness :
  exists self1 delta_t,
    init_reconcile SI example_libm
      {| heap := []; solver := Some {| method := "Yee"; grid := Cartesian3D unit_cube;
                                       cfl := Some 1%float |};
         time_step_size := None; max_steps := None; max_time := Some 1%float;
         species := []; layouts := [];
         picongpu_typical_ppc := None;
         picongpu_moving_window_move_point := None;
         picongpu_moving_window_stop_iteration := None;
         electron_species := None; logged := [] |} = Ok self1
    /\ time_step_size self1 = Some delta_t
    /\ get_time_steps self1 = (q ← pyfloat.truediv 1 delta_t; mret (inr q)).
Proof.
  eexists. 
  destruct (time_steps_after_reconcile SI example_libm
              {| heap := []; solver := Some {| method := "Yee"; grid := Cartesian3D unit_cube;
                                               cfl := Some 1%float |};
                 time_step_size := None; max_steps := None; max_time := Some 1%float;
                 species := []; layouts := [];
                 picongpu_typical_ppc := None;
                 picongpu_moving_window_move_point := None;
                 picongpu_moving_window_stop_iteration := None;
                 electron_species := None; logged := [] |}
              _ _ unit_cube 1%float 1%float eq_refl eq_refl eq_refl eq_refl eq_refl eq_refl
              ltac:(vm_compute; reflexivity))
    as (delta_t & Hdt & _ & Hsteps).
  exists delta_t. split; [vm_compute; reflexivity|]. split; [exact Hdt | exact Hsteps].
Defined.

(** ** The operations of the single species *)

(** X23: the operations that the species define for themselves are asked
    for once for every entry of the mapping, in its order, and put one
    after the other; the first species whose operations raise makes the
    method raise the same exception, and the species after it are not
    asked. *)
Theorem individual_operations_in_order
    (get_independent_operations : Species -> pyref -> result (list Operation))
    (self : Simulation) (items : list (ref * pyref)) :
  (forall ops,
      get_operations_from_individual_species get_independent_operations self items = Ok ops
      <-> exists parts,
            Forall2 (fun it part =>
                       get_independent_operations (deref self it.1) it.2 = Ok part)
                    items parts
            /\ ops = concat parts)
  /\ (forall pre it post e,
        items = (pre ++ it :: post)%list ->
        Forall (fun it => exists part,
                            get_independent_operations (deref self it.1) it.2 = Ok part)
               pre ->
        get_independent_operations (deref self it.1) it.2 = Raise e ->
        get_operations_from_individual_species get_independent_operations self items
        = Raise e).
Proof.
  split.
  - induction items as [|[r t] items IH]; intros ops; simpl.
    + split.
      * intros [= <-]. exists []. split; [constructor | reflexivity].
      * intros (parts & Hparts & ->). inversion Hparts. reflexivity.
    + split.
      * intros (part & Hpart & (more & Hmore & [= <-])%bind_Ok_inv)%bind_Ok_inv.
        apply IH in Hmore as (parts & Hparts & ->).
        exists (part :: parts). split; [now constructor | reflexivity].
      * intros (parts & Hparts & ->).
        inversion Hparts as [|? part ? parts' Hpart Hrest]; subst. simpl in Hpart.
        rewrite Hpart. simpl.
        rewrite (proj2 (IH (concat parts')) (ex_intro _ parts' (conj Hrest eq_refl))).
        reflexivity.
  - intros pre it post e -> Hpre Hit.
    induction Hpre as [|[r t] pre [part Hpart] _ IH]; simpl.
    + destruct it as [r t]. simpl in Hit. now rewrite Hit.
    + simpl in Hpart. rewrite Hpart. simpl. now rewrite IH.
Qed.

Lemma individual_operations_in_order_witness :
  get_operations_from_individual_species
    (fun sp t => if String.eqb (name sp) "b" then Raise TypeError
                 else Ok [OpIndependent (name sp) t])
    (simulation_of [plain "a" None; plain "b" None; plain "c" None] None)
    [(0, 0); (1, 1); (2, 2)]%nat
  = Raise TypeError.
Proof.
  refine (proj2 (individual_operations_in_order
                   (fun sp t => if String.eqb (name sp) "b" then Raise TypeError
                                else Ok [OpIndependent (name sp) t])
                   (simulation_of [plain "a" None; plain "b" None; plain "c" None] None)
                   [(0, 0); (1, 1); (2, 2)]%nat)
            [(0, 0)]%nat (1, 1)%nat [(2, 2)]%nat TypeError eq_refl _ eq_refl).
  constructor; [|constructor]. now exists [OpIndependent "a" 0%nat].
Defined.

(** ** Custom user input *)

(** X24: the custom user input objects are collected in the order in which
    they are added, after those that were there; once an object has been
    added the attribute is a list, and an attribute that is not set counts
    as the empty list. *)
Theorem custom_user_input_in_order {A : Type} (st : option (list A)) (inputs : list A) :
  inputs <> [] ->
  foldl picongpu_add_custom_user_input st inputs = Some (default [] st ++ inputs)%list.
Proof.
  intros Hne. destruct inputs as [|x inputs]; [done|]. clear Hne. simpl.
  assert (Hfold : forall (l : list A) (more : list A),
             foldl picongpu_add_custom_user_input (Some l) more = Some (l ++ more)%list).
  { intros l more. revert l.
    induction more as [|y more IH]; intros l; simpl.
    - now rewrite app_nil_r.
    - rewrite IH, <- app_assoc. reflexivity. }
  destruct st as [l|]; simpl; rewrite Hfold.
  - rewrite <- app_assoc. reflexivity.
  - reflexivity.
Qed.

Lemma custom_user_input_in_order_witness :
  foldl picongpu_add_custom_user_input None ["a"; "b"; "c"] = Some ["a"; "b"; "c"].
Proof.
  exact (custom_user_input_in_order None ["a"; "b"; "c"] ltac:(discriminate)).
Defined.
